(** * Envelope crypto core of buhbuh: [src/utils/crypto-utils.ts]

    A shallow embedding of the password-based authenticated-encryption
    envelope (PBKDF2-HMAC-SHA-256 key derivation, AES-256-GCM sealing,
    base64/JSON envelope codec) together with the platform functions the
    module calls: [crypto.subtle], [crypto.getRandomValues], [TextEncoder],
    [btoa]/[atob], [JSON.stringify]/[JSON.parse].

    Byte arrays ([Uint8Array]) are lists of [byte]; JavaScript strings are
    lists of UTF-16 code units held in [N]; thrown exceptions are values of
    [JsError]; the secure random source is an explicit tape of bytes threaded
    through the operations that draw from it.

    The callers of the module are embedded after it: the hook
    [use-decryption.ts], the components [password-gate.tsx] and
    [file-browser.tsx] as far as they compute, and of the script
    [encrypt-files.js] the stored text and the choice of the password. *)

From Stdlib Require Import Strings.Byte Strings.Ascii Strings.String.
From Stdlib Require Import List NArith ZArith Lia Bool Arith Btauto.
Import ListNotations.

Local Open Scope N_scope.

(** ** Bytes and byte strings *)

Definition bytes := list byte.

(** Storing a number into a [Uint8Array] slot keeps it modulo 256. *)
Definition byte_of_N (n : N) : byte :=
  match Byte.of_N (n mod 256) with
  | Some b => b
  | None => x00
  end.

Definition bxor (a b : byte) : byte :=
  byte_of_N (N.lxor (Byte.to_N a) (Byte.to_N b)).

Fixpoint xor_bytes (a b : bytes) : bytes :=
  match a, b with
  | x :: a', y :: b' => bxor x y :: xor_bytes a' b'
  | _, _ => []
  end.

(** Big-endian reading and writing of unsigned integers. *)
Definition be_to_N (l : bytes) : N :=
  fold_left (fun acc b => acc * 256 + Byte.to_N b) l 0.

Fixpoint N_to_be (len : nat) (n : N) : bytes :=
  match len with
  | O => []
  | S k => N_to_be k (n / 256) ++ [byte_of_N n]
  end.

Definition zeros (n : nat) : bytes := repeat x00 n.

(** [chunks n l] cuts [l] into consecutive pieces of [n] elements (the last
    one may be shorter).  The recursion is on a fuel that the length of [l]
    always covers. *)
Fixpoint chunks_fuel {A} (fuel n : nat) (l : list A) : list (list A) :=
  match fuel with
  | O => []
  | S f =>
      match l with
      | [] => []
      | _ => firstn n l :: chunks_fuel f n (skipn n l)
      end
  end.

Definition chunks {A} (n : nat) (l : list A) : list (list A) :=
  chunks_fuel (length l) n l.

(** ** SHA-256 (FIPS 180-4), the hash named by [HASH] *)

Module SHA256.

Definition mask32 : N := 0xFFFFFFFF.
Definition w32 (n : N) : N := N.land n mask32.
Definition add32 (a b : N) : N := w32 (a + b).
Definition rotr (r x : N) : N :=
  N.lor (N.shiftr x r) (w32 (N.shiftl x (32 - r))).
Definition shr (r x : N) : N := N.shiftr x r.

Definition Ch (x y z : N) : N :=
  N.lxor (N.land x y) (N.land (N.lxor x mask32) z).
Definition Maj (x y z : N) : N :=
  N.lxor (N.lxor (N.land x y) (N.land x z)) (N.land y z).
Definition Sigma0 (x : N) : N :=
  N.lxor (N.lxor (rotr 2 x) (rotr 13 x)) (rotr 22 x).
Definition Sigma1 (x : N) : N :=
  N.lxor (N.lxor (rotr 6 x) (rotr 11 x)) (rotr 25 x).
Definition sigma0 (x : N) : N :=
  N.lxor (N.lxor (rotr 7 x) (rotr 18 x)) (shr 3 x).
Definition sigma1 (x : N) : N :=
  N.lxor (N.lxor (rotr 17 x) (rotr 19 x)) (shr 10 x).

(** The constants are defined as the standard defines them: the first 32
    bits of the fractional parts of the cube roots (for [K]) and of the square
    roots (for [H0]) of the first primes. *)
Definition primes : list N :=
  [2; 3; 5; 7; 11; 13; 17; 19; 23; 29; 31; 37; 41; 43; 47; 53; 59; 61; 67; 71;
   73; 79; 83; 89; 97; 101; 103; 107; 109; 113; 127; 131; 137; 139; 149; 151;
   157; 163; 167; 173; 179; 181; 191; 193; 197; 199; 211; 223; 227; 229; 233;
   239; 241; 251; 257; 263; 269; 271; 277; 281; 283; 293; 307; 311].

(** The integer cube root, bit by bit from bit [k - 1] down. *)
Fixpoint cbrt_bits (k : nat) (n r : N) : N :=
  match k with
  | O => r
  | S k' =>
      let r' := r + 2 ^ N.of_nat k' in
      if r' * r' * r' <=? n then cbrt_bits k' n r' else cbrt_bits k' n r
  end.

Definition frac_cbrt32 (p : N) : N := cbrt_bits 40 (p * 2 ^ 96) 0 mod 2 ^ 32.
Definition frac_sqrt32 (p : N) : N := N.sqrt (p * 2 ^ 64) mod 2 ^ 32.

Definition K : list N := Eval vm_compute in map frac_cbrt32 primes.

(** The eight working variables / the chaining value. *)
Record state := St { sa : N; sb : N; sc : N; sd : N;
                     se : N; sf : N; sg : N; sh : N }.

Definition H0 : state :=
  Eval vm_compute in
    St (frac_sqrt32 2) (frac_sqrt32 3) (frac_sqrt32 5) (frac_sqrt32 7)
       (frac_sqrt32 11) (frac_sqrt32 13) (frac_sqrt32 17) (frac_sqrt32 19).

Definition round (k w : N) (s : state) : state :=
  let t1 := add32 (add32 (add32 (sh s) (Sigma1 (se s)))
                         (add32 (Ch (se s) (sf s) (sg s)) k)) w in
  let t2 := add32 (Sigma0 (sa s)) (Maj (sa s) (sb s) (sc s)) in
  St (add32 t1 t2) (sa s) (sb s) (sc s) (add32 (sd s) t1) (se s) (sf s) (sg s).

(** The message schedule is kept as a sliding window of sixteen words: the
    head is W_t, and W_(t+16) is appended as the window moves on. *)
Fixpoint rounds (ks win : list N) (s : state) : state :=
  match ks with
  | [] => s
  | k :: ks' =>
      let w := nth 0 win 0 in
      let wnew := add32 (add32 (sigma1 (nth 14 win 0)) (nth 9 win 0))
                        (add32 (sigma0 (nth 1 win 0)) w) in
      rounds ks' (tl win ++ [wnew]) (round k w s)
  end.

Definition compress (s : state) (block : bytes) : state :=
  let win := map be_to_N (chunks 4 block) in
  let r := rounds K win s in
  St (add32 (sa s) (sa r)) (add32 (sb s) (sb r))
     (add32 (sc s) (sc r)) (add32 (sd s) (sd r))
     (add32 (se s) (se r)) (add32 (sf s) (sf r))
     (add32 (sg s) (sg r)) (add32 (sh s) (sh r)).

Definition pad (msg : bytes) : bytes :=
  let len := length msg in
  msg ++ [x80] ++ zeros ((64 - (len + 9) mod 64) mod 64)
      ++ N_to_be 8 (8 * N.of_nat len).

Definition digest (s : state) : bytes :=
  N_to_be 4 (sa s) ++ N_to_be 4 (sb s) ++ N_to_be 4 (sc s) ++ N_to_be 4 (sd s)
  ++ N_to_be 4 (se s) ++ N_to_be 4 (sf s) ++ N_to_be 4 (sg s) ++ N_to_be 4 (sh s).

Definition hash (msg : bytes) : bytes :=
  digest (fold_left compress (chunks 64 (pad msg)) H0).

Definition block_size : nat := 64.
Definition digest_size : nat := 32.

End SHA256.

(** ** HMAC (RFC 2104) over SHA-256 *)

Module HMAC.

(** The key as the hash sees it: hashed first when longer than a block, then
    filled with zero bytes up to the block size. *)
Definition key_block (key : bytes) : bytes :=
  let k := if (SHA256.block_size <? length key)%nat then SHA256.hash key else key in
  k ++ zeros (SHA256.block_size - length k).

Definition mac_with (kb msg : bytes) : bytes :=
  let ipad := map (bxor x36) kb in
  let opad := map (bxor x5c) kb in
  SHA256.hash (opad ++ SHA256.hash (ipad ++ msg)).

Definition mac (key msg : bytes) : bytes := mac_with (key_block key) msg.

End HMAC.

(** ** PBKDF2 (RFC 8018) with HMAC-SHA-256 as the pseudo-random function *)

Module PBKDF2.

(** One more iteration: the next U and the running exclusive-or. *)
Definition step (kb : bytes) (ut : bytes * bytes) : bytes * bytes :=
  let u' := HMAC.mac_with kb (fst ut) in
  (u', xor_bytes (snd ut) u').

(** Block [i] of the output for [c >= 1] iterations. *)
Definition F (kb salt : bytes) (c : N) (i : N) : bytes :=
  let u1 := HMAC.mac_with kb (salt ++ N_to_be 4 i) in
  snd (N.iter (c - 1) (step kb) (u1, u1)).

Definition derive (password salt : bytes) (c : N) (dkLen : nat) : bytes :=
  let kb := HMAC.key_block password in
  let nblocks := ((dkLen + SHA256.digest_size - 1) / SHA256.digest_size)%nat in
  firstn dkLen
    (flat_map (fun i => F kb salt c (N.of_nat i)) (seq 1 nblocks)).

End PBKDF2.

(** ** AES (FIPS 197): the forward cipher, which is all that GCM uses *)

Module AES.

(** Multiplication by x in GF(2^8) modulo x^8 + x^4 + x^3 + x + 1. *)
Definition xtime (b : byte) : byte :=
  let n := Byte.to_N b in
  byte_of_N (N.lxor (2 * n) (if 128 <=? n then 0x11b else 0)).

Fixpoint gmul_bits (k : nat) (a : byte) (b : N) : byte :=
  match k with
  | O => x00
  | S k' =>
      bxor (if N.odd b then a else x00) (gmul_bits k' (xtime a) (b / 2))
  end.

Definition gmul (a b : byte) : byte := gmul_bits 8 a (Byte.to_N b).

(** The multiplicative inverse (0 for 0) is the 254th power. *)
Definition ginv (a : byte) : byte :=
  let a2 := gmul a a in
  let a4 := gmul a2 a2 in
  let a8 := gmul a4 a4 in
  let a16 := gmul a8 a8 in
  let a32 := gmul a16 a16 in
  let a64 := gmul a32 a32 in
  let a128 := gmul a64 a64 in
  gmul a128 (gmul a64 (gmul a32 (gmul a16 (gmul a8 (gmul a4 a2))))).

Definition rotl8 (r n : N) : N :=
  N.lor (N.shiftl n r mod 256) (N.shiftr n (8 - r)).

Definition sbox_calc (a : byte) : byte :=
  let x := Byte.to_N (ginv a) in
  byte_of_N (N.lxor (N.lxor (N.lxor x (rotl8 1 x)) (N.lxor (rotl8 2 x) (rotl8 3 x)))
                    (N.lxor (rotl8 4 x) 0x63)).

Definition all_bytes : list byte :=
  Eval vm_compute in map (fun i => byte_of_N (N.of_nat i)) (seq 0 256).

Definition sbox_table : list byte := Eval vm_compute in map sbox_calc all_bytes.

Definition sbox (a : byte) : byte := nth (Byte.to_nat a) sbox_table x00.

(** A word is a column of the state, top row first. *)
Definition word : Type := byte * byte * byte * byte.
Definition state : Type := word * word * word * word.

Definition word0 : word := (x00, x00, x00, x00).

Definition wxor (a b : word) : word :=
  let '(a0, a1, a2, a3) := a in
  let '(b0, b1, b2, b3) := b in
  (bxor a0 b0, bxor a1 b1, bxor a2 b2, bxor a3 b3).

Definition sub_word (w : word) : word :=
  let '(a0, a1, a2, a3) := w in (sbox a0, sbox a1, sbox a2, sbox a3).

Definition rot_word (w : word) : word :=
  let '(a0, a1, a2, a3) := w in (a1, a2, a3, a0).

Fixpoint words_of (l : bytes) : list word :=
  match l with
  | a :: b :: c :: d :: rest => (a, b, c, d) :: words_of rest
  | _ => []
  end.

(** Key expansion: [w] holds the words produced so far, [i] is their number,
    [rc] the round constant to use next, [n] the number of words to add. *)
Fixpoint expand (n i Nk : nat) (rc : byte) (w : list word) : list word :=
  match n with
  | O => w
  | S n' =>
      let prev := nth (i - 1) w word0 in
      let back := nth (i - Nk) w word0 in
      if (i mod Nk =? 0)%nat then
        let t := wxor (sub_word (rot_word prev)) (rc, x00, x00, x00) in
        expand n' (S i) Nk (xtime rc) (w ++ [wxor back t])
      else if ((6 <? Nk) && (i mod Nk =? 4))%nat then
        expand n' (S i) Nk rc (w ++ [wxor back (sub_word prev)])
      else
        expand n' (S i) Nk rc (w ++ [wxor back prev])
  end.

Fixpoint states_of (l : list word) : list state :=
  match l with
  | a :: b :: c :: d :: rest => (a, b, c, d) :: states_of rest
  | _ => []
  end.

(** The round keys of a 128-, 192- or 256-bit key; no other length is a key. *)
Definition key_schedule (key : bytes) : option (list state) :=
  let Nk := (length key / 4)%nat in
  if ((length key =? 16) || (length key =? 24) || (length key =? 32))%nat then
    Some (states_of (expand (4 * (Nk + 7) - Nk) Nk Nk x01 (words_of key)))
  else None.

Definition add_round_key (rk s : state) : state :=
  let '(k0, k1, k2, k3) := rk in
  let '(c0, c1, c2, c3) := s in
  (wxor c0 k0, wxor c1 k1, wxor c2 k2, wxor c3 k3).

Definition sub_bytes (s : state) : state :=
  let '(c0, c1, c2, c3) := s in
  (sub_word c0, sub_word c1, sub_word c2, sub_word c3).

Definition shift_rows (s : state) : state :=
  let '((a0, a1, a2, a3), (b0, b1, b2, b3),
        (c0, c1, c2, c3), (d0, d1, d2, d3)) := s in
  ((a0, b1, c2, d3), (b0, c1, d2, a3), (c0, d1, a2, b3), (d0, a1, b2, c3)).

Definition mix_column (w : word) : word :=
  let '(a0, a1, a2, a3) := w in
  let m2 := xtime in
  let m3 := fun b => bxor (xtime b) b in
  (bxor (bxor (m2 a0) (m3 a1)) (bxor a2 a3),
   bxor (bxor a0 (m2 a1)) (bxor (m3 a2) a3),
   bxor (bxor a0 a1) (bxor (m2 a2) (m3 a3)),
   bxor (bxor (m3 a0) a1) (bxor a2 (m2 a3))).

Definition mix_columns (s : state) : state :=
  let '(c0, c1, c2, c3) := s in
  (mix_column c0, mix_column c1, mix_column c2, mix_column c3).

Fixpoint rounds (rks : list state) (s : state) : state :=
  match rks with
  | [] => s
  | [rk] => add_round_key rk (shift_rows (sub_bytes s))
  | rk :: more =>
      rounds more (add_round_key rk (mix_columns (shift_rows (sub_bytes s))))
  end.

Definition cipher (rks : list state) (s : state) : state :=
  match rks with
  | [] => s
  | rk0 :: more => rounds more (add_round_key rk0 s)
  end.

Definition state_of_bytes (l : bytes) : state :=
  match words_of l with
  | [a; b; c; d] => (a, b, c, d)
  | _ => (word0, word0, word0, word0)
  end.

Definition bytes_of_word (w : word) : bytes :=
  let '(a0, a1, a2, a3) := w in [a0; a1; a2; a3].

Definition bytes_of_state (s : state) : bytes :=
  let '(c0, c1, c2, c3) := s in
  bytes_of_word c0 ++ bytes_of_word c1 ++ bytes_of_word c2 ++ bytes_of_word c3.

(** The block cipher on a 16-byte block under expanded round keys. *)
Definition encrypt_block (rks : list state) (block : bytes) : bytes :=
  bytes_of_state (cipher rks (state_of_bytes block)).

End AES.

(** ** Galois/Counter Mode (NIST SP 800-38D) with a 128-bit tag *)

Module GCM.

Definition R : N := N.shiftl 0xE1 120.

(** Multiplication in GF(2^128), blocks read as 128-bit big-endian numbers
    whose most significant bit is the coefficient of degree 0. *)
Fixpoint mul_bits (k : nat) (x v z : N) : N :=
  match k with
  | O => z
  | S k' =>
      let z' := if N.testbit x (N.of_nat k') then N.lxor z v else z in
      let v' := if N.odd v then N.lxor (N.shiftr v 1) R else N.shiftr v 1 in
      mul_bits k' x v' z'
  end.

Definition gf_mul (x y : N) : N := mul_bits 128 x y 0.

Definition pad16 (l : bytes) : bytes :=
  l ++ zeros ((16 - length l mod 16) mod 16).

Definition ghash (h : N) (data : bytes) : N :=
  fold_left (fun y blk => gf_mul (N.lxor y (be_to_N blk)) h) (chunks 16 data) 0.

Definition len64 (l : bytes) : bytes := N_to_be 8 (8 * N.of_nat (length l)).

(** Incrementing the rightmost 32 bits of a counter block, modulo 2^32. *)
Definition inc32 (cb : N) : N :=
  N.lor (N.shiftl (N.shiftr cb 32) 32) ((cb + 1) mod 2 ^ 32).

Section WithKey.

Variable rks : list AES.state.

Definition E (block : N) : bytes := AES.encrypt_block rks (N_to_be 16 block).

Definition hash_subkey : N := be_to_N (E 0).

Definition J0 (iv : bytes) : N :=
  if (length iv =? 12)%nat then be_to_N (iv ++ [x00; x00; x00; x01])
  else ghash hash_subkey (pad16 iv ++ zeros 8 ++ len64 iv).

(** The key stream of [n] counter blocks starting at [cb]. *)
Fixpoint keystream (n : nat) (cb : N) : bytes :=
  match n with
  | O => []
  | S n' => E cb ++ keystream n' (inc32 cb)
  end.

(** GCTR: the data xor-ed with as much of the key stream as it is long. *)
Definition gctr (icb : N) (data : bytes) : bytes :=
  xor_bytes data (keystream ((length data + 15) / 16) icb).

Definition tag (iv aad c : bytes) : bytes :=
  let s := ghash hash_subkey (pad16 aad ++ pad16 c ++ len64 aad ++ len64 c) in
  gctr (J0 iv) (N_to_be 16 s).

Definition seal (iv aad p : bytes) : bytes :=
  let c := gctr (inc32 (J0 iv)) p in
  c ++ tag iv aad c.

End WithKey.

End GCM.

(** ** JavaScript strings and thrown errors *)

(** A string is its sequence of UTF-16 code units (numbers below 2^16). *)
Definition jsstring := list N.

(** An ASCII literal as a JavaScript string. *)
Definition js (s : string) : jsstring := map N_of_ascii (list_ascii_of_string s).

(** The exceptions that reach the callers of the module. *)
Inductive JsError :=
| CryptoUnavailableError   (* Error('Web Crypto API not available') *)
| SyntaxError              (* JSON.parse *)
| TypeError                (* property read on null *)
| InvalidCharacterError    (* DOMException of atob / btoa *)
| OperationError           (* DOMException of crypto.subtle.decrypt / deriveKey *)
| DataError.               (* DOMException of crypto.subtle.importKey *)

Inductive result (A : Type) :=
| Ok (a : A)
| Throw (e : JsError).
Arguments Ok {A} a.
Arguments Throw {A} e.

Definition rbind {A B} (r : result A) (f : A -> result B) : result B :=
  match r with
  | Ok a => f a
  | Throw e => Throw e
  end.

(** The error kinds of the specification's error design (section 7). *)
Inductive ErrorKind := CryptoUnavailable | MalformedEnvelope | AuthenticationFailed.

(** Modelled from the spec: the module has no error types of its own; section
    7 sorts the failures by the stage they come from.  A [DataError] (a key of
    a wrong length) belongs to none of the three kinds. *)
Definition error_kind (e : JsError) : option ErrorKind :=
  match e with
  | CryptoUnavailableError => Some CryptoUnavailable
  | SyntaxError | TypeError | InvalidCharacterError => Some MalformedEnvelope
  | OperationError => Some AuthenticationFailed
  | DataError => None
  end.

(** ** [TextEncoder.prototype.encode]: UTF-8 of the string's scalar values,
    every unpaired surrogate replaced by U+FFFD *)

Module TextEncoder.

Definition is_high (c : N) : bool := (0xD800 <=? c) && (c <=? 0xDBFF).
Definition is_low (c : N) : bool := (0xDC00 <=? c) && (c <=? 0xDFFF).

Definition replacement : bytes := [xef; xbf; xbd].

Definition utf8 (cp : N) : bytes :=
  if cp <? 0x80 then [byte_of_N cp]
  else if cp <? 0x800 then
    [byte_of_N (0xC0 + cp / 64); byte_of_N (0x80 + cp mod 64)]
  else if cp <? 0x10000 then
    [byte_of_N (0xE0 + cp / 4096); byte_of_N (0x80 + (cp / 64) mod 64);
     byte_of_N (0x80 + cp mod 64)]
  else
    [byte_of_N (0xF0 + cp / 262144); byte_of_N (0x80 + (cp / 4096) mod 64);
     byte_of_N (0x80 + (cp / 64) mod 64); byte_of_N (0x80 + cp mod 64)].

Fixpoint encode (s : jsstring) : bytes :=
  match s with
  | [] => []
  | c :: rest =>
      if is_high c then
        match rest with
        | d :: rest' =>
            if is_low d
            then utf8 (0x10000 + (c - 0xD800) * 1024 + (d - 0xDC00)) ++ encode rest'
            else replacement ++ encode rest
        | [] => replacement
        end
      else if is_low c then replacement ++ encode rest
      else utf8 c ++ encode rest
  end.

End TextEncoder.

(** ** [btoa] and [atob] (HTML standard; forgiving-base64 decode) *)

Module Base64.

Definition pad_char : N := 61.

Definition char_of (n : N) : N :=
  if n <? 26 then 65 + n
  else if n <? 52 then 97 + (n - 26)
  else if n <? 62 then 48 + (n - 52)
  else if n =? 62 then 43
  else 47.

Definition value_of (c : N) : option N :=
  if (65 <=? c) && (c <=? 90) then Some (c - 65)
  else if (97 <=? c) && (c <=? 122) then Some (c - 97 + 26)
  else if (48 <=? c) && (c <=? 57) then Some (c - 48 + 52)
  else if c =? 43 then Some 62
  else if c =? 47 then Some 63
  else None.

Fixpoint encode (l : list N) : list N :=
  match l with
  | [] => []
  | [a] => [char_of (a / 4); char_of ((a mod 4) * 16); pad_char; pad_char]
  | [a; b] =>
      [char_of (a / 4); char_of ((a mod 4) * 16 + b / 16);
       char_of ((b mod 16) * 4); pad_char]
  | a :: b :: c :: rest =>
      char_of (a / 4) :: char_of ((a mod 4) * 16 + b / 16)
      :: char_of ((b mod 16) * 4 + c / 64) :: char_of (c mod 64)
      :: encode rest
  end.

(** [btoa]: the argument must be a binary string (every unit at most 255). *)
Definition btoa (s : jsstring) : result jsstring :=
  if forallb (fun c => c <=? 255) s then Ok (encode s)
  else Throw InvalidCharacterError.

Definition is_ascii_whitespace (c : N) : bool :=
  (c =? 9) || (c =? 10) || (c =? 12) || (c =? 13) || (c =? 32).

(** One or two trailing [=] are dropped when the length is a multiple of 4. *)
Definition strip_padding (s : list N) : list N :=
  if (length s mod 4 =? 0)%nat then
    match rev s with
    | p :: q :: r =>
        if p =? pad_char then
          if q =? pad_char then rev r else rev (q :: r)
        else s
    | _ => s
    end
  else s.

Fixpoint values (s : list N) : option (list N) :=
  match s with
  | [] => Some []
  | c :: r =>
      match value_of c, values r with
      | Some v, Some vs => Some (v :: vs)
      | _, _ => None
      end
  end.

(** Four sextets make three bytes; a final group of two or three sextets
    makes one or two bytes, its left-over bits dropped. *)
Fixpoint decode (l : list N) : list N :=
  match l with
  | a :: b :: c :: d :: rest =>
      (a * 4 + b / 16) :: ((b mod 16) * 16 + c / 4) :: ((c mod 4) * 64 + d)
      :: decode rest
  | [a; b; c] => [a * 4 + b / 16; (b mod 16) * 16 + c / 4]
  | [a; b] => [a * 4 + b / 16]
  | _ => []
  end.

Definition atob (s : jsstring) : result jsstring :=
  let data := strip_padding (filter (fun c => negb (is_ascii_whitespace c)) s) in
  if (length data mod 4 =? 1)%nat then Throw InvalidCharacterError
  else
    match values data with
    | Some vs => Ok (decode vs)
    | None => Throw InvalidCharacterError
    end.

End Base64.

(** ** JSON values, [JSON.parse] and [JSON.stringify] (ECMA-262, clause 25.5) *)

Module JSON.

#[local] Set Warnings "-register-all".

(** A number keeps the text of its literal. *)
Inductive value :=
| JNull
| JBool (b : bool)
| JNumber (literal : jsstring)
| JString (s : jsstring)
| JArray (elements : list value)
| JObject (members : list (jsstring * value)).

Definition is_ws (c : N) : bool :=
  (c =? 9) || (c =? 10) || (c =? 13) || (c =? 32).

Fixpoint skip_ws (s : list N) : list N :=
  match s with
  | c :: r => if is_ws c then skip_ws r else s
  | [] => []
  end.

Definition is_digit (c : N) : bool := (48 <=? c) && (c <=? 57).

Definition hex_value (c : N) : option N :=
  if is_digit c then Some (c - 48)
  else if (97 <=? c) && (c <=? 102) then Some (c - 87)
  else if (65 <=? c) && (c <=? 70) then Some (c - 55)
  else None.

Definition simple_escape (c : N) : option N :=
  if c =? 34 then Some 34          (* quotation mark *)
  else if c =? 92 then Some 92     (* reverse solidus *)
  else if c =? 47 then Some 47     (* solidus *)
  else if c =? 98 then Some 8      (* b *)
  else if c =? 102 then Some 12    (* f *)
  else if c =? 110 then Some 10    (* n *)
  else if c =? 114 then Some 13    (* r *)
  else if c =? 116 then Some 9     (* t *)
  else None.

(** The characters of a string literal after its opening quotation mark. *)
Fixpoint parse_string (s : list N) : option (jsstring * list N) :=
  match s with
  | [] => None
  | c :: r =>
      if c =? 34 then Some ([], r)
      else if c =? 92 then
        match r with
        | e :: r1 =>
            match simple_escape e with
            | Some u =>
                match parse_string r1 with
                | Some (str, r') => Some (u :: str, r')
                | None => None
                end
            | None =>
                if e =? 117 then
                  match r1 with
                  | h1 :: h2 :: h3 :: h4 :: r2 =>
                      match hex_value h1, hex_value h2, hex_value h3, hex_value h4 with
                      | Some a, Some b, Some c', Some d =>
                          match parse_string r2 with
                          | Some (str, r') =>
                              Some (((a * 16 + b) * 16 + c') * 16 + d :: str, r')
                          | None => None
                          end
                      | _, _, _, _ => None
                      end
                  | _ => None
                  end
                else None
            end
        | [] => None
        end
      else if c <? 32 then None
      else
        match parse_string r with
        | Some (str, r') => Some (c :: str, r')
        | None => None
        end
  end.

Fixpoint span_digits (s : list N) : list N * list N :=
  match s with
  | c :: r =>
      if is_digit c then let '(ds, r') := span_digits r in (c :: ds, r')
      else ([], s)
  | [] => ([], [])
  end.

(** A number: - ? ( 0 | [1-9][0-9]* ) ( . [0-9]+ )? ( [eE] [+-]? [0-9]+ )?
    Each part returns what it read and the rest of the text. *)
Definition opt_char (p : N -> bool) (s : list N) : list N * list N :=
  match s with
  | c :: r => if p c then ([c], r) else ([], s)
  | [] => ([], s)
  end.

Definition digits1 (s : list N) : option (list N * list N) :=
  match span_digits s with
  | ([], _) => None
  | (ds, r) => Some (ds, r)
  end.

Definition int_part (s : list N) : option (list N * list N) :=
  match s with
  | c :: r =>
      if c =? 48 then Some ([c], r)
      else if is_digit c then
        let '(ds, r') := span_digits r in Some (c :: ds, r')
      else None
  | [] => None
  end.

Definition frac_part (s : list N) : option (list N * list N) :=
  match s with
  | c :: r =>
      if c =? 46 then
        match digits1 r with
        | Some (ds, r') => Some (c :: ds, r')
        | None => None
        end
      else Some ([], s)
  | [] => Some ([], s)
  end.

Definition exp_part (s : list N) : option (list N * list N) :=
  match s with
  | c :: r =>
      if (c =? 101) || (c =? 69) then
        let '(sg, r1) := opt_char (fun g => (g =? 43) || (g =? 45)) r in
        match digits1 r1 with
        | Some (ds, r') => Some (c :: sg ++ ds, r')
        | None => None
        end
      else Some ([], s)
  | [] => Some ([], s)
  end.

Definition parse_number (s : list N) : option (jsstring * list N) :=
  let '(sign, s1) := opt_char (fun c => c =? 45) s in
  match int_part s1 with
  | None => None
  | Some (ip, s2) =>
      match frac_part s2 with
      | None => None
      | Some (fp, s3) =>
          match exp_part s3 with
          | None => None
          | Some (ep, s4) => Some (sign ++ ip ++ fp ++ ep, s4)
          end
      end
  end.

Definition starts_with (p s : list N) : option (list N) :=
  if forallb (fun xy => fst xy =? snd xy) (combine p (firstn (length p) s))
     && (length p <=? length s)%nat
  then Some (skipn (length p) s) else None.

(** A value, then the rest of the text.  Every recursive call spends one unit
    of [fuel]; twice the length of the text is never used up. *)
Fixpoint parse_value (fuel : nat) (s : list N) : option (value * list N) :=
  match fuel with
  | O => None
  | S f =>
      match skip_ws s with
      | [] => None
      | c :: r =>
          if c =? 34 then
            match parse_string r with
            | Some (str, r') => Some (JString str, r')
            | None => None
            end
          else if c =? 91 then
            match skip_ws r with
            | d :: r' =>
                if d =? 93 then Some (JArray [], r')
                else parse_elements f r
            | [] => None
            end
          else if c =? 123 then
            match skip_ws r with
            | d :: r' =>
                if d =? 125 then Some (JObject [], r')
                else parse_members f r
            | [] => None
            end
          else
            match starts_with (js "true") (c :: r),
                  starts_with (js "false") (c :: r),
                  starts_with (js "null") (c :: r) with
            | Some r', _, _ => Some (JBool true, r')
            | _, Some r', _ => Some (JBool false, r')
            | _, _, Some r' => Some (JNull, r')
            | _, _, _ =>
                match parse_number (c :: r) with
                | Some (lit, r') => Some (JNumber lit, r')
                | None => None
                end
            end
      end
  end
with parse_elements (fuel : nat) (s : list N) : option (value * list N) :=
  match fuel with
  | O => None
  | S f =>
      match parse_value f s with
      | Some (v, r) =>
          match skip_ws r with
          | d :: r' =>
              if d =? 44 then
                match parse_elements f r' with
                | Some (JArray vs, r'') => Some (JArray (v :: vs), r'')
                | _ => None
                end
              else if d =? 93 then Some (JArray [v], r')
              else None
          | [] => None
          end
      | None => None
      end
  end
with parse_members (fuel : nat) (s : list N) : option (value * list N) :=
  match fuel with
  | O => None
  | S f =>
      match skip_ws s with
      | q :: r0 =>
          if q =? 34 then
            match parse_string r0 with
            | Some (k, r1) =>
                match skip_ws r1 with
                | col :: r2 =>
                    if col =? 58 then
                      match parse_value f r2 with
                      | Some (v, r3) =>
                          match skip_ws r3 with
                          | d :: r4 =>
                              if d =? 44 then
                                match parse_members f r4 with
                                | Some (JObject ms, r5) =>
                                    Some (JObject ((k, v) :: ms), r5)
                                | _ => None
                                end
                              else if d =? 125 then Some (JObject [(k, v)], r4)
                              else None
                          | [] => None
                          end
                      | None => None
                      end
                    else None
                | [] => None
                end
            | None => None
            end
          else None
      | [] => None
      end
  end.

(** [JSON.parse] without a reviver: one value, surrounded by white space. *)
Definition parse (text : jsstring) : result value :=
  match parse_value (2 * length text + 2) text with
  | Some (v, r) =>
      match skip_ws r with
      | [] => Ok v
      | _ => Throw SyntaxError
      end
  | None => Throw SyntaxError
  end.

Definition hex_char (n : N) : N := if n <? 10 then 48 + n else 87 + n.

Definition unicode_escape (c : N) : jsstring :=
  [92; 117; hex_char (c / 4096 mod 16); hex_char (c / 256 mod 16);
   hex_char (c / 16 mod 16); hex_char (c mod 16)].

Definition quote_unit (c : N) : jsstring :=
  if c =? 8 then [92; 98]
  else if c =? 9 then [92; 116]
  else if c =? 10 then [92; 110]
  else if c =? 12 then [92; 102]
  else if c =? 13 then [92; 114]
  else if c =? 34 then [92; 34]
  else if c =? 92 then [92; 92]
  else if c <? 32 then unicode_escape c
  else [c].

(** The characters of QuoteJSONString between the quotation marks: unpaired
    surrogates are escaped, pairs are kept. *)
Fixpoint quote_body (s : jsstring) : jsstring :=
  match s with
  | [] => []
  | c :: rest =>
      if TextEncoder.is_high c then
        match rest with
        | d :: rest' =>
            if TextEncoder.is_low d then c :: d :: quote_body rest'
            else unicode_escape c ++ quote_body rest
        | [] => unicode_escape c
        end
      else if TextEncoder.is_low c then unicode_escape c ++ quote_body rest
      else quote_unit c ++ quote_body rest
  end.

Definition quote (s : jsstring) : jsstring := [34] ++ quote_body s ++ [34].

(** The value of the last member named [name], as property creation in
    [JSON.parse] overwrites earlier members of the same name. *)
Fixpoint lookup (name : jsstring) (ms : list (jsstring * value)) : option value :=
  match ms with
  | [] => None
  | (k, v) :: rest =>
      match lookup name rest with
      | Some v' => Some v'
      | None => if list_eq_dec N.eq_dec k name then Some v else None
      end
  end.

End JSON.

(** ** The secure random source and the effects of the module *)

(** [crypto.getRandomValues] reads from a tape of random bytes; drawing [n]
    bytes moves the tape on by [n]. *)
Definition Entropy := nat -> byte.

(** A computation may draw random bytes and may throw. *)
Definition M (A : Type) := Entropy -> result (A * Entropy).

Definition ret {A} (a : A) : M A := fun e => Ok (a, e).
Definition throw {A} (err : JsError) : M A := fun _ => Throw err.
Definition lift {A} (r : result A) : M A :=
  fun e => match r with Ok a => Ok (a, e) | Throw err => Throw err end.
Definition bind {A B} (m : M A) (f : A -> M B) : M B :=
  fun e => match m e with
           | Ok (a, e') => f a e'
           | Throw err => Throw err
           end.

Notation "x <- m ;; k" := (bind m (fun x => k))
  (at level 61, m at next level, right associativity).

(** The first [n] bytes of the tape, and the tape after them. *)
Definition take (n : nat) (e : Entropy) : bytes := map e (seq 0 n).
Definition shift (n : nat) (e : Entropy) : Entropy := fun i => e (n + i)%nat.

Definition getRandomValues (n : nat) : M bytes :=
  fun e => Ok (take n e, shift n e).

(** The value a computation returns, its effect on the tape left out. *)
Definition outcome {A} (r : result (A * Entropy)) : result A :=
  match r with
  | Ok (a, _) => Ok a
  | Throw err => Throw err
  end.

Fixpoint bytes_eqb (a b : bytes) : bool :=
  match a, b with
  | [], [] => true
  | x :: a', y :: b' => Byte.eqb x y && bytes_eqb a' b'
  | _, _ => false
  end.

(** ** [crypto.subtle] (Web Cryptography API) as the module uses it *)

Module Subtle.

(** [importKey('raw', key, 'AES-GCM', ...)]: the key must have 128, 192 or
    256 bits. *)
Definition importKey_AES (key : bytes) : result (list AES.state) :=
  match AES.key_schedule key with
  | Some rks => Ok rks
  | None => Throw DataError
  end.

(** [deriveKey] with PBKDF2 parameters for an AES key of [len] bits, followed
    by [exportKey('raw', ...)]: the derived bits themselves. *)
Definition deriveKey_PBKDF2 (password salt : bytes) (iterations len : N)
  : result bytes :=
  if negb ((len =? 128) || (len =? 192) || (len =? 256)) then Throw OperationError
  else if iterations =? 0 then Throw OperationError
  else Ok (PBKDF2.derive password salt iterations (N.to_nat (len / 8))).

(** [encrypt({name: 'AES-GCM', iv}, key, data)]: no additional data, 128-bit
    tag appended to the ciphertext.  (The size limits of GCM, 2^39 - 256
    bytes of data, lie beyond any typed array and are not represented.) *)
Definition encrypt_AES_GCM (rks : list AES.state) (iv data : bytes) : result bytes :=
  if (length iv =? 0)%nat then Throw OperationError
  else Ok (GCM.seal rks iv [] data).

(** [decrypt({name: 'AES-GCM', iv}, key, data)]: the last 16 bytes are the
    tag; the plaintext is released only when the tag verifies. *)
Definition decrypt_AES_GCM (rks : list AES.state) (iv data : bytes) : result bytes :=
  if (length iv =? 0)%nat then Throw OperationError
  else if (length data <? 16)%nat then Throw OperationError
  else
    let c := firstn (length data - 16) data in
    let t := skipn (length data - 16) data in
    if bytes_eqb (GCM.tag rks iv [] c) t
    then Ok (GCM.gctr rks (GCM.inc32 (GCM.J0 rks iv)) c)
    else Throw OperationError.

End Subtle.

(** ** The module [crypto-utils.ts] *)

(** [globalThis.crypto], when there is one; its [subtle] member may be missing. *)
Record CryptoObject := { subtle : bool }.

Record EncryptedData :=
  { ciphertext : bytes; nonce : bytes; salt : bytes }.

Record EncryptedDataBase64 :=
  { ciphertext64 : jsstring; nonce64 : jsstring; salt64 : jsstring }.

(** The result of [deriveKey]: [{ key, salt }]. *)
Record DerivedKey := { key : bytes; usedSalt : bytes }.

(** [string | Uint8Array] *)
Inductive Plaintext :=
| Text (s : jsstring)
| Binary (b : bytes).

(** The constants of the module.  [ALGORITHM] ('PBKDF2') and [HASH]
    ('SHA-256') are names handed to [crypto.subtle]; they select
    [PBKDF2.derive] and [SHA256.hash] in [Subtle.deriveKey_PBKDF2]. *)
Definition KEY_LENGTH : N := 32.
Definition ITERATIONS : N := 100000.
Definition NONCE_LENGTH : nat := 24.
Definition SALT_LENGTH : nat := 16.

Section CryptoUtils.

(** The module-level constant [crypto]: [globalThis.crypto] or [null]. *)
Variable crypto : option CryptoObject.

(** Number::toString of the runtime, from the text of a JSON number. *)
Variable number_to_string : jsstring -> jsstring.

(** [crypto?.subtle] is there. *)
Definition has_subtle : bool :=
  match crypto with
  | Some c => subtle c
  | None => false
  end.

Definition deriveKey (password : jsstring) (salt : option bytes) : M DerivedKey :=
  if negb has_subtle then throw CryptoUnavailableError
  else
    usedSalt <- match salt with
                | Some s => ret s
                | None => getRandomValues SALT_LENGTH
                end ;;
    let passwordData := TextEncoder.encode password in
    if negb has_subtle then throw CryptoUnavailableError
    else
      keyBytes <- lift (Subtle.deriveKey_PBKDF2 passwordData usedSalt
                          ITERATIONS (KEY_LENGTH * 8)) ;;
      ret {| key := keyBytes; usedSalt := usedSalt |}.

Definition secretBox (plaintext key : bytes) (nonce : option bytes) : M bytes :=
  if negb has_subtle then throw CryptoUnavailableError
  else
    usedNonce <- match nonce with
                 | Some n => ret n
                 | None => getRandomValues NONCE_LENGTH
                 end ;;
    let iv := firstn 12 usedNonce in
    cryptoKey <- lift (Subtle.importKey_AES key) ;;
    ciphertext <- lift (Subtle.encrypt_AES_GCM cryptoKey iv plaintext) ;;
    ret (usedNonce ++ ciphertext).

Definition secretBoxOpen (ciphertext key : bytes) : result bytes :=
  let nonce := firstn NONCE_LENGTH ciphertext in
  let encrypted := skipn NONCE_LENGTH ciphertext in
  if negb has_subtle then Throw CryptoUnavailableError
  else
    let iv := firstn 12 nonce in
    rbind (Subtle.importKey_AES key) (fun cryptoKey =>
    Subtle.decrypt_AES_GCM cryptoKey iv encrypted).

Definition plaintext_bytes (plaintext : Plaintext) : bytes :=
  match plaintext with
  | Text s => TextEncoder.encode s
  | Binary b => b
  end.

Definition encrypt (plaintext : Plaintext) (password : jsstring) : M EncryptedData :=
  match crypto with
  | None => throw CryptoUnavailableError
  | Some _ =>
      let data := plaintext_bytes plaintext in
      dk <- deriveKey password None ;;
      nonce <- getRandomValues NONCE_LENGTH ;;
      secretBoxed <- secretBox data (key dk) (Some nonce) ;;
      let ciphertext := skipn NONCE_LENGTH secretBoxed in
      ret {| ciphertext := ciphertext; nonce := nonce; salt := usedSalt dk |}
  end.

Definition decrypt (encryptedData : EncryptedData) (password : jsstring) : M bytes :=
  dk <- deriveKey password (Some (salt encryptedData)) ;;
  let toDecrypt := nonce encryptedData ++ ciphertext encryptedData in
  lift (secretBoxOpen toDecrypt (key dk)).

(** [String.fromCharCode] of every byte, then [btoa]. *)
Definition arrayToBase64 (arr : bytes) : result jsstring :=
  Base64.btoa (map Byte.to_N arr).

Definition encryptedDataToBase64 (data : EncryptedData) : result EncryptedDataBase64 :=
  rbind (arrayToBase64 (ciphertext data)) (fun c =>
  rbind (arrayToBase64 (nonce data)) (fun n =>
  rbind (arrayToBase64 (salt data)) (fun s =>
  Ok {| ciphertext64 := c; nonce64 := n; salt64 := s |}))).

(** [charCodeAt] of every unit, stored into a [Uint8Array]. *)
Definition stringToBytes (s : jsstring) : bytes := map byte_of_N s.

(** Reading a property that no prototype defines: [undefined] ([None]) on
    anything but an object that has it, a [TypeError] on [null]. *)
Definition get (v : JSON.value) (name : jsstring) : result (option JSON.value) :=
  match v with
  | JSON.JNull => Throw TypeError
  | JSON.JObject ms => Ok (JSON.lookup name ms)
  | _ => Ok None
  end.

Definition join_with (sep : jsstring) (parts : list jsstring) : jsstring :=
  match parts with
  | [] => []
  | p :: ps => p ++ flat_map (fun q => sep ++ q) ps
  end.

(** ToString, as applied to the argument of [atob]. *)
Fixpoint ToString (v : JSON.value) : jsstring :=
  match v with
  | JSON.JNull => js "null"
  | JSON.JBool true => js "true"
  | JSON.JBool false => js "false"
  | JSON.JNumber lit => number_to_string lit
  | JSON.JString s => s
  | JSON.JArray vs =>
      join_with (js ",")
        (map (fun x => match x with JSON.JNull => [] | _ => ToString x end) vs)
  | JSON.JObject _ => js "[object Object]"
  end.

Definition ToString_opt (v : option JSON.value) : jsstring :=
  match v with
  | Some x => ToString x
  | None => js "undefined"
  end.

Definition decode_field (data : JSON.value) (name : jsstring) : result bytes :=
  rbind (get data name) (fun v =>
  rbind (Base64.atob (ToString_opt v)) (fun s =>
  Ok (stringToBytes s))).

Definition base64ToEncryptedData (data : JSON.value) : result EncryptedData :=
  rbind (decode_field data (js "ciphertext")) (fun c =>
  rbind (decode_field data (js "nonce")) (fun n =>
  rbind (decode_field data (js "salt")) (fun s =>
  Ok {| ciphertext := c; nonce := n; salt := s |}))).

(** An [EncryptedDataBase64] as the object it is at run time. *)
Definition object_of (d : EncryptedDataBase64) : JSON.value :=
  JSON.JObject [(js "ciphertext", JSON.JString (ciphertext64 d));
                (js "nonce", JSON.JString (nonce64 d));
                (js "salt", JSON.JString (salt64 d))].

(** [JSON.stringify] of an [EncryptedDataBase64]: its three string
    properties in the order of their creation, no white space. *)
Definition JSON_stringify (d : EncryptedDataBase64) : jsstring :=
  [123] ++ JSON.quote (js "ciphertext") ++ [58] ++ JSON.quote (ciphertext64 d)
  ++ [44] ++ JSON.quote (js "nonce") ++ [58] ++ JSON.quote (nonce64 d)
  ++ [44] ++ JSON.quote (js "salt") ++ [58] ++ JSON.quote (salt64 d)
  ++ [125].

Definition encryptToJSON (plaintext : Plaintext) (password : jsstring) : M jsstring :=
  encrypted <- encrypt plaintext password ;;
  base64 <- lift (encryptedDataToBase64 encrypted) ;;
  ret (JSON_stringify base64).

Definition decryptFromJSON (jsonString password : jsstring) : M jsstring :=
  parsed <- lift (JSON.parse jsonString) ;;
  encrypted <- lift (base64ToEncryptedData parsed) ;;
  decrypted <- decrypt encrypted password ;;
  ret (map Byte.to_N decrypted).

End CryptoUtils.

(** The key that [deriveKey] computes from a password and a salt. *)
Definition derived_key (password : jsstring) (salt : bytes) : bytes :=
  PBKDF2.derive (TextEncoder.encode password) salt ITERATIONS 32.

(** The envelope that [encrypt] assembles from the plaintext bytes, the round
    keys of the derived key and the random bytes it drew. *)
Definition sealed (rks : list AES.state) (data salt nonce : bytes) : EncryptedData :=
  {| ciphertext := GCM.seal rks (firstn 12 nonce) [] data;
     nonce := nonce;
     salt := salt |}.

(** The 6-bit groups that [Base64.encode] writes as letters, and the padding
    it adds after them. *)
Fixpoint sextets (l : list N) : list N :=
  match l with
  | [] => []
  | [a] => [a / 4; (a mod 4) * 16]
  | [a; b] => [a / 4; (a mod 4) * 16 + b / 16; (b mod 16) * 4]
  | a :: b :: c :: rest =>
      a / 4 :: (a mod 4) * 16 + b / 16 :: (b mod 16) * 4 + c / 64 :: c mod 64
      :: sextets rest
  end.

Fixpoint padding_of (l : list N) : list N :=
  match l with
  | [] => []
  | [_] => [Base64.pad_char; Base64.pad_char]
  | [_; _] => [Base64.pad_char]
  | _ :: _ :: _ :: rest => padding_of rest
  end.

(** A code unit that [JSON.quote] writes as itself and that is read back as
    itself inside a string literal. *)
Definition plain_unit (c : N) : bool :=
  (32 <=? c) && negb (c =? 34) && negb (c =? 92) && (c <? 0xD800).

(** The base64 form that [encryptedDataToBase64] gives to an envelope. *)
Definition base64_of (data : EncryptedData) : EncryptedDataBase64 :=
  {| ciphertext64 := Base64.encode (map Byte.to_N (ciphertext data));
     nonce64 := Base64.encode (map Byte.to_N (nonce data));
     salt64 := Base64.encode (map Byte.to_N (salt data)) |}.

(** The first two statements of [decryptFromJSON]: from the stored text to an
    envelope (the [parse] of the specification). *)
Definition parse_envelope (number_to_string : jsstring -> jsstring)
                          (text : jsstring) : result EncryptedData :=
  rbind (JSON.parse text) (base64ToEncryptedData number_to_string).









(** Stored texts used as examples.  The quotation mark is unit 34. *)
Definition quoted (s : string) : jsstring := [34%N] ++ js s ++ [34%N].

(** [{}] *)
Definition text_empty_object : jsstring := js "{}".

(** [{"ciphertext":null}] *)
Definition text_only_null_ciphertext : jsstring :=
  js "{" ++ quoted "ciphertext" ++ js ":null}".

(** The three fields present, [ciphertext] being [null], the nonce 24 zero
    bytes and the salt 16 zero bytes in base64. *)
Definition text_null_ciphertext : jsstring :=
  js "{" ++ quoted "ciphertext" ++ js ":null,"
     ++ quoted "nonce" ++ js ":" ++ quoted "AAAAAAAAAAAAAAAAAAAAAAAAAAAAAAAA" ++ js ","
     ++ quoted "salt" ++ js ":" ++ quoted "AAAAAAAAAAAAAAAAAAAAAA==" ++ js "}".

(** Reading a hexadecimal string as bytes, for test vectors. *)
Definition hex_digit (a : ascii) : N :=
  let n := N_of_ascii a in
  if (48 <=? n) && (n <=? 57) then n - 48
  else if (97 <=? n) && (n <=? 102) then n - 87
  else if (65 <=? n) && (n <=? 70) then n - 55
  else 0.

Fixpoint hex (s : string) : bytes :=
  match s with
  | String a (String b rest) =>
      byte_of_N (16 * hex_digit a + hex_digit b) :: hex rest
  | _ => []
  end.

Definition ascii_bytes (s : string) : bytes :=
  map (fun a => byte_of_N (N_of_ascii a)) (list_ascii_of_string s).

(** One block under a raw key, and sealing under a raw key, for test vectors. *)
Definition aes_ecb (key block : bytes) : option bytes :=
  option_map (fun rks => AES.encrypt_block rks block) (AES.key_schedule key).

Definition gcm_seal (key iv aad p : bytes) : option bytes :=
  option_map (fun rks => GCM.seal rks iv aad p) (AES.key_schedule key).

(** ** Stored texts and fields met in the further properties *)

(** The three fields present, each the empty string. *)
Definition text_empty_fields : jsstring :=
  js "{" ++ quoted "ciphertext" ++ js ":" ++ [34; 34] ++ js ","
     ++ quoted "nonce" ++ js ":" ++ [34; 34] ++ js ","
     ++ quoted "salt" ++ js ":" ++ [34; 34] ++ js "}".

(** A field as [atob] reads it: ASCII white space taken out. *)
Definition without_whitespace (s : jsstring) : jsstring :=
  filter (fun c => negb (Base64.is_ascii_whitespace c)) s.

(** The base64 letters of a byte sequence without the padding. *)
Definition unpadded (b : bytes) : jsstring :=
  map Base64.char_of (sextets (map Byte.to_N b)).

(** [s] is a base64 text of [b] in the sense of [atob]: white space
    anywhere, and the padding there or left out. *)
Definition lenient_base64 (s : jsstring) (b : bytes) : Prop :=
  without_whitespace s = Base64.encode (map Byte.to_N b)
  \/ without_whitespace s = unpadded b.

(** The text of an envelope with white space at the places where JSON allows
    it, the way pretty-printers lay it out: [w i] is what stands at the i-th
    place. *)
Definition JSON_spaced (w : nat -> jsstring) (d : EncryptedDataBase64) : jsstring :=
  w 0%nat ++ [123] ++ w 1%nat ++ JSON.quote (js "ciphertext") ++ w 2%nat ++ [58]
  ++ w 3%nat ++ JSON.quote (ciphertext64 d) ++ w 4%nat
  ++ [44] ++ w 5%nat ++ JSON.quote (js "nonce") ++ w 6%nat ++ [58]
  ++ w 7%nat ++ JSON.quote (nonce64 d) ++ w 8%nat
  ++ [44] ++ w 9%nat ++ JSON.quote (js "salt") ++ w 10%nat ++ [58]
  ++ w 11%nat ++ JSON.quote (salt64 d) ++ w 12%nat
  ++ [125] ++ w 13%nat.

(** The layout of [JSON.stringify(value, null, 2)]. *)
Definition indent2 (i : nat) : jsstring :=
  match i with
  | 1%nat | 5%nat | 9%nat => [10; 32; 32]
  | 3%nat | 7%nat | 11%nat => [32]
  | 12%nat => [10]
  | _ => []
  end.

(** ** Methods of [String.prototype] and [Array.prototype] that the callers
    of the module use *)

Module JsString.

Definition eqb (a b : jsstring) : bool :=
  if list_eq_dec N.eq_dec a b then true else false.

(** [s.split(sep)] for a separator of one code unit: the pieces between the
    separators, of which there is always at least one. *)
Fixpoint split (sep : N) (s : jsstring) : list jsstring :=
  match s with
  | [] => [[]]
  | c :: r =>
      if c =? sep then [] :: split sep r
      else
        match split sep r with
        | p :: ps => (c :: p) :: ps
        | [] => [[c]]
        end
  end.

(** [parts.pop()]: the last element, [undefined] for an empty array. *)
Fixpoint pop {A} (l : list A) : option A :=
  match l with
  | [] => None
  | [x] => Some x
  | _ :: r => pop r
  end.

Fixpoint starts_with (p s : jsstring) : bool :=
  match p, s with
  | [], _ => true
  | a :: p', b :: s' => (a =? b) && starts_with p' s'
  | _ :: _, [] => false
  end.

(** [s.replace(pattern, replacement)] with a string pattern and a
    replacement that has no dollar sign: the first occurrence only. *)
Fixpoint replace (pattern replacement s : jsstring) : jsstring :=
  if starts_with pattern s then replacement ++ skipn (length pattern) s
  else
    match s with
    | [] => []
    | c :: r => c :: replace pattern replacement r
    end.

(** [s.includes(pattern)] *)
Fixpoint includes (pattern s : jsstring) : bool :=
  starts_with pattern s
  || match s with
     | [] => false
     | _ :: r => includes pattern r
     end.

(** WhiteSpace and LineTerminator of ECMA-262, which [trim] takes off. *)
Definition is_white_space (c : N) : bool :=
  (c =? 0x9) || (c =? 0xA) || (c =? 0xB) || (c =? 0xC) || (c =? 0xD)
  || (c =? 0x20) || (c =? 0xA0) || (c =? 0x1680)
  || ((0x2000 <=? c) && (c <=? 0x200A))
  || (c =? 0x2028) || (c =? 0x2029) || (c =? 0x202F) || (c =? 0x205F)
  || (c =? 0x3000) || (c =? 0xFEFF).

Fixpoint trimStart (s : jsstring) : jsstring :=
  match s with
  | c :: r => if is_white_space c then trimStart r else s
  | [] => []
  end.

Definition trim (s : jsstring) : jsstring := rev (trimStart (rev (trimStart s))).

(** [x || d] for [x] a string or [undefined]. *)
Definition or_else (x : option jsstring) (d : jsstring) : jsstring :=
  match x with
  | Some (c :: r) => c :: r
  | _ => d
  end.

End JsString.

(** ** The hook [use-decryption.ts] *)

Module UseDecryption.

(** What reading a property of the object literal [mimeTypes] gives: one of
    its own strings, or a member that every object inherits from
    [Object.prototype] (a function, or the prototype itself). *)
Inductive Member :=
| OwnString (s : jsstring)
| Inherited (name : jsstring).

Definition mimeTypes : list (jsstring * jsstring) :=
  [(js "pdf", js "application/pdf");
   (js "txt", js "text/plain");
   (js "md", js "text/markdown");
   (js "json", js "application/json");
   (js "png", js "image/png");
   (js "jpg", js "image/jpeg");
   (js "jpeg", js "image/jpeg");
   (js "gif", js "image/gif");
   (js "webp", js "image/webp");
   (js "mp3", js "audio/mpeg");
   (js "wav", js "audio/wav");
   (js "ogg", js "audio/ogg");
   (js "m4a", js "audio/mp4");
   (js "svg", js "image/svg+xml");
   (js "html", js "text/html");
   (js "css", js "text/css");
   (js "js", js "text/javascript")].

(** The property names of [Object.prototype]. *)
Definition Object_prototype : list jsstring :=
  [js "constructor"; js "hasOwnProperty"; js "isPrototypeOf";
   js "propertyIsEnumerable"; js "toLocaleString"; js "toString";
   js "valueOf"; js "__proto__"; js "__defineGetter__"; js "__defineSetter__";
   js "__lookupGetter__"; js "__lookupSetter__"].

Fixpoint own (name : jsstring) (o : list (jsstring * jsstring)) : option jsstring :=
  match o with
  | [] => None
  | (k, v) :: rest => if JsString.eqb k name then Some v else own name rest
  end.

(** [mimeTypes[ext]] *)
Definition mimeTypes_get (ext : jsstring) : option Member :=
  match own ext mimeTypes with
  | Some v => Some (OwnString v)
  | None =>
      if existsb (JsString.eqb ext) Object_prototype then Some (Inherited ext)
      else None
  end.

(** [m || d]: an empty string and [undefined] are falsy. *)
Definition member_or (m : option Member) (d : jsstring) : Member :=
  match m with
  | None | Some (OwnString []) => OwnString d
  | Some x => x
  end.

Record DecryptedFile :=
  { name : jsstring; path : jsstring; content : jsstring; mimeType : Member }.

(** A [Map] keeps its keys in the order of their first insertion. *)
Fixpoint Map_set {V} (k : jsstring) (v : V) (m : list (jsstring * V))
  : list (jsstring * V) :=
  match m with
  | [] => [(k, v)]
  | (k', v') :: rest =>
      if JsString.eqb k' k then (k', v) :: rest else (k', v') :: Map_set k v rest
  end.

Fixpoint Map_get {V} (k : jsstring) (m : list (jsstring * V)) : option V :=
  match m with
  | [] => None
  | (k', v') :: rest => if JsString.eqb k' k then Some v' else Map_get k rest
  end.

Record UseDecryptionState :=
  { isLoading : bool;
    error : option jsstring;
    password : jsstring;
    isAuthenticated : bool;
    decryptedFiles : list (jsstring * DecryptedFile) }.

(** The state that [useState] starts from, and that [reset] installs. *)
Definition initialState : UseDecryptionState :=
  {| isLoading := false; error := None; password := [];
     isAuthenticated := false; decryptedFiles := [] |}.

(** What [await fetch(path)] and [await response.text()] come to. *)
Inductive Body :=
| BodyText (text : jsstring)
| BodyRejected (message : jsstring).

Inductive Fetched :=
| Rejected (message : jsstring)
| Response (ok : bool) (statusText : jsstring) (body : Body).

(** What the [try] block of [decryptFile] can throw. *)
Inductive Exception :=
| Thrown (e : JsError)               (* by decryptFromJSON *)
| LoadError (statusText : jsstring)  (* new Error(`Failed to load ...`) *)
| FetchError (message : jsstring).   (* rejection of fetch or of text() *)

Section Hook.

Variable crypto : option CryptoObject.
Variable number_to_string : jsstring -> jsstring.

(** [String.prototype.toLowerCase] of the runtime. *)
Variable toLowerCase : jsstring -> jsstring.

(** The [message] of the exceptions of the platform, whose wording the
    runtime chooses. *)
Variable message_of : JsError -> jsstring.

Variable fetch : jsstring -> Fetched.

(** The argument of [useDecryption], which may be left out. *)
Variable correctPassword : option jsstring.

Definition verifyPassword (password : jsstring) : bool :=
  match correctPassword with
  | Some (c :: r) => JsString.eqb password (c :: r)
  | _ => true
  end.

Definition setPassword (password : jsstring) (prev : UseDecryptionState)
  : UseDecryptionState :=
  {| isLoading := isLoading prev;
     error := None;
     password := password;
     isAuthenticated := verifyPassword password;
     decryptedFiles := decryptedFiles prev |}.

Definition clearError (prev : UseDecryptionState) : UseDecryptionState :=
  {| isLoading := isLoading prev;
     error := None;
     password := password prev;
     isAuthenticated := isAuthenticated prev;
     decryptedFiles := decryptedFiles prev |}.

Definition reset (prev : UseDecryptionState) : UseDecryptionState := initialState.

Definition getMimeType (filename : jsstring) : Member :=
  let ext :=
    JsString.or_else
      (option_map toLowerCase (JsString.pop (JsString.split 46 filename))) [] in
  member_or (mimeTypes_get ext) (js "application/octet-stream").

(** The name under which [decryptFile] files what it decrypted. *)
Definition fileName_of (encryptedPath : jsstring) : jsstring :=
  JsString.or_else
    (option_map (JsString.replace (js ".enc") [])
                (JsString.pop (JsString.split 47 encryptedPath)))
    (js "file").

(** Every exception met here is an [Error]. *)
Definition instanceof_Error (err : Exception) : bool := true.

Definition message (err : Exception) : jsstring :=
  match err with
  | Thrown CryptoUnavailableError => js "Web Crypto API not available"
  | Thrown e => message_of e
  | LoadError statusText => js "Failed to load encrypted file: " ++ statusText
  | FetchError m => m
  end.

(** The [try] block: the file, or what was thrown. *)
Definition load (encryptedPath password : jsstring) (e : Entropy)
  : Exception + DecryptedFile :=
  match fetch encryptedPath with
  | Rejected m => inl (FetchError m)
  | Response ok statusText body =>
      if negb ok then inl (LoadError statusText)
      else
        match body with
        | BodyRejected m => inl (FetchError m)
        | BodyText jsonText =>
            match outcome (decryptFromJSON crypto number_to_string
                                           jsonText password e) with
            | Throw err => inl (Thrown err)
            | Ok decrypted =>
                let fileName := fileName_of encryptedPath in
                let mimeType := getMimeType fileName in
                inr {| name := fileName; path := encryptedPath;
                       content := decrypted; mimeType := mimeType |}
            end
        end
  end.

(** The first update of [decryptFile], before anything is fetched. *)
Definition loading (prev : UseDecryptionState) : UseDecryptionState :=
  {| isLoading := true;
     error := None;
     password := UseDecryption.password prev;
     isAuthenticated := isAuthenticated prev;
     decryptedFiles := decryptedFiles prev |}.

(** [decryptFile]: the state after its updates, and the file it resolves
    with or the exception it rejects with. *)
Definition decryptFile (encryptedPath password : jsstring) (e : Entropy)
                       (prev : UseDecryptionState)
  : UseDecryptionState * (Exception + DecryptedFile) :=
  let prev := loading prev in
  match load encryptedPath password e with
  | inr file =>
      ({| isLoading := false;
          error := error prev;
          password := UseDecryption.password prev;
          isAuthenticated := isAuthenticated prev;
          decryptedFiles := Map_set encryptedPath file (decryptedFiles prev) |},
       inr file)
  | inl err =>
      let errorMessage :=
        if instanceof_Error err then message err
        else js "Unknown decryption error" in
      ({| isLoading := false;
          error := Some errorMessage;
          password := UseDecryption.password prev;
          isAuthenticated := isAuthenticated prev;
          decryptedFiles := decryptedFiles prev |},
       inl err)
  end.

End Hook.

(** A file is filed as [decryptFile] files it: under its own path, named and
    typed after the path, its content a binary string. *)
Definition filed_as (toLowerCase : jsstring -> jsstring) (k : jsstring)
           (f : DecryptedFile) : Prop :=
  path f = k
  /\ name f = fileName_of k
  /\ mimeType f = getMimeType toLowerCase (fileName_of k)
  /\ Forall (fun c => c < 256) (content f).

(** What a component does with the hook, one call after the other; every
    [decryptFile] meets the network as it is at that time. *)
Inductive Action :=
| SetPassword (password : jsstring)
| DecryptFile (fetch : jsstring -> Fetched) (encryptedPath password : jsstring)
              (e : Entropy)
| ClearError
| Reset.

Section Calls.

Variable crypto : option CryptoObject.
Variable number_to_string : jsstring -> jsstring.
Variable toLowerCase : jsstring -> jsstring.
Variable message_of : JsError -> jsstring.
Variable correctPassword : option jsstring.

Definition step (a : Action) (st : UseDecryptionState) : UseDecryptionState :=
  match a with
  | SetPassword password => setPassword correctPassword password st
  | DecryptFile fetch encryptedPath password e =>
      fst (decryptFile crypto number_to_string toLowerCase message_of fetch
                       encryptedPath password e st)
  | ClearError => clearError st
  | Reset => reset st
  end.

Definition run (actions : list Action) : UseDecryptionState :=
  fold_left (fun st a => step a st) actions initialState.

End Calls.

End UseDecryption.

(** ** The component [password-gate.tsx] *)

Module PasswordGate.

(** [handleSubmit]: the password with which [onUnlock] is called, when it is
    called. *)
Definition handleSubmit (password : jsstring) : option jsstring :=
  match JsString.trim password with
  | [] => None
  | _ :: _ => Some password
  end.

End PasswordGate.

(** ** The component [file-browser.tsx] *)

Module FileBrowser.

(** The two constants of [FileListItem]: the name it lists a path under, and
    the extension it shows with it. *)
Definition fileName (filePath : jsstring) : jsstring :=
  JsString.or_else (JsString.pop (JsString.split 47 filePath)) filePath.


(** [handleFileSelect]: the hook's state after [decryptFile], and the file
    handed to [onFileDecrypted] when there is one; an exception is logged and
    goes no further.  The hook is used without a password to compare with. *)
Definition handleFileSelect crypto number_to_string toLowerCase message_of fetch
           (password filePath : jsstring) (e : Entropy)
           (st : UseDecryption.UseDecryptionState)
  : UseDecryption.UseDecryptionState * option UseDecryption.DecryptedFile :=
  match UseDecryption.decryptFile crypto number_to_string toLowerCase message_of
                                  fetch filePath password e st with
  | (st', inr file) => (st', Some file)
  | (st', inl _) => (st', None)
  end.

End FileBrowser.

(** ** The script [encrypt-files.js]: the text it stores *)

Module EncryptFiles.

(** What [encryptFile] returns: the ciphertext without the tag, a nonce of 12
    bytes, the salt, and the tag by itself. *)
Record Encrypted :=
  { ciphertext : bytes; nonce : bytes; salt : bytes; authTag : bytes }.

(** [buffer.toString('base64')] *)
Definition toString_base64 (b : bytes) : jsstring :=
  Base64.encode (map Byte.to_N b).

Definition encryptedToJSON (data : Encrypted) : jsstring :=
  [123] ++ JSON.quote (js "ciphertext")
        ++ [58] ++ JSON.quote (toString_base64 (ciphertext data))
  ++ [44] ++ JSON.quote (js "nonce")
        ++ [58] ++ JSON.quote (toString_base64 (nonce data))
  ++ [44] ++ JSON.quote (js "salt")
        ++ [58] ++ JSON.quote (toString_base64 (salt data))
  ++ [44] ++ JSON.quote (js "authTag")
        ++ [58] ++ JSON.quote (toString_base64 (authTag data))
  ++ [125].

(** A character that the dot of a regular expression does not match. *)
Definition is_line_terminator (c : N) : bool :=
  (c =? 0xA) || (c =? 0xD) || (c =? 0x2028) || (c =? 0x2029).

(** The longest run of characters that the dot matches. *)
Fixpoint dots (s : jsstring) : jsstring :=
  match s with
  | c :: r => if is_line_terminator c then [] else c :: dots r
  | [] => []
  end.

(** [envContent.match(/VITE_SITE_PASSWORD=(.+)/)]: the group of the leftmost
    match, which needs one character at least after the equals sign. *)
Fixpoint match_password (s : jsstring) : option jsstring :=
  let here :=
    if JsString.starts_with (js "VITE_SITE_PASSWORD=") s
    then match dots (skipn 19 s) with
         | [] => None
         | g => Some g
         end
    else None in
  match here with
  | Some g => Some g
  | None =>
      match s with
      | [] => None
      | _ :: r => match_password r
      end
  end.

Definition is_quote (c : N) : bool := (c =? 39) || (c =? 34).

Definition drop_last_quote (s : jsstring) : jsstring :=
  match rev s with
  | c :: r => if is_quote c then rev r else s
  | [] => s
  end.

(** The [replace] of [encryptFiles], whose pattern is a quotation mark,
    single or double, at the start of the string or at its end, with the
    flag g: one at the start is taken off, and one at the end. *)
Definition strip_quotes (s : jsstring) : jsstring :=
  match s with
  | c :: r => if is_quote c then drop_last_quote r else drop_last_quote s
  | [] => []
  end.

(** The password that [encryptFiles] works with, from the environment
    variable and from the content of the file [.env] when it can be read;
    [None] when it throws 'VITE_SITE_PASSWORD not found'. *)
Definition password_of (variable envContent : option jsstring) : option jsstring :=
  let password :=
    match variable with
    | Some (c :: r) => Some (c :: r)
    | _ =>
        match envContent with
        | Some content =>
            match match_password content with
            | Some g => Some (strip_quotes (JsString.trim g))
            | None => variable
            end
        | None => variable
        end
    end in
  match password with
  | Some (c :: r) => Some (c :: r)
  | _ => None
  end.

End EncryptFiles.

(** ASCII letters in lower case, the rest as it is: what [toLowerCase] does
    to a string of ASCII characters. *)
Definition ascii_lower (s : jsstring) : jsstring :=
  map (fun c => if (65 <=? c) && (c <=? 90) then c + 32 else c) s.

(** ** Proof automation *)

(** Division and remainder by constants are handed to [lia] as equations. *)
Ltac Zify.zify_post_hook ::= Z.to_euclidean_division_equations.

(** Settling the comparisons of a goal by linear arithmetic. *)
Ltac settle_tests :=
  repeat match goal with
         | |- context [(?a =? ?b)%N] =>
             first [ replace (a =? b)%N with false by (symmetry; apply N.eqb_neq; lia)
                   | replace (a =? b)%N with true by (symmetry; apply N.eqb_eq; lia) ]
         | |- context [(?a <? ?b)%N] =>
             first [ replace (a <? b)%N with false by (symmetry; apply N.ltb_ge; lia)
                   | replace (a <? b)%N with true by (symmetry; apply N.ltb_lt; lia) ]
         | |- context [(?a <=? ?b)%N] =>
             first [ replace (a <=? b)%N with false by (symmetry; apply N.leb_gt; lia)
                   | replace (a <=? b)%N with true by (symmetry; apply N.leb_le; lia) ]
         end;
  cbn [andb orb negb].

(* ------------------------------------------------------------------ *)
(** * Test vectors: FIPS 180-4, RFC 4231, RFC 7914 and the usual
      PBKDF2-HMAC-SHA-256 vectors, FIPS 197, and the test cases of the GCM
      specification *)

Example sha256_constants :
  nth 0 SHA256.K 0%N = 0x428a2f98%N /\ nth 63 SHA256.K 0%N = 0xc67178f2%N
  /\ SHA256.sa SHA256.H0 = 0x6a09e667%N /\ SHA256.sh SHA256.H0 = 0x5be0cd19%N.
Proof. vm_compute. repeat split; reflexivity. Qed.

Example sha256_abc :
  SHA256.hash (ascii_bytes "abc")
  = hex "ba7816bf8f01cfea414140de5dae2223b00361a396177a9cb410ff61f20015ad".
Proof. vm_compute. reflexivity. Qed.

Example sha256_empty :
  SHA256.hash []
  = hex "e3b0c44298fc1c149afbf4c8996fb92427ae41e4649b934ca495991b7852b855".
Proof. vm_compute. reflexivity. Qed.

Example sha256_two_blocks :
  SHA256.hash (ascii_bytes "abcdbcdecdefdefgefghfghighijhijkijkljklmklmnlmnomnopnopq")
  = hex "248d6a61d20638b8e5c026930c3e6039a33ce45964ff2167f6ecedd419db06c1".
Proof. vm_compute. reflexivity. Qed.

Example hmac_rfc4231_case1 :
  HMAC.mac (repeat x0b 20) (ascii_bytes "Hi There")
  = hex "b0344c61d8db38535ca8afceaf0bf12b881dc200c9833da726e9376c2e32cff7".
Proof. vm_compute. reflexivity. Qed.

Example hmac_rfc4231_case6 :
  HMAC.mac (repeat xaa 131)
           (ascii_bytes "Test Using Larger Than Block-Size Key - Hash Key First")
  = hex "60e431591ee0b67f0d8a26aacbf5b77f8e0bc6213728c5140546040f0ee37f54".
Proof. vm_compute. reflexivity. Qed.

Example pbkdf2_rfc7914 :
  PBKDF2.derive (ascii_bytes "passwd") (ascii_bytes "salt") 1 64
  = hex "55ac046e56e3089fec1691c22544b605f94185216dde0465e68b9d57c20dacbc49ca9cccf179b645991664b39d77ef317c71b845b1e30bd509112041d3a19783".
Proof. vm_compute. reflexivity. Qed.

Example pbkdf2_c1 :
  PBKDF2.derive (ascii_bytes "password") (ascii_bytes "salt") 1 32
  = hex "120fb6cffcf8b32c43e7225256c4f837a86548c92ccc35480805987cb70be17b".
Proof. vm_compute. reflexivity. Qed.

Example pbkdf2_c2 :
  PBKDF2.derive (ascii_bytes "password") (ascii_bytes "salt") 2 32
  = hex "ae4d0c95af6b46d32d0adff928f06dd02a303f8ef3c251dfd6e2d85a95474c43".
Proof. vm_compute. reflexivity. Qed.

Example sbox_53 : AES.sbox x53 = xed /\ AES.sbox x00 = x63.
Proof. vm_compute. split; reflexivity. Qed.

Example aes128_fips197 :
  aes_ecb (hex "000102030405060708090a0b0c0d0e0f")
          (hex "00112233445566778899aabbccddeeff")
  = Some (hex "69c4e0d86a7b0430d8cdb78070b4c55a").
Proof. vm_compute. reflexivity. Qed.

Example aes192_fips197 :
  aes_ecb (hex "000102030405060708090a0b0c0d0e0f1011121314151617")
          (hex "00112233445566778899aabbccddeeff")
  = Some (hex "dda97ca4864cdfe06eaf70a0ec0d7191").
Proof. vm_compute. reflexivity. Qed.

Example aes256_fips197 :
  aes_ecb (hex "000102030405060708090a0b0c0d0e0f101112131415161718191a1b1c1d1e1f")
          (hex "00112233445566778899aabbccddeeff")
  = Some (hex "8ea2b7ca516745bfeafc49904b496089").
Proof. vm_compute. reflexivity. Qed.

Example gcm_case13 :
  gcm_seal (zeros 32) (zeros 12) [] []
  = Some (hex "530f8afbc74536b9a963b4f1c4cb738b").
Proof. vm_compute. reflexivity. Qed.

Example gcm_case14 :
  gcm_seal (zeros 32) (zeros 12) [] (zeros 16)
  = Some (hex "cea7403d4d606b6e074ec5d3baf39d18d0d1c8a799996bf0265b98b5d48ab919").
Proof. vm_compute. reflexivity. Qed.

Example gcm_case15 :
  gcm_seal (hex "feffe9928665731c6d6a8f9467308308feffe9928665731c6d6a8f9467308308")
           (hex "cafebabefacedbaddecaf888") []
           (hex "d9313225f88406e5a55909c5aff5269a86a7a9531534f7da2e4c303d8a318a721c3c0c95956809532fcf0e2449a6b525b16aedf5aa0de657ba637b391aafd255")
  = Some (hex "522dc1f099567d07f47f37a32a84427d643a8cdcbfe5c0c97598a2bd2555d1aa8cb08e48590dbb3da7b08b1056828838c5f61e6393ba7a0abcc9f662898015adb094dac5d93471bdec1a502270e3cc6c").
Proof. vm_compute. reflexivity. Qed.

Example gcm_case17 :
  gcm_seal (hex "feffe9928665731c6d6a8f9467308308feffe9928665731c6d6a8f9467308308")
           (hex "cafebabefacedbad")
           (hex "feedfacedeadbeeffeedfacedeadbeefabaddad2")
           (hex "d9313225f88406e5a55909c5aff5269a86a7a9531534f7da2e4c303d8a318a721c3c0c95956809532fcf0e2449a6b525b16aedf5aa0de657ba637b39")
  = Some (hex "c3762df1ca787d32ae47c13bf19844cbaf1ae14d0b976afac52ff7d79bba9de0feb582d33934a4f0954cc2363bc73f7862ac430e64abe499f47c9b1f3a337dbf46a792c45e454913fe2ea8f2").
Proof. vm_compute. reflexivity. Qed.

(* ------------------------------------------------------------------ *)
(** * Properties *)

Local Open Scope nat_scope.

(** ** Bytes *)

Lemma to_N_lt (b : byte) : (Byte.to_N b < 256)%N.
Proof. pose proof (Byte.to_N_bounded b). lia. Qed.

Lemma byte_of_to_N (b : byte) : byte_of_N (Byte.to_N b) = b.
Proof.
  unfold byte_of_N. rewrite N.mod_small by apply to_N_lt.
  now rewrite Byte.of_to_N.
Qed.

Lemma to_N_byte_of_N (n : N) : (n < 256)%N -> Byte.to_N (byte_of_N n) = n.
Proof.
  intros Hn. unfold byte_of_N. rewrite N.mod_small by assumption.
  destruct (Byte.of_N n) as [b|] eqn:E.
  - now apply Byte.to_of_N.
  - apply Byte.of_N_None_iff in E. lia.
Qed.

Lemma to_N_inj (a b : byte) : Byte.to_N a = Byte.to_N b -> a = b.
Proof.
  intros H. rewrite <- (byte_of_to_N a), <- (byte_of_to_N b). now rewrite H.
Qed.

Lemma lxor_lt_256 (a b : N) : (a < 256)%N -> (b < 256)%N -> (N.lxor a b < 256)%N.
Proof.
  intros Ha Hb.
  destruct (N.eq_dec (N.lxor a b) 0) as [E|E]; [rewrite E; lia|].
  change 256%N with (2 ^ 8)%N. apply N.log2_lt_pow2; [lia|].
  pose proof (N.log2_lxor a b) as Hl.
  assert (La : (N.log2 a < 8)%N).
  { destruct (N.eq_dec a 0) as [->|]; [cbn; lia|].
    apply N.log2_lt_pow2; [lia|exact Ha]. }
  assert (Lb : (N.log2 b < 8)%N).
  { destruct (N.eq_dec b 0) as [->|]; [cbn; lia|].
    apply N.log2_lt_pow2; [lia|exact Hb]. }
  lia.
Qed.

Lemma to_N_bxor (a b : byte) :
  Byte.to_N (bxor a b) = N.lxor (Byte.to_N a) (Byte.to_N b).
Proof.
  unfold bxor. apply to_N_byte_of_N. apply lxor_lt_256; apply to_N_lt.
Qed.

Lemma bxor_comm (a b : byte) : bxor a b = bxor b a.
Proof. apply to_N_inj. rewrite !to_N_bxor. apply N.lxor_comm. Qed.

Lemma bxor_assoc (a b c : byte) : bxor (bxor a b) c = bxor a (bxor b c).
Proof. apply to_N_inj. rewrite !to_N_bxor. apply N.lxor_assoc. Qed.

Lemma bxor_nilpotent (a : byte) : bxor a a = x00.
Proof. apply to_N_inj. rewrite to_N_bxor. apply N.lxor_nilpotent. Qed.

Lemma bxor_x00_r (a : byte) : bxor a x00 = a.
Proof. apply to_N_inj. rewrite to_N_bxor. apply N.lxor_0_r. Qed.

Lemma bxor_x00_l (a : byte) : bxor x00 a = a.
Proof. rewrite bxor_comm. apply bxor_x00_r. Qed.

Lemma bxor_cancel_r (a b : byte) : bxor (bxor a b) b = a.
Proof. now rewrite bxor_assoc, bxor_nilpotent, bxor_x00_r. Qed.

Lemma bxor_inj_l (a b c : byte) : bxor a c = bxor b c -> a = b.
Proof.
  intros H. rewrite <- (bxor_cancel_r a c), <- (bxor_cancel_r b c). now rewrite H.
Qed.

Lemma bxor_eq_x00 (a b : byte) : bxor a b = x00 -> a = b.
Proof.
  intros H. apply (bxor_inj_l a b b). now rewrite bxor_nilpotent.
Qed.

Lemma length_xor_bytes (a b : bytes) :
  length (xor_bytes a b) = Nat.min (length a) (length b).
Proof.
  revert b. induction a as [|x a IH]; intros [|y b]; simpl; auto.
Qed.

Lemma xor_bytes_cancel (d k : bytes) :
  length d <= length k -> xor_bytes (xor_bytes d k) k = d.
Proof.
  revert k. induction d as [|x d IH]; intros [|y k] H; simpl in *; try lia; auto.
  rewrite bxor_cancel_r. f_equal. apply IH. lia.
Qed.

Lemma firstn_exact {A} (l1 l2 : list A) (n : nat) :
  length l1 = n -> firstn n (l1 ++ l2) = l1.
Proof.
  intros <-. rewrite firstn_app, Nat.sub_diag, firstn_all. cbn [firstn].
  apply app_nil_r.
Qed.

Lemma skipn_exact {A} (l1 l2 : list A) (n : nat) :
  length l1 = n -> skipn n (l1 ++ l2) = l2.
Proof.
  intros <-. rewrite skipn_app, Nat.sub_diag, skipn_all. reflexivity.
Qed.

Lemma length_N_to_be (len : nat) (n : N) : length (N_to_be len n) = len.
Proof.
  revert n. induction len as [|k IH]; intros n; simpl; auto.
  rewrite length_app, IH. simpl. lia.
Qed.

Lemma bytes_eqb_refl (a : bytes) : bytes_eqb a a = true.
Proof.
  induction a as [|x a IH]; simpl; auto.
  rewrite (Byte.byte_dec_lb (eq_refl x)). exact IH.
Qed.



(** Cutting into pieces loses nothing: the fuel of [chunks] suffices. *)
Lemma concat_chunks_fuel {A} (fuel n : nat) (l : list A) :
  0 < n -> length l <= fuel -> concat (chunks_fuel fuel n l) = l.
Proof.
  intros Hn. revert l. induction fuel as [|f IH]; intros l Hl.
  - destruct l; [reflexivity|cbn [length] in Hl; lia].
  - cbn [chunks_fuel]. destruct l as [|x l']; [reflexivity|].
    cbn [concat]. rewrite IH.
    + apply firstn_skipn.
    + rewrite length_skipn. cbn [length] in *. lia.
Qed.

Lemma concat_chunks {A} (n : nat) (l : list A) :
  0 < n -> concat (chunks n l) = l.
Proof. intros Hn. now apply concat_chunks_fuel. Qed.

(** ** The hash and the key derivation produce 32 bytes *)

Lemma length_digest (s : SHA256.state) : length (SHA256.digest s) = 32.
Proof. unfold SHA256.digest. rewrite !length_app, !length_N_to_be. reflexivity. Qed.

Lemma length_sha256 (msg : bytes) : length (SHA256.hash msg) = 32.
Proof. apply length_digest. Qed.

Lemma length_mac_with (kb msg : bytes) : length (HMAC.mac_with kb msg) = 32.
Proof. apply length_sha256. Qed.

Lemma length_pbkdf2_F (kb s : bytes) (c i : N) : length (PBKDF2.F kb s c i) = 32.
Proof.
  unfold PBKDF2.F.
  set (u1 := HMAC.mac_with kb (s ++ N_to_be 4 i)).
  assert (Inv : length (fst (N.iter (c - 1) (PBKDF2.step kb) (u1, u1))) = 32
                /\ length (snd (N.iter (c - 1) (PBKDF2.step kb) (u1, u1))) = 32).
  { apply N.iter_invariant.
    - intros [u t] [Hu Ht]. unfold PBKDF2.step. cbn [fst snd] in *. split.
      + apply length_mac_with.
      + rewrite length_xor_bytes, Ht, length_mac_with. reflexivity.
    - cbn [fst snd]. split; apply length_mac_with. }
  apply Inv.
Qed.

Lemma length_pbkdf2_derive_32 (pw s : bytes) (c : N) :
  length (PBKDF2.derive pw s c 32) = 32.
Proof.
  unfold PBKDF2.derive.
  change ((32 + SHA256.digest_size - 1) / SHA256.digest_size) with 1.
  cbn [seq flat_map]. rewrite app_nil_r.
  rewrite firstn_all2; rewrite length_pbkdf2_F; auto.
Qed.


(** ** The block cipher and the counter mode keep lengths *)

Lemma length_encrypt_block (rks : list AES.state) (b : bytes) :
  length (AES.encrypt_block rks b) = 16.
Proof.
  unfold AES.encrypt_block.
  destruct (AES.cipher rks (AES.state_of_bytes b))
    as [[[[[[a0 a1] a2] a3] [[[b0 b1] b2] b3]] [[[c0 c1] c2] c3]] [[[d0 d1] d2] d3]].
  reflexivity.
Qed.

Lemma length_keystream (rks : list AES.state) (n : nat) (cb : N) :
  length (GCM.keystream rks n cb) = 16 * n.
Proof.
  revert cb. induction n as [|n IH]; intros cb; [reflexivity|].
  cbn [GCM.keystream]. unfold GCM.E at 1.
  rewrite length_app, length_encrypt_block, IH. lia.
Qed.

Lemma keystream_covers (rks : list AES.state) (n : nat) (cb : N) :
  n <= length (GCM.keystream rks ((n + 15) / 16) cb).
Proof.
  rewrite length_keystream.
  pose proof (Nat.div_mod_eq (n + 15) 16) as H.
  pose proof (Nat.mod_upper_bound (n + 15) 16) as H'. lia.
Qed.

Lemma length_gctr (rks : list AES.state) (icb : N) (d : bytes) :
  length (GCM.gctr rks icb d) = length d.
Proof.
  unfold GCM.gctr. rewrite length_xor_bytes.
  pose proof (keystream_covers rks (length d) icb). lia.
Qed.

Lemma gctr_involutive (rks : list AES.state) (icb : N) (d : bytes) :
  GCM.gctr rks icb (GCM.gctr rks icb d) = d.
Proof.
  unfold GCM.gctr at 1. rewrite length_gctr. unfold GCM.gctr.
  apply xor_bytes_cancel, keystream_covers.
Qed.

Lemma length_tag (rks : list AES.state) (iv aad c : bytes) :
  length (GCM.tag rks iv aad c) = 16.
Proof. unfold GCM.tag. rewrite length_gctr. apply length_N_to_be. Qed.

Lemma length_seal (rks : list AES.state) (iv aad p : bytes) :
  length (GCM.seal rks iv aad p) = length p + 16.
Proof. unfold GCM.seal. now rewrite length_app, length_gctr, length_tag. Qed.

(** What [decrypt] of the Web Crypto API does with a ciphertext body [c]
    followed by sixteen bytes [t]. *)
Lemma decrypt_AES_GCM_split (rks : list AES.state) (iv c t : bytes) :
  iv <> [] -> length t = 16 ->
  Subtle.decrypt_AES_GCM rks iv (c ++ t) =
  if bytes_eqb (GCM.tag rks iv [] c) t
  then Ok (GCM.gctr rks (GCM.inc32 (GCM.J0 rks iv)) c)
  else Throw OperationError.
Proof.
  intros Hiv Ht. unfold Subtle.decrypt_AES_GCM.
  destruct iv as [|i0 iv']; [contradiction|]. cbn [length Nat.eqb].
  rewrite length_app, Ht.
  replace (length c + 16 <? 16) with false by (symmetry; apply Nat.ltb_ge; lia).
  replace (length c + 16 - 16) with (length c + 0) by lia.
  rewrite firstn_app_2, skipn_app, firstn_O, app_nil_r.
  replace (length c + 0 - length c) with 0 by lia.
  rewrite skipn_all2 by lia. reflexivity.
Qed.

Lemma decrypt_AES_GCM_seal (rks : list AES.state) (iv p : bytes) :
  iv <> [] ->
  Subtle.decrypt_AES_GCM rks iv (GCM.seal rks iv [] p) = Ok p.
Proof.
  intros Hiv. unfold GCM.seal.
  rewrite decrypt_AES_GCM_split by (auto using length_tag).
  now rewrite bytes_eqb_refl, gctr_involutive.
Qed.


Lemma decrypt_AES_GCM_short (rks : list AES.state) (iv data : bytes) :
  length data < 16 -> Subtle.decrypt_AES_GCM rks iv data = Throw OperationError.
Proof.
  intros H. unfold Subtle.decrypt_AES_GCM.
  apply Nat.ltb_lt in H. rewrite H. now destruct (length iv =? 0).
Qed.


Lemma key_schedule_32 (k : bytes) :
  length k = 32 -> exists rks, AES.key_schedule k = Some rks.
Proof.
  intros H. unfold AES.key_schedule. rewrite H. cbn [Nat.eqb orb]. eauto.
Qed.

Lemma importKey_AES_32 (k : bytes) :
  length k = 32 -> exists rks, Subtle.importKey_AES k = Ok rks.
Proof.
  intros H. unfold Subtle.importKey_AES.
  destruct (key_schedule_32 k H) as [rks ->]. eauto.
Qed.

(** ** The operations of the module, step by step *)

#[local] Opaque PBKDF2.derive GCM.seal GCM.tag GCM.gctr GCM.J0 AES.key_schedule.

Lemma length_take (n : nat) (e : Entropy) : length (take n e) = n.
Proof. unfold take. now rewrite length_map, length_seq. Qed.

Lemma length_derived_key (pw : jsstring) (s : bytes) : length (derived_key pw s) = 32.
Proof. apply length_pbkdf2_derive_32. Qed.

Lemma derived_key_schedule (pw : jsstring) (s : bytes) :
  exists rks, AES.key_schedule (derived_key pw s) = Some rks.
Proof. apply key_schedule_32, length_derived_key. Qed.

Lemma deriveKey_unavailable crypto pw s e :
  has_subtle crypto = false ->
  deriveKey crypto pw s e = Throw CryptoUnavailableError.
Proof. intros H. unfold deriveKey. now rewrite H. Qed.

Lemma deriveKey_given crypto pw s e :
  has_subtle crypto = true ->
  deriveKey crypto pw (Some s) e
  = Ok ({| key := derived_key pw s; usedSalt := s |}, e).
Proof. intros H. unfold deriveKey. rewrite H. reflexivity. Qed.

Lemma deriveKey_fresh crypto pw e :
  has_subtle crypto = true ->
  deriveKey crypto pw None e
  = Ok ({| key := derived_key pw (take 16 e); usedSalt := take 16 e |},
        shift 16 e).
Proof. intros H. unfold deriveKey. rewrite H. reflexivity. Qed.

Lemma has_subtle_crypto crypto :
  has_subtle crypto = true -> exists c, crypto = Some c.
Proof. unfold has_subtle. destruct crypto; [eauto|discriminate]. Qed.

Lemma encrypt_unavailable crypto pt pw e :
  has_subtle crypto = false ->
  encrypt crypto pt pw e = Throw CryptoUnavailableError.
Proof.
  intros H. unfold encrypt. destruct crypto; [|reflexivity].
  unfold bind. now rewrite deriveKey_unavailable.
Qed.

Lemma encrypt_sealed crypto pt pw e rks :
  has_subtle crypto = true ->
  AES.key_schedule (derived_key pw (take 16 e)) = Some rks ->
  encrypt crypto pt pw e
  = Ok (sealed rks (plaintext_bytes pt) (take 16 e) (take 24 (shift 16 e)),
        shift 24 (shift 16 e)).
Proof.
  intros H Hk. destruct (has_subtle_crypto crypto H) as [c Hc].
  unfold encrypt. rewrite Hc, <- Hc. unfold bind at 1.
  rewrite (deriveKey_fresh crypto pw e H). cbn [key usedSalt].
  unfold bind at 1. unfold getRandomValues at 1.
  unfold bind at 1. unfold secretBox. rewrite H. cbn [negb].
  unfold bind at 1. unfold ret at 1.
  unfold bind at 1. unfold lift at 1. unfold Subtle.importKey_AES. rewrite Hk.
  unfold bind at 1. unfold lift at 1. unfold Subtle.encrypt_AES_GCM.
  change NONCE_LENGTH with 24.
  assert (Hiv : length (firstn 12 (take 24 (shift 16 e))) = 12).
  { rewrite length_firstn, length_take. reflexivity. }
  rewrite Hiv. cbn [Nat.eqb]. unfold ret, sealed.
  rewrite skipn_app, length_take, Nat.sub_diag.
  rewrite skipn_all2 by (rewrite length_take; auto). reflexivity.
Qed.

Lemma secretBoxOpen_unavailable crypto box k :
  has_subtle crypto = false ->
  secretBoxOpen crypto box k = Throw CryptoUnavailableError.
Proof. intros H. unfold secretBoxOpen. now rewrite H. Qed.

Lemma decrypt_unavailable crypto env pw e :
  has_subtle crypto = false ->
  decrypt crypto env pw e = Throw CryptoUnavailableError.
Proof.
  intros H. unfold decrypt, bind. now rewrite deriveKey_unavailable.
Qed.

(** [decrypt] hands to the cipher the first 12 bytes of nonce followed by
    ciphertext as the IV, and everything after the first 24 as the data. *)
Lemma decrypt_opened crypto env pw e rks :
  has_subtle crypto = true ->
  AES.key_schedule (derived_key pw (salt env)) = Some rks ->
  decrypt crypto env pw e
  = lift (Subtle.decrypt_AES_GCM rks
            (firstn 12 (firstn 24 (nonce env ++ ciphertext env)))
            (skipn 24 (nonce env ++ ciphertext env))) e.
Proof.
  intros H Hk. unfold decrypt, bind. rewrite (deriveKey_given crypto _ _ _ H).
  cbn [key]. unfold secretBoxOpen. rewrite H. cbn [negb].
  unfold Subtle.importKey_AES. rewrite Hk. reflexivity.
Qed.

(** With a 24-byte nonce the IV is the first half of the nonce and the data
    is the ciphertext field. *)
Lemma decrypt_opened_24 crypto env pw e rks :
  has_subtle crypto = true ->
  AES.key_schedule (derived_key pw (salt env)) = Some rks ->
  length (nonce env) = 24 ->
  decrypt crypto env pw e
  = lift (Subtle.decrypt_AES_GCM rks (firstn 12 (nonce env)) (ciphertext env)) e.
Proof.
  intros H Hk Hn. rewrite (decrypt_opened crypto _ _ _ rks H Hk).
  now rewrite firstn_exact, skipn_exact.
Qed.

Lemma decrypt_record crypto (ct n s : bytes) pw e rks :
  has_subtle crypto = true ->
  AES.key_schedule (derived_key pw s) = Some rks ->
  length n = 24 ->
  decrypt crypto {| ciphertext := ct; nonce := n; salt := s |} pw e
  = lift (Subtle.decrypt_AES_GCM rks (firstn 12 n) ct) e.
Proof.
  intros H Hk Hn.
  exact (decrypt_opened_24 crypto {| ciphertext := ct; nonce := n; salt := s |}
                           pw e rks H Hk Hn).
Qed.

(** Decrypting what [encrypt] sealed, with any password whose derived key is
    the sealing key, gives the plaintext back. *)
Lemma decrypt_sealed crypto rks data s n pw e :
  has_subtle crypto = true ->
  AES.key_schedule (derived_key pw s) = Some rks ->
  length n = 24 ->
  decrypt crypto (sealed rks data s n) pw e = Ok (data, e).
Proof.
  intros H Hk Hn.
  rewrite (decrypt_opened_24 crypto _ _ _ rks H) by assumption.
  cbn [sealed nonce ciphertext].
  rewrite decrypt_AES_GCM_seal; [reflexivity|].
  intros E. apply (f_equal (@length byte)) in E.
  rewrite length_firstn, Hn in E. discriminate.
Qed.



(** ** [atob] undoes [btoa] *)

Lemma list_ind3 {A} (P : list A -> Prop) :
  P [] -> (forall a, P [a]) -> (forall a b, P [a; b]) ->
  (forall a b c rest, P rest -> P (a :: b :: c :: rest)) ->
  forall l, P l.
Proof.
  intros H0 H1 H2 H3.
  fix IH 1. intros [|a [|b [|c rest]]]; [exact H0|apply H1|apply H2|].
  apply H3, IH.
Qed.

Lemma encode_sextets (l : list N) :
  Base64.encode l = map Base64.char_of (sextets l) ++ padding_of l.
Proof.
  induction l as [|a|a b|a b c rest IH] using list_ind3; try reflexivity.
  cbn [Base64.encode sextets padding_of map app]. now rewrite IH.
Qed.

Lemma sextets_lt (l : list N) :
  Forall (fun a => (a < 256)%N) l -> Forall (fun v => (v < 64)%N) (sextets l).
Proof.
  induction l as [|a|a b|a b c rest IH] using list_ind3; intros H.
  - constructor.
  - inversion_clear H. repeat constructor; lia.
  - inversion_clear H as [|? ? Ha H']. inversion_clear H' as [|? ? Hb _].
    repeat constructor; lia.
  - inversion_clear H as [|? ? Ha H']. inversion_clear H' as [|? ? Hb H''].
    inversion_clear H'' as [|? ? Hc Hr].
    cbn [sextets]. repeat (constructor; [lia|]). auto.
Qed.

Lemma decode_sextets (l : list N) :
  Forall (fun a => (a < 256)%N) l -> Base64.decode (sextets l) = l.
Proof.
  induction l as [|a|a b|a b c rest IH] using list_ind3; intros H.
  - reflexivity.
  - inversion_clear H. cbn [sextets Base64.decode]. f_equal. lia.
  - inversion_clear H as [|? ? Ha H']. inversion_clear H' as [|? ? Hb _].
    cbn [sextets Base64.decode]. f_equal; [lia|]. f_equal. lia.
  - inversion_clear H as [|? ? Ha H']. inversion_clear H' as [|? ? Hb H''].
    inversion_clear H'' as [|? ? Hc Hr].
    cbn [sextets Base64.decode]. rewrite (IH Hr).
    f_equal; [lia|]. f_equal; [lia|]. f_equal. lia.
Qed.

Lemma char_of_cases (v : N) :
  ((v < 26)%N /\ Base64.char_of v = (65 + v)%N)
  \/ ((26 <= v < 52)%N /\ Base64.char_of v = (71 + v)%N)
  \/ ((52 <= v < 62)%N /\ (Base64.char_of v + 4)%N = v)
  \/ (v = 62%N /\ Base64.char_of v = 43%N)
  \/ ((63 <= v)%N /\ Base64.char_of v = 47%N).
Proof.
  unfold Base64.char_of.
  destruct (N.ltb_spec v 26); [left; lia|].
  destruct (N.ltb_spec v 52); [right; left; lia|].
  destruct (N.ltb_spec v 62); [right; right; left; lia|].
  destruct (N.eqb_spec v 62); [right; right; right; left; lia|].
  right; right; right; right; lia.
Qed.

Lemma value_of_char_of (v : N) :
  (v < 64)%N -> Base64.value_of (Base64.char_of v) = Some v.
Proof.
  intros H. unfold Base64.value_of.
  destruct (char_of_cases v) as [[H1 E]|[[H1 E]|[[H1 E]|[[H1 E]|[H1 E]]]]].
  - rewrite E. settle_tests. f_equal. lia.
  - rewrite E. settle_tests. f_equal. lia.
  - assert (E' : Base64.char_of v = (v - 4)%N) by lia.
    rewrite E'. settle_tests. f_equal. lia.
  - rewrite E. settle_tests. f_equal. lia.
  - rewrite E. settle_tests. f_equal. lia.
Qed.

Lemma values_chars (vs : list N) :
  Forall (fun v => (v < 64)%N) vs ->
  Base64.values (map Base64.char_of vs) = Some vs.
Proof.
  induction 1 as [|v vs Hv _ IH]; [reflexivity|].
  cbn [map Base64.values]. now rewrite value_of_char_of, IH.
Qed.

(** The letters of the alphabet are neither white space nor the padding sign,
    and JSON writes them as they are. *)
Lemma char_of_facts (v : N) :
  Base64.is_ascii_whitespace (Base64.char_of v) = false
  /\ (Base64.char_of v =? Base64.pad_char)%N = false
  /\ plain_unit (Base64.char_of v) = true.
Proof.
  unfold Base64.is_ascii_whitespace, Base64.pad_char, plain_unit.
  destruct (char_of_cases v) as [[H1 E]|[[H1 E]|[[H1 E]|[[H1 E]|[H1 E]]]]].
  - rewrite E. settle_tests. auto.
  - rewrite E. settle_tests. auto.
  - assert (E' : Base64.char_of v = (v - 4)%N) by lia.
    rewrite E'. settle_tests. auto.
  - rewrite E. settle_tests. auto.
  - rewrite E. settle_tests. auto.
Qed.

Lemma padding_cases (l : list N) :
  (padding_of l = [] /\ exists k, length (sextets l) = k * 4)
  \/ (padding_of l = [Base64.pad_char] /\ exists k, length (sextets l) = 3 + k * 4)
  \/ (padding_of l = [Base64.pad_char; Base64.pad_char]
      /\ exists k, length (sextets l) = 2 + k * 4).
Proof.
  induction l as [|a|a b|a b c rest IH] using list_ind3.
  - left. split; [reflexivity|]. now exists 0.
  - right; right. split; [reflexivity|]. now exists 0.
  - right; left. split; [reflexivity|]. now exists 0.
  - cbn [padding_of sextets length].
    destruct IH as [[-> [k E]]|[[-> [k E]]|[-> [k E]]]]; rewrite E.
    + left. split; [reflexivity|]. exists (S k). lia.
    + right; left. split; [reflexivity|]. exists (S k). lia.
    + right; right. split; [reflexivity|]. exists (S k). lia.
Qed.

Lemma filter_all {A} (p : A -> bool) (l : list A) :
  Forall (fun x => p x = true) l -> filter p l = l.
Proof.
  induction 1 as [|x l Hx _ IH]; [reflexivity|].
  cbn [filter]. now rewrite Hx, IH.
Qed.

Lemma encode_no_whitespace (l : list N) :
  filter (fun c => negb (Base64.is_ascii_whitespace c)) (Base64.encode l)
  = Base64.encode l.
Proof.
  apply filter_all. rewrite encode_sextets. apply Forall_app. split.
  - apply Forall_map, Forall_forall. intros v _.
    now rewrite (proj1 (char_of_facts v)).
  - destruct (padding_cases l) as [[-> _]|[[-> _]|[-> _]]]; repeat constructor.
Qed.

Lemma rev_chars_head (vs : list N) (p : N) (r : list N) :
  rev (map Base64.char_of vs) = p :: r -> (p =? Base64.pad_char)%N = false.
Proof.
  rewrite <- map_rev. destruct (rev vs) as [|v vs']; [discriminate|].
  cbn [map]. intros [= <- _]. apply char_of_facts.
Qed.

Lemma strip_padding_encode (l : list N) :
  Base64.strip_padding (Base64.encode l) = map Base64.char_of (sextets l).
Proof.
  rewrite encode_sextets. unfold Base64.strip_padding.
  set (m := map Base64.char_of (sextets l)).
  assert (Hm : length m = length (sextets l)) by apply length_map.
  destruct (padding_cases l) as [[-> [k E]]|[[-> [k E]]|[-> [k E]]]].
  - rewrite app_nil_r, Hm, E, Nat.Div0.mod_mul. cbn [Nat.eqb].
    destruct (rev m) as [|p [|q r]] eqn:R; auto.
    now rewrite (rev_chars_head _ _ _ R).
  - rewrite length_app, Hm, E. cbn [length].
    replace (3 + k * 4 + 1) with (S k * 4) by lia.
    rewrite Nat.Div0.mod_mul. cbn [Nat.eqb].
    rewrite rev_app_distr. cbn [rev app].
    destruct (rev m) as [|q r] eqn:R.
    + apply (f_equal (@length N)) in R. rewrite length_rev, Hm, E in R.
      discriminate.
    + rewrite N.eqb_refl, (rev_chars_head _ _ _ R).
      change (rev r ++ [q]) with (rev (q :: r)).
      now rewrite <- R, rev_involutive.
  - rewrite length_app, Hm, E. cbn [length].
    replace (2 + k * 4 + 2) with (S k * 4) by lia.
    rewrite Nat.Div0.mod_mul. cbn [Nat.eqb].
    rewrite rev_app_distr. cbn [rev app].
    rewrite !N.eqb_refl. apply rev_involutive.
Qed.

Lemma sextets_length_mod (l : list N) :
  (length (map Base64.char_of (sextets l)) mod 4 =? 1) = false.
Proof.
  rewrite length_map.
  destruct (padding_cases l) as [[_ [k E]]|[[_ [k E]]|[_ [k E]]]]; rewrite E.
  - now rewrite Nat.Div0.mod_mul.
  - now rewrite Nat.Div0.mod_add.
  - now rewrite Nat.Div0.mod_add.
Qed.

(** The forgiving decoder reads back what the encoder wrote. *)
Lemma atob_encode (l : list N) :
  Forall (fun a => (a < 256)%N) l -> Base64.atob (Base64.encode l) = Ok l.
Proof.
  intros H. unfold Base64.atob.
  rewrite encode_no_whitespace, strip_padding_encode, sextets_length_mod.
  rewrite values_chars by now apply sextets_lt.
  now rewrite decode_sextets.
Qed.

Lemma bytes_are_binary (b : bytes) : Forall (fun a => (a < 256)%N) (map Byte.to_N b).
Proof. apply Forall_map, Forall_forall. intros x _. apply to_N_lt. Qed.

Lemma btoa_bytes (b : bytes) :
  Base64.btoa (map Byte.to_N b) = Ok (Base64.encode (map Byte.to_N b)).
Proof.
  unfold Base64.btoa.
  replace (forallb _ _) with true; [reflexivity|].
  symmetry. apply forallb_forall. intros x Hx.
  apply in_map_iff in Hx as [y [<- _]].
  apply N.leb_le. apply Byte.to_N_bounded.
Qed.

Lemma stringToBytes_chars (b : bytes) : stringToBytes (map Byte.to_N b) = b.
Proof.
  unfold stringToBytes. rewrite map_map.
  rewrite (map_ext _ (fun x => x)) by apply byte_of_to_N. apply map_id.
Qed.

(** Every letter of an encoding is written by JSON as it stands. *)
Lemma encode_plain (l : list N) :
  Forall (fun c => plain_unit c = true) (Base64.encode l).
Proof.
  rewrite encode_sextets. apply Forall_app. split.
  - apply Forall_map, Forall_forall. intros v _. apply char_of_facts.
  - destruct (padding_cases l) as [[-> _]|[[-> _]|[-> _]]]; repeat constructor.
Qed.

(** ** The fuel of [JSON.parse] is never used up *)

Lemma skip_ws_length (s : list N) : length (JSON.skip_ws s) <= length s.
Proof.
  induction s as [|c s IH]; [reflexivity|].
  cbn [JSON.skip_ws]. destruct (JSON.is_ws c); cbn [length]; lia.
Qed.

Lemma skip_ws_cons (s : list N) (c : N) (r : list N) :
  JSON.skip_ws s = c :: r -> length r < length s.
Proof.
  intros H. pose proof (skip_ws_length s) as L. rewrite H in L.
  cbn [length] in L. lia.
Qed.

Lemma parse_string_shorter (n : nat) :
  forall s str r, length s <= n ->
    JSON.parse_string s = Some (str, r) -> length r < length s.
Proof.
  induction n as [|n IH]; intros s str r Hn H.
  - destruct s; [discriminate|cbn [length] in Hn; lia].
  - destruct s as [|c s1]; [discriminate|]. cbn [length] in Hn.
    cbn [JSON.parse_string] in H.
    destruct (c =? 34)%N; [injection H as _ <-; cbn [length]; lia|].
    destruct (c =? 92)%N.
    + destruct s1 as [|e r1]; [discriminate|]. cbn [length] in Hn.
      destruct (JSON.simple_escape e).
      * destruct (JSON.parse_string r1) as [[str' r']|] eqn:E; [|discriminate].
        injection H as _ <-. apply IH in E; cbn [length]; lia.
      * destruct (e =? 117)%N; [|discriminate].
        destruct r1 as [|h1 [|h2 [|h3 [|h4 r2]]]]; try discriminate.
        destruct (JSON.hex_value h1), (JSON.hex_value h2),
                 (JSON.hex_value h3), (JSON.hex_value h4); try discriminate.
        destruct (JSON.parse_string r2) as [[str' r']|] eqn:E; [|discriminate].
        injection H as _ <-. cbn [length] in Hn |- *.
        apply IH in E; lia.
    + destruct (c <? 32)%N; [discriminate|].
      destruct (JSON.parse_string s1) as [[str' r']|] eqn:E; [|discriminate].
      injection H as _ <-. apply IH in E; cbn [length]; lia.
Qed.

Lemma span_digits_length (s ds r : list N) :
  JSON.span_digits s = (ds, r) -> length r <= length s.
Proof.
  revert ds r. induction s as [|c s IH]; intros ds r H; cbn [JSON.span_digits] in H.
  - injection H as _ <-. reflexivity.
  - destruct (JSON.is_digit c).
    + destruct (JSON.span_digits s) as [ds' r'] eqn:E. injection H as _ <-.
      specialize (IH _ _ eq_refl). cbn [length]. lia.
    + injection H as _ <-. reflexivity.
Qed.

Lemma opt_char_length (p : N -> bool) (s a r : list N) :
  JSON.opt_char p s = (a, r) -> length r <= length s.
Proof.
  unfold JSON.opt_char. destruct s as [|c s']; [intros [= _ <-]; reflexivity|].
  destruct (p c); intros [= _ <-]; cbn [length]; lia.
Qed.

Lemma digits1_length (s ds r : list N) :
  JSON.digits1 s = Some (ds, r) -> length r <= length s.
Proof.
  unfold JSON.digits1. destruct (JSON.span_digits s) as [[|d ds'] r'] eqn:E;
    [discriminate|].
  intros [= _ <-]. eapply span_digits_length; eauto.
Qed.

Lemma int_part_shorter (s ip r : list N) :
  JSON.int_part s = Some (ip, r) -> length r < length s.
Proof.
  unfold JSON.int_part. destruct s as [|c s']; [discriminate|].
  destruct (c =? 48)%N; [intros [= _ <-]; cbn [length]; lia|].
  destruct (JSON.is_digit c); [|discriminate].
  destruct (JSON.span_digits s') as [ds r'] eqn:E. intros [= _ <-].
  apply span_digits_length in E. cbn [length]. lia.
Qed.

Lemma frac_part_length (s fp r : list N) :
  JSON.frac_part s = Some (fp, r) -> length r <= length s.
Proof.
  unfold JSON.frac_part. destruct s as [|c s']; [intros [= _ <-]; reflexivity|].
  destruct (c =? 46)%N; [|intros [= _ <-]; reflexivity].
  destruct (JSON.digits1 s') as [[ds r']|] eqn:E; [|discriminate].
  intros [= _ <-]. apply digits1_length in E. cbn [length]. lia.
Qed.

Lemma exp_part_length (s ep r : list N) :
  JSON.exp_part s = Some (ep, r) -> length r <= length s.
Proof.
  unfold JSON.exp_part. destruct s as [|c s']; [intros [= _ <-]; reflexivity|].
  destruct ((c =? 101) || (c =? 69))%N; [|intros [= _ <-]; reflexivity].
  destruct (JSON.opt_char _ s') as [sg r1] eqn:E1.
  destruct (JSON.digits1 r1) as [[ds r']|] eqn:E2; [|discriminate].
  intros [= _ <-]. apply opt_char_length in E1. apply digits1_length in E2.
  cbn [length]. lia.
Qed.

Lemma parse_number_shorter (s lit r : list N) :
  JSON.parse_number s = Some (lit, r) -> length r < length s.
Proof.
  unfold JSON.parse_number.
  destruct (JSON.opt_char _ s) as [sign s1] eqn:E1.
  destruct (JSON.int_part s1) as [[ip s2]|] eqn:E2; [|discriminate].
  destruct (JSON.frac_part s2) as [[fp s3]|] eqn:E3; [|discriminate].
  destruct (JSON.exp_part s3) as [[ep s4]|] eqn:E4; [|discriminate].
  intros [= _ <-].
  apply opt_char_length in E1. apply int_part_shorter in E2.
  apply frac_part_length in E3. apply exp_part_length in E4. lia.
Qed.

Lemma starts_with_shorter (p s r : list N) :
  p <> [] -> JSON.starts_with p s = Some r -> length r < length s.
Proof.
  intros Hp. unfold JSON.starts_with.
  destruct (forallb _ _ && (length p <=? length s)) eqn:E; [|discriminate].
  apply andb_true_iff in E as [_ E]. apply Nat.leb_le in E.
  intros [= <-]. rewrite length_skipn.
  destruct p; [contradiction|]. cbn [length] in *. lia.
Qed.

(** What a parser returns is shorter than what it was given. *)
Lemma parsers_shorter (f : nat) :
  (forall s v r, JSON.parse_value f s = Some (v, r) -> length r < length s)
  /\ (forall s v r, JSON.parse_elements f s = Some (v, r) -> length r < length s)
  /\ (forall s v r, JSON.parse_members f s = Some (v, r) -> length r < length s).
Proof.
  induction f as [|f (IHv & IHe & IHm)]; [repeat split; discriminate|].
  split; [|split]; intros s v r H.
  - cbn [JSON.parse_value] in H.
    destruct (JSON.skip_ws s) as [|c r0] eqn:Es; [discriminate|].
    apply skip_ws_cons in Es.
    destruct (c =? 34)%N.
    { destruct (JSON.parse_string r0) as [[str r']|] eqn:E; [|discriminate].
      injection H as _ <-. apply (parse_string_shorter _ _ _ _ (le_n _)) in E. lia. }
    destruct (c =? 91)%N.
    { destruct (JSON.skip_ws r0) as [|d r'] eqn:E; [discriminate|].
      apply skip_ws_cons in E.
      destruct (d =? 93)%N; [injection H as _ <-; lia|].
      apply IHe in H. lia. }
    destruct (c =? 123)%N.
    { destruct (JSON.skip_ws r0) as [|d r'] eqn:E; [discriminate|].
      apply skip_ws_cons in E.
      destruct (d =? 125)%N; [injection H as _ <-; lia|].
      apply IHm in H. lia. }
    destruct (JSON.starts_with (js "true") (c :: r0)) as [r1|] eqn:E1.
    { injection H as _ <-. apply starts_with_shorter in E1; [|discriminate].
      cbn [length] in E1. lia. }
    destruct (JSON.starts_with (js "false") (c :: r0)) as [r2|] eqn:E2.
    { injection H as _ <-. apply starts_with_shorter in E2; [|discriminate].
      cbn [length] in E2. lia. }
    destruct (JSON.starts_with (js "null") (c :: r0)) as [r3|] eqn:E3.
    { injection H as _ <-. apply starts_with_shorter in E3; [|discriminate].
      cbn [length] in E3. lia. }
    destruct (JSON.parse_number (c :: r0)) as [[lit r']|] eqn:E; [|discriminate].
    injection H as _ <-. apply parse_number_shorter in E. cbn [length] in E. lia.
  - cbn [JSON.parse_elements] in H.
    destruct (JSON.parse_value f s) as [[v0 r0]|] eqn:E0; [|discriminate].
    apply IHv in E0.
    destruct (JSON.skip_ws r0) as [|d r1] eqn:E1; [discriminate|].
    apply skip_ws_cons in E1.
    destruct (d =? 44)%N.
    { destruct (JSON.parse_elements f r1) as [[[] r2]|] eqn:E2; try discriminate.
      injection H as _ <-. apply IHe in E2. lia. }
    destruct (d =? 93)%N; [|discriminate]. injection H as _ <-. lia.
  - cbn [JSON.parse_members] in H.
    destruct (JSON.skip_ws s) as [|q r0] eqn:Es; [discriminate|].
    apply skip_ws_cons in Es.
    destruct (q =? 34)%N; [|discriminate].
    destruct (JSON.parse_string r0) as [[k r1]|] eqn:E0; [|discriminate].
    apply (parse_string_shorter _ _ _ _ (le_n _)) in E0.
    destruct (JSON.skip_ws r1) as [|col r2] eqn:E1; [discriminate|].
    apply skip_ws_cons in E1.
    destruct (col =? 58)%N; [|discriminate].
    destruct (JSON.parse_value f r2) as [[v0 r3]|] eqn:E2; [|discriminate].
    apply IHv in E2.
    destruct (JSON.skip_ws r3) as [|d r4] eqn:E3; [discriminate|].
    apply skip_ws_cons in E3.
    destruct (d =? 44)%N.
    { destruct (JSON.parse_members f r4) as [[[] r5]|] eqn:E4; try discriminate.
      injection H as _ <-. apply IHm in E4. lia. }
    destruct (d =? 125)%N; [|discriminate]. injection H as _ <-. lia.
Qed.

(** With fuel above twice the length of the text, one more unit changes
    nothing. *)
Lemma parsers_stable (f : nat) :
  (forall s, 2 * length s + 1 <= f ->
             JSON.parse_value (S f) s = JSON.parse_value f s)
  /\ (forall s, 2 * length s + 2 <= f ->
                JSON.parse_elements (S f) s = JSON.parse_elements f s)
  /\ (forall s, 2 * length s + 2 <= f ->
                JSON.parse_members (S f) s = JSON.parse_members f s).
Proof.
  induction f as [|f (IHv & IHe & IHm)]; [repeat split; intros; lia|].
  destruct (parsers_shorter f) as (Sv & Se & Sm).
  split; [|split]; intros s Hf.
  - cbn [JSON.parse_value].
    destruct (JSON.skip_ws s) as [|c r0] eqn:Es; [reflexivity|].
    apply skip_ws_cons in Es.
    destruct (c =? 34)%N; [reflexivity|].
    destruct (c =? 91)%N.
    { destruct (JSON.skip_ws r0) as [|d r'] eqn:E; [reflexivity|].
      destruct (d =? 93)%N; [reflexivity|]. apply IHe. lia. }
    destruct (c =? 123)%N; [|reflexivity].
    destruct (JSON.skip_ws r0) as [|d r'] eqn:E; [reflexivity|].
    destruct (d =? 125)%N; [reflexivity|]. apply IHm. lia.
  - change (JSON.parse_elements (S (S f)) s)
      with (match JSON.parse_value (S f) s with
            | Some (v, r) =>
                match JSON.skip_ws r with
                | d :: r' =>
                    if (d =? 44)%N then
                      match JSON.parse_elements (S f) r' with
                      | Some (JSON.JArray vs, r'') => Some (JSON.JArray (v :: vs), r'')
                      | _ => None
                      end
                    else if (d =? 93)%N then Some (JSON.JArray [v], r')
                    else None
                | [] => None
                end
            | None => None
            end).
    change (JSON.parse_elements (S f) s)
      with (match JSON.parse_value f s with
            | Some (v, r) =>
                match JSON.skip_ws r with
                | d :: r' =>
                    if (d =? 44)%N then
                      match JSON.parse_elements f r' with
                      | Some (JSON.JArray vs, r'') => Some (JSON.JArray (v :: vs), r'')
                      | _ => None
                      end
                    else if (d =? 93)%N then Some (JSON.JArray [v], r')
                    else None
                | [] => None
                end
            | None => None
            end).
    rewrite IHv by lia.
    destruct (JSON.parse_value f s) as [[v0 r0]|] eqn:E0; [|reflexivity].
    apply Sv in E0.
    destruct (JSON.skip_ws r0) as [|d r1] eqn:E1; [reflexivity|].
    apply skip_ws_cons in E1.
    destruct (d =? 44)%N; [|reflexivity].
    rewrite IHe by lia. reflexivity.
  - change (JSON.parse_members (S (S f)) s)
      with (match JSON.skip_ws s with
            | q :: r0 =>
                if (q =? 34)%N then
                  match JSON.parse_string r0 with
                  | Some (k, r1) =>
                      match JSON.skip_ws r1 with
                      | col :: r2 =>
                          if (col =? 58)%N then
                            match JSON.parse_value (S f) r2 with
                            | Some (v, r3) =>
                                match JSON.skip_ws r3 with
                                | d :: r4 =>
                                    if (d =? 44)%N then
                                      match JSON.parse_members (S f) r4 with
                                      | Some (JSON.JObject ms, r5) =>
                                          Some (JSON.JObject ((k, v) :: ms), r5)
                                      | _ => None
                                      end
                                    else if (d =? 125)%N
                                         then Some (JSON.JObject [(k, v)], r4)
                                         else None
                                | [] => None
                                end
                            | None => None
                            end
                          else None
                      | [] => None
                      end
                  | None => None
                  end
                else None
            | [] => None
            end).
    change (JSON.parse_members (S f) s)
      with (match JSON.skip_ws s with
            | q :: r0 =>
                if (q =? 34)%N then
                  match JSON.parse_string r0 with
                  | Some (k, r1) =>
                      match JSON.skip_ws r1 with
                      | col :: r2 =>
                          if (col =? 58)%N then
                            match JSON.parse_value f r2 with
                            | Some (v, r3) =>
                                match JSON.skip_ws r3 with
                                | d :: r4 =>
                                    if (d =? 44)%N then
                                      match JSON.parse_members f r4 with
                                      | Some (JSON.JObject ms, r5) =>
                                          Some (JSON.JObject ((k, v) :: ms), r5)
                                      | _ => None
                                      end
                                    else if (d =? 125)%N
                                         then Some (JSON.JObject [(k, v)], r4)
                                         else None
                                | [] => None
                                end
                            | None => None
                            end
                          else None
                      | [] => None
                      end
                  | None => None
                  end
                else None
            | [] => None
            end).
    destruct (JSON.skip_ws s) as [|q r0] eqn:Es; [reflexivity|].
    apply skip_ws_cons in Es.
    destruct (q =? 34)%N; [|reflexivity].
    destruct (JSON.parse_string r0) as [[k r1]|] eqn:E0; [|reflexivity].
    apply (parse_string_shorter _ _ _ _ (le_n _)) in E0.
    destruct (JSON.skip_ws r1) as [|col r2] eqn:E1; [reflexivity|].
    apply skip_ws_cons in E1.
    destruct (col =? 58)%N; [|reflexivity].
    rewrite IHv by lia.
    destruct (JSON.parse_value f r2) as [[v0 r3]|] eqn:E2; [|reflexivity].
    apply Sv in E2.
    destruct (JSON.skip_ws r3) as [|d r4] eqn:E3; [reflexivity|].
    apply skip_ws_cons in E3.
    destruct (d =? 44)%N; [|reflexivity].
    rewrite IHm by lia. reflexivity.
Qed.

(** [JSON.parse] gives the result that any larger fuel gives: the bound on
    the recursion is not felt. *)
Lemma parse_value_fuel (text : jsstring) (extra : nat) :
  JSON.parse_value (2 * length text + 2 + extra) text
  = JSON.parse_value (2 * length text + 2) text.
Proof.
  induction extra as [|k IH]; [now rewrite Nat.add_0_r|].
  rewrite <- IH. rewrite Nat.add_succ_r.
  apply (proj1 (parsers_stable _)). lia.
Qed.

(** ** [JSON.parse] undoes [JSON.stringify] on base64 fields *)

Lemma plain_unit_spec (c : N) :
  plain_unit c = true ->
  (32 <= c)%N /\ c <> 34%N /\ c <> 92%N /\ (c < 0xD800)%N.
Proof.
  unfold plain_unit. rewrite !andb_true_iff, !negb_true_iff.
  rewrite N.leb_le, !N.eqb_neq, N.ltb_lt. tauto.
Qed.

Lemma quote_body_plain (s : jsstring) :
  Forall (fun c => plain_unit c = true) s -> JSON.quote_body s = s.
Proof.
  induction 1 as [|c s Hc _ IH]; [reflexivity|].
  apply plain_unit_spec in Hc as (H1 & H2 & H3 & H4).
  cbn [JSON.quote_body].
  unfold TextEncoder.is_high, TextEncoder.is_low, JSON.quote_unit.
  settle_tests. cbn [app]. now rewrite IH.
Qed.

Lemma parse_string_plain (s rest : jsstring) :
  Forall (fun c => plain_unit c = true) s ->
  JSON.parse_string (s ++ 34%N :: rest) = Some (s, rest).
Proof.
  induction 1 as [|c s Hc _ IH]; [reflexivity|].
  apply plain_unit_spec in Hc as (H1 & H2 & H3 & H4).
  cbn [app JSON.parse_string]. settle_tests. now rewrite IH.
Qed.

Lemma parse_value_envelope (f : nat) (d : EncryptedDataBase64) :
  Forall (fun c => plain_unit c = true) (ciphertext64 d) ->
  Forall (fun c => plain_unit c = true) (nonce64 d) ->
  Forall (fun c => plain_unit c = true) (salt64 d) ->
  JSON.parse_value (5 + f) (JSON_stringify d) = Some (object_of d, []).
Proof.
  intros Hc Hn Hs. unfold JSON_stringify, JSON.quote.
  rewrite !quote_body_plain by (assumption || (repeat constructor)).
  simpl.
  rewrite <- app_assoc. cbn [app]. rewrite parse_string_plain by assumption.
  simpl.
  rewrite <- app_assoc. cbn [app]. rewrite parse_string_plain by assumption.
  simpl.
  rewrite <- app_assoc. cbn [app]. rewrite parse_string_plain by assumption.
  reflexivity.
Qed.

Lemma parse_stringify (d : EncryptedDataBase64) :
  Forall (fun c => plain_unit c = true) (ciphertext64 d) ->
  Forall (fun c => plain_unit c = true) (nonce64 d) ->
  Forall (fun c => plain_unit c = true) (salt64 d) ->
  JSON.parse (JSON_stringify d) = Ok (object_of d).
Proof.
  intros Hc Hn Hs. unfold JSON.parse.
  assert (E : exists f, 2 * length (JSON_stringify d) + 2 = 5 + f).
  { unfold JSON_stringify. rewrite length_app. cbn [length].
    eexists (_ + _). rewrite Nat.add_assoc. reflexivity || lia. }
  destruct E as [f ->].
  now rewrite parse_value_envelope.
Qed.

(** ** The envelope codec *)

Lemma encryptedDataToBase64_ok (data : EncryptedData) :
  encryptedDataToBase64 data = Ok (base64_of data).
Proof.
  unfold encryptedDataToBase64, arrayToBase64. rewrite !btoa_bytes. reflexivity.
Qed.

Lemma lookup_fields (v1 v2 v3 : JSON.value) :
  let ms := [(js "ciphertext", v1); (js "nonce", v2); (js "salt", v3)] in
  JSON.lookup (js "ciphertext") ms = Some v1
  /\ JSON.lookup (js "nonce") ms = Some v2
  /\ JSON.lookup (js "salt") ms = Some v3.
Proof. repeat split; vm_compute; reflexivity. Qed.

Lemma decode_field_encoded nts (ms : list (jsstring * JSON.value))
      (name : jsstring) (b : bytes) :
  JSON.lookup name ms = Some (JSON.JString (Base64.encode (map Byte.to_N b))) ->
  decode_field nts (JSON.JObject ms) name = Ok b.
Proof.
  intros H. unfold decode_field, get. cbn [rbind]. rewrite H.
  cbn [ToString_opt ToString]. rewrite atob_encode by apply bytes_are_binary.
  cbn [rbind]. now rewrite stringToBytes_chars.
Qed.

Lemma base64ToEncryptedData_object nts (data : EncryptedData) :
  base64ToEncryptedData nts (object_of (base64_of data)) = Ok data.
Proof.
  unfold base64ToEncryptedData, object_of, base64_of.
  cbn [ciphertext64 nonce64 salt64].
  match goal with
  | |- context [JSON.JObject [(_, ?a); (_, ?b); (_, ?c)]] =>
      destruct (lookup_fields a b c) as (L1 & L2 & L3)
  end.
  rewrite (decode_field_encoded nts _ _ _ L1),
          (decode_field_encoded nts _ _ _ L2),
          (decode_field_encoded nts _ _ _ L3).
  now destruct data.
Qed.

Lemma parse_stringify_base64 (data : EncryptedData) :
  JSON.parse (JSON_stringify (base64_of data)) = Ok (object_of (base64_of data)).
Proof. apply parse_stringify; apply encode_plain. Qed.

Lemma parse_envelope_serialized nts (data : EncryptedData) :
  parse_envelope nts (JSON_stringify (base64_of data)) = Ok data.
Proof.
  unfold parse_envelope. rewrite parse_stringify_base64.
  apply base64ToEncryptedData_object.
Qed.

Lemma decryptFromJSON_stages crypto nts text pw e :
  decryptFromJSON crypto nts text pw e =
  match parse_envelope nts text with
  | Ok env =>
      match decrypt crypto env pw e with
      | Ok (p, e') => Ok (map Byte.to_N p, e')
      | Throw err => Throw err
      end
  | Throw err => Throw err
  end.
Proof.
  unfold decryptFromJSON, parse_envelope, bind, lift, rbind, ret.
  destruct (JSON.parse text); [|reflexivity].
  destruct (base64ToEncryptedData nts a); reflexivity.
Qed.

Lemma encryptToJSON_stages crypto pt pw e :
  encryptToJSON crypto pt pw e =
  match encrypt crypto pt pw e with
  | Ok (env, e') => Ok (JSON_stringify (base64_of env), e')
  | Throw err => Throw err
  end.
Proof.
  unfold encryptToJSON, bind, lift, ret.
  destruct (encrypt crypto pt pw e) as [[env e']|]; [|reflexivity].
  now rewrite encryptedDataToBase64_ok.
Qed.

(** ** Flipping one bit *)






(** ** The block cipher is one-to-one *)




















(** ** The tag depends on the IV *)

#[local] Transparent GCM.tag GCM.gctr GCM.J0.








#[local] Opaque GCM.tag GCM.gctr GCM.J0.


(** ** What [decrypt] reads of the nonce *)

Lemma decrypt_nonce_prefix crypto (W : jsstring) (ct s n1 n2 : bytes) (e : Entropy) :
  length n1 = 24 -> length n2 = 24 -> firstn 12 n1 = firstn 12 n2 ->
  decrypt crypto {| ciphertext := ct; nonce := n1; salt := s |} W e
  = decrypt crypto {| ciphertext := ct; nonce := n2; salt := s |} W e.
Proof.
  intros H1 H2 H. destruct (has_subtle crypto) eqn:Hc.
  - destruct (derived_key_schedule W s) as [rks Hk].
    rewrite !(decrypt_opened_24 crypto _ W e rks) by assumption.
    cbn [nonce ciphertext]. now rewrite H.
  - now rewrite !decrypt_unavailable.
Qed.



(** ** Failures of the parse stage *)

Lemma atob_error (s : jsstring) (err : JsError) :
  Base64.atob s = Throw err -> err = InvalidCharacterError.
Proof.
  unfold Base64.atob. destruct (_ =? 1); [congruence|].
  destruct (Base64.values _); congruence.
Qed.

Lemma JSON_parse_error (text : jsstring) (err : JsError) :
  JSON.parse text = Throw err -> err = SyntaxError.
Proof.
  unfold JSON.parse. destruct (JSON.parse_value _ _) as [[v r]|]; [|congruence].
  destruct (JSON.skip_ws r); congruence.
Qed.

Lemma decode_field_cases nts (v : JSON.value) (name : jsstring) :
  (v = JSON.JNull /\ decode_field nts v name = Throw TypeError)
  \/ (v <> JSON.JNull
      /\ (decode_field nts v name = Throw InvalidCharacterError
          \/ exists b, decode_field nts v name = Ok b)).
Proof.
  unfold decode_field.
  destruct v; cbn [get rbind];
    try (left; split; reflexivity);
    right; (split; [discriminate|]);
    match goal with
    | |- context [Base64.atob ?x] =>
        destruct (Base64.atob x) as [r|err] eqn:E; cbn [rbind];
        [right; eauto | left; now rewrite (atob_error _ _ E)]
    end.
Qed.

Lemma decode_field_thrown nts (v : JSON.value) (name : jsstring)
      (o : option JSON.value) (err : JsError) :
  get v name = Ok o ->
  Base64.atob (ToString_opt nts o) = Throw err ->
  decode_field nts v name = Throw InvalidCharacterError.
Proof.
  intros Hg H. unfold decode_field. rewrite Hg. cbn [rbind]. rewrite H.
  now rewrite (atob_error _ _ H).
Qed.

(** One field that [atob] rejects makes [base64ToEncryptedData] fail, with the
    error of [atob]. *)
Lemma base64ToEncryptedData_thrown nts (v : JSON.value) (name : jsstring)
      (o : option JSON.value) (err : JsError) :
  In name [js "ciphertext"; js "nonce"; js "salt"] ->
  get v name = Ok o ->
  Base64.atob (ToString_opt nts o) = Throw err ->
  base64ToEncryptedData nts v = Throw InvalidCharacterError.
Proof.
  intros Hin Hg H.
  assert (Hv : v <> JSON.JNull) by (intros ->; discriminate).
  pose proof (decode_field_thrown nts v name o err Hg H) as Hd.
  unfold base64ToEncryptedData.
  destruct (decode_field_cases nts v (js "ciphertext"))
    as [[? _]|[_ [E1|[c E1]]]]; [contradiction|now rewrite E1|].
  destruct (decode_field_cases nts v (js "nonce"))
    as [[? _]|[_ [E2|[n E2]]]]; [contradiction|now rewrite E1, E2|].
  destruct (decode_field_cases nts v (js "salt"))
    as [[? _]|[_ [E3|[s E3]]]]; [contradiction|now rewrite E1, E2, E3|].
  destruct Hin as [<-|[<-|[<-|[]]]]; congruence.
Qed.

Lemma base64ToEncryptedData_error nts (v : JSON.value) (err : JsError) :
  base64ToEncryptedData nts v = Throw err ->
  err = TypeError \/ err = InvalidCharacterError.
Proof.
  unfold base64ToEncryptedData.
  destruct (decode_field_cases nts v (js "ciphertext"))
    as [[_ ->]|[_ [->|[c ->]]]]; cbn [rbind]; try (intros [= <-]; auto).
  destruct (decode_field_cases nts v (js "nonce"))
    as [[_ ->]|[_ [->|[n ->]]]]; cbn [rbind]; try (intros [= <-]; auto).
  destruct (decode_field_cases nts v (js "salt"))
    as [[_ ->]|[_ [->|[s ->]]]]; cbn [rbind]; try (intros [= <-]; auto).
Qed.

Lemma parse_envelope_error nts (text : jsstring) (err : JsError) :
  parse_envelope nts text = Throw err ->
  err = SyntaxError \/ err = TypeError \/ err = InvalidCharacterError.
Proof.
  unfold parse_envelope. destruct (JSON.parse text) as [v|err'] eqn:E; cbn [rbind].
  - intros H. apply base64ToEncryptedData_error in H. tauto.
  - intros [= <-]. left. eapply JSON_parse_error; eauto.
Qed.

(** ** Text that is its own UTF-8 *)

Lemma encode_ascii (s : jsstring) :
  Forall (fun c => (c < 128)%N) s -> map Byte.to_N (TextEncoder.encode s) = s.
Proof.
  induction 1 as [|c s Hc _ IH]; [reflexivity|].
  cbn [TextEncoder.encode].
  unfold TextEncoder.is_high, TextEncoder.is_low, TextEncoder.utf8.
  settle_tests. cbn [app map]. rewrite IH. f_equal.
  apply to_N_byte_of_N. lia.
Qed.

(* ------------------------------------------------------------------ *)
(** * The claims *)

(** In a runtime with the Web Crypto API, [encrypt] returns the envelope
    sealed under the key derived from the password and the fresh salt. *)
Lemma encrypt_returns crypto pt pw e :
  has_subtle crypto = true ->
  exists rks,
    AES.key_schedule (derived_key pw (take 16 e)) = Some rks
    /\ encrypt crypto pt pw e
       = Ok (sealed rks (plaintext_bytes pt) (take 16 e) (take 24 (shift 16 e)),
             shift 24 (shift 16 e)).
Proof.
  intros H. destruct (derived_key_schedule pw (take 16 e)) as [rks Hk].
  exists rks. split; [exact Hk|]. now apply encrypt_sealed.
Qed.

(** C1. Round trip: for every plaintext byte sequence [P] (the empty one
    included), every password [W] and every state of the random source, in a
    runtime with the Web Crypto API [encrypt] returns an envelope, and
    [decrypt] of that envelope with the same password returns exactly [P]. *)
Theorem C1_round_trip crypto (P : bytes) (W : jsstring) (e : Entropy) :
  has_subtle crypto = true ->
  exists env e',
    encrypt crypto (Binary P) W e = Ok (env, e')
    /\ forall e2, decrypt crypto env W e2 = Ok (P, e2).
Proof.
  intros H. destruct (encrypt_returns crypto (Binary P) W e H) as (rks & Hk & He).
  eexists _, _. split; [exact He|].
  intros e2. exact (decrypt_sealed crypto rks _ _ _ W e2 H Hk (length_take _ _)).
Qed.

Lemma C1_round_trip_witness :
  has_subtle (Some {| subtle := true |}) = true
  /\ exists env e',
       encrypt (Some {| subtle := true |}) (Binary [x01; x02; xff]) (js "pw")
               (fun _ => x2a) = Ok (env, e')
       /\ forall e2, decrypt (Some {| subtle := true |}) env (js "pw") e2
                     = Ok ([x01; x02; xff], e2).
Proof.
  split; [reflexivity|].
  apply (C1_round_trip (Some {| subtle := true |}) [x01; x02; xff] (js "pw")
                       (fun _ => x2a)).
  reflexivity.
Defined.

(** C5. Every envelope that [encrypt] produces has a salt of exactly 16 bytes
    and a nonce of exactly 24 bytes, and in its base64 form the salt field
    decodes to 16 bytes and the nonce field to 24 bytes. *)
Theorem C5_salt_nonce_lengths crypto (pt : Plaintext) (W : jsstring) (e : Entropy) :
  has_subtle crypto = true ->
  exists env e',
    encrypt crypto pt W e = Ok (env, e')
    /\ length (salt env) = 16 /\ length (nonce env) = 24
    /\ exists b s n,
         encryptedDataToBase64 env = Ok b
         /\ Base64.atob (salt64 b) = Ok s /\ length s = 16
         /\ Base64.atob (nonce64 b) = Ok n /\ length n = 24.
Proof.
  intros H. destruct (encrypt_returns crypto pt W e H) as (rks & Hk & He).
  eexists _, _. split; [exact He|]. cbn [sealed salt nonce].
  rewrite !length_take. split; [reflexivity|]. split; [reflexivity|].
  eexists _, _, _. rewrite encryptedDataToBase64_ok.
  split; [reflexivity|]. cbn [base64_of salt64 nonce64 salt nonce].
  rewrite !atob_encode by apply bytes_are_binary.
  cbn [sealed salt nonce].
  repeat split; now rewrite length_map, length_take.
Qed.

Lemma C5_salt_nonce_lengths_witness :
  has_subtle (Some {| subtle := true |}) = true
  /\ exists env e',
       encrypt (Some {| subtle := true |}) (Text (js "poem")) (js "pw")
               (fun _ => x2a) = Ok (env, e')
       /\ length (salt env) = 16 /\ length (nonce env) = 24
       /\ exists b s n,
            encryptedDataToBase64 env = Ok b
            /\ Base64.atob (salt64 b) = Ok s /\ length s = 16
            /\ Base64.atob (nonce64 b) = Ok n /\ length n = 24.
Proof.
  split; [reflexivity|].
  apply (C5_salt_nonce_lengths (Some {| subtle := true |}) (Text (js "poem"))
                               (js "pw") (fun _ => x2a)).
  reflexivity.
Defined.

(** C9. For every plaintext and password, the ciphertext field of the
    envelope that [encrypt] produces is as long as the plaintext bytes plus 16,
    the size of the authentication tag. *)
Theorem C9_ciphertext_length crypto (pt : Plaintext) (W : jsstring) (e : Entropy) :
  has_subtle crypto = true ->
  exists env e',
    encrypt crypto pt W e = Ok (env, e')
    /\ length (ciphertext env) = length (plaintext_bytes pt) + 16.
Proof.
  intros H. destruct (encrypt_returns crypto pt W e H) as (rks & Hk & He).
  eexists _, _. split; [exact He|]. apply length_seal.
Qed.

Lemma C9_ciphertext_length_witness :
  has_subtle (Some {| subtle := true |}) = true
  /\ exists env e',
       encrypt (Some {| subtle := true |}) (Binary [x01; x02; xff]) (js "pw")
               (fun _ => x2a) = Ok (env, e')
       /\ length (ciphertext env) = 3 + 16.
Proof.
  split; [reflexivity|].
  apply (C9_ciphertext_length (Some {| subtle := true |}) (Binary [x01; x02; xff])
                              (js "pw") (fun _ => x2a)).
  reflexivity.
Defined.

(** C6. [deriveKey] with a given salt is a function of the password and the
    salt alone: whatever the state of the random source, it returns the same
    key and leaves the source untouched; the key has exactly 32 bytes; it is
    PBKDF2 with [ITERATIONS] = 100000 iterations of HMAC over SHA-256, whose
    digests have 256 bits. *)
Theorem C6_deriveKey_deterministic crypto (W : jsstring) (s : bytes)
        (e1 e2 : Entropy) :
  has_subtle crypto = true ->
  exists k,
    deriveKey crypto W (Some s) e1 = Ok ({| key := k; usedSalt := s |}, e1)
    /\ deriveKey crypto W (Some s) e2 = Ok ({| key := k; usedSalt := s |}, e2)
    /\ length k = 32
    /\ k = PBKDF2.derive (TextEncoder.encode W) s ITERATIONS 32
    /\ (100000 <= ITERATIONS)%N
    /\ forall m, 8 * length (SHA256.hash m) = 256.
Proof.
  intros H. exists (derived_key W s).
  rewrite !deriveKey_given by assumption.
  split; [reflexivity|]. split; [reflexivity|].
  split; [apply length_derived_key|]. split; [reflexivity|].
  split; [unfold ITERATIONS; lia|].
  intros m. now rewrite length_sha256.
Qed.

Lemma C6_deriveKey_deterministic_witness :
  has_subtle (Some {| subtle := true |}) = true
  /\ exists k,
       deriveKey (Some {| subtle := true |}) (js "pw") (Some (zeros 16)) (fun _ => x2a)
       = Ok ({| key := k; usedSalt := zeros 16 |}, fun _ => x2a)
       /\ deriveKey (Some {| subtle := true |}) (js "pw") (Some (zeros 16)) (fun _ => x07)
          = Ok ({| key := k; usedSalt := zeros 16 |}, fun _ => x07)
       /\ length k = 32
       /\ k = PBKDF2.derive (TextEncoder.encode (js "pw")) (zeros 16) ITERATIONS 32
       /\ (100000 <= ITERATIONS)%N
       /\ forall m, 8 * length (SHA256.hash m) = 256.
Proof.
  split; [reflexivity|].
  apply (C6_deriveKey_deterministic (Some {| subtle := true |}) (js "pw") (zeros 16)
                                    (fun _ => x2a) (fun _ => x07)).
  reflexivity.
Defined.

(** C8. The codec round trip is lossless: for every envelope (three arbitrary
    byte sequences), [encryptedDataToBase64] succeeds, [base64ToEncryptedData]
    of its result is the envelope byte for byte, and so is the envelope parsed
    from the JSON text of that result; the text is a function of the
    envelope's content alone and differs for envelopes that differ. *)
Theorem C8_codec_round_trip (number_to_string : jsstring -> jsstring)
        (E : EncryptedData) :
  exists b,
    encryptedDataToBase64 E = Ok b
    /\ base64ToEncryptedData number_to_string (object_of b) = Ok E
    /\ parse_envelope number_to_string (JSON_stringify b) = Ok E
    /\ forall E' b',
         encryptedDataToBase64 E' = Ok b' ->
         (JSON_stringify b = JSON_stringify b' <-> E = E').
Proof.
  exists (base64_of E). split; [apply encryptedDataToBase64_ok|].
  split; [apply base64ToEncryptedData_object|].
  split; [apply parse_envelope_serialized|].
  intros E' b' H'. rewrite encryptedDataToBase64_ok in H'. injection H' as <-.
  split.
  - intros H.
    pose proof (parse_envelope_serialized number_to_string E) as P1.
    pose proof (parse_envelope_serialized number_to_string E') as P2.
    rewrite H in P1. congruence.
  - now intros ->.
Qed.

Lemma C8_codec_round_trip_witness :
  exists b,
    encryptedDataToBase64
      {| ciphertext := [x9e; xe9; x65]; nonce := zeros 24; salt := zeros 16 |} = Ok b
    /\ parse_envelope (fun l => l) (JSON_stringify b)
       = Ok {| ciphertext := [x9e; xe9; x65]; nonce := zeros 24; salt := zeros 16 |}.
Proof.
  destruct (C8_codec_round_trip (fun l => l)
              {| ciphertext := [x9e; xe9; x65]; nonce := zeros 24; salt := zeros 16 |})
    as (b & H1 & _ & H3 & _).
  exists b. split; assumption.
Defined.

(** C10. [decrypt] reads only the first 12 bytes of a 24-byte nonce: two
    envelopes with the same ciphertext and salt whose 24-byte nonces agree on
    bytes 0 to 11 have the same outcome under every password, the same
    plaintext or the same failure. *)
Theorem C10_nonce_tail_inert crypto (W : jsstring) (ct s n1 n2 : bytes)
        (e : Entropy) :
  length n1 = 24 -> length n2 = 24 -> firstn 12 n1 = firstn 12 n2 ->
  decrypt crypto {| ciphertext := ct; nonce := n1; salt := s |} W e
  = decrypt crypto {| ciphertext := ct; nonce := n2; salt := s |} W e.
Proof. apply decrypt_nonce_prefix. Qed.

Lemma C10_nonce_tail_inert_witness :
  length (zeros 24) = 24 /\ length (zeros 12 ++ repeat xff 12) = 24
  /\ firstn 12 (zeros 24) = firstn 12 (zeros 12 ++ repeat xff 12)
  /\ decrypt (Some {| subtle := true |})
       {| ciphertext := zeros 20; nonce := zeros 24; salt := zeros 16 |}
       (js "pw") (fun _ => x2a)
     = decrypt (Some {| subtle := true |})
         {| ciphertext := zeros 20; nonce := zeros 12 ++ repeat xff 12;
            salt := zeros 16 |}
         (js "pw") (fun _ => x2a).
Proof.
  split; [reflexivity|]. split; [reflexivity|]. split; [reflexivity|].
  apply (C10_nonce_tail_inert (Some {| subtle := true |}) (js "pw") (zeros 20)
           (zeros 16) (zeros 24) (zeros 12 ++ repeat xff 12) (fun _ => x2a));
    reflexivity.
Defined.








(** C7 (as amended). The text-level wrappers compose with the byte-level
    operations: [decryptFromJSON] of the text made by [encryptToJSON], with
    the same password, returns the string whose code units are the plaintext
    bytes, one unit per byte.  For a text plaintext these are the bytes of its
    UTF-8 encoding, so the original text itself comes back when all its
    characters are ASCII. *)
Theorem C7_text_wrappers crypto (number_to_string : jsstring -> jsstring)
        (pt : Plaintext) (W : jsstring) (e : Entropy) :
  has_subtle crypto = true ->
  exists text e',
    encryptToJSON crypto pt W e = Ok (text, e')
    /\ (forall e2, decryptFromJSON crypto number_to_string text W e2
                   = Ok (map Byte.to_N (plaintext_bytes pt), e2))
    /\ (forall s, pt = Text s -> Forall (fun c => (c < 128)%N) s ->
                  map Byte.to_N (plaintext_bytes pt) = s).
Proof.
  intros H. destruct (encrypt_returns crypto pt W e H) as (rks & Hk & He).
  eexists _, _. rewrite encryptToJSON_stages, He. split; [reflexivity|]. split.
  - intros e2. rewrite decryptFromJSON_stages, parse_envelope_serialized.
    now rewrite (decrypt_sealed crypto rks _ _ _ W e2 H Hk (length_take _ _)).
  - intros s -> Hs. exact (encode_ascii s Hs).
Qed.

Lemma C7_text_wrappers_witness :
  has_subtle (Some {| subtle := true |}) = true
  /\ Forall (fun c => (c < 128)%N) (js "This is a secret message")
  /\ exists text e',
       encryptToJSON (Some {| subtle := true |})
                     (Text (js "This is a secret message"))
                     (js "MySecurePassword123!@#") (fun _ => x2a) = Ok (text, e')
       /\ decryptFromJSON (Some {| subtle := true |}) (fun l => l) text
                          (js "MySecurePassword123!@#") e'
          = Ok (js "This is a secret message", e').
Proof.
  split; [reflexivity|].
  assert (A : Forall (fun c => (c < 128)%N) (js "This is a secret message")).
  { repeat (constructor; [reflexivity|]). constructor. }
  split; [exact A|].
  destruct (C7_text_wrappers (Some {| subtle := true |}) (fun l => l)
              (Text (js "This is a secret message"))
              (js "MySecurePassword123!@#") (fun _ => x2a) eq_refl)
    as (text & e' & He & Hd & Hs).
  exists text, e'. split; [exact He|].
  rewrite Hd, (Hs _ eq_refl A). reflexivity.
Defined.

(** C7 as stated fails on non-ASCII text: for the one-letter text U+00E9 the
    wrappers return the two units 0xC3 0xA9, the bytes of its UTF-8 encoding,
    not the text. *)
Lemma C7_counterexample :
  exists text e',
    encryptToJSON (Some {| subtle := true |}) (Text [0xE9%N]) (js "pw")
                  (fun _ => x2a) = Ok (text, e')
    /\ decryptFromJSON (Some {| subtle := true |}) (fun l => l) text (js "pw") e'
       = Ok ([0xC3; 0xA9]%N, e')
    /\ ([0xC3; 0xA9]%N <> [0xE9]%N :> jsstring).
Proof.
  destruct (encrypt_returns (Some {| subtle := true |}) (Text [0xE9%N]) (js "pw")
              (fun _ => x2a) eq_refl) as (rks & Hk & He).
  eexists _, _. rewrite encryptToJSON_stages, He. split; [reflexivity|].
  split; [|discriminate].
  rewrite decryptFromJSON_stages, parse_envelope_serialized.
  rewrite (decrypt_sealed _ rks); [reflexivity|reflexivity|exact Hk|reflexivity].
Qed.

(** C3 (as amended). Whatever the password and the runtime, a stored text on
    which the parse stage fails makes [decryptFromJSON] fail with the same
    error, one of kind MalformedEnvelope and never [OperationError]; the parse
    stage takes neither password nor key and checks no tag.  It fails with
    [SyntaxError] on text that is not JSON, with [TypeError] on the text
    [null], and with [InvalidCharacterError] on a value that lacks one of the
    three fields and on a value with a field whose string form [atob] rejects.
    A [null] field is not rejected as such: it is read as the text "null",
    which is base64 for three bytes. *)
Theorem C3_malformed_rejected crypto (number_to_string : jsstring -> jsstring)
        (text W : jsstring) (e : Entropy) :
  (forall err,
      parse_envelope number_to_string text = Throw err ->
      decryptFromJSON crypto number_to_string text W e = Throw err
      /\ error_kind err = Some MalformedEnvelope
      /\ err <> OperationError)
  /\ (forall err,
        JSON.parse text = Throw err ->
        parse_envelope number_to_string text = Throw SyntaxError)
  /\ (JSON.parse text = Ok JSON.JNull ->
      parse_envelope number_to_string text = Throw TypeError)
  /\ (forall v name,
        JSON.parse text = Ok v ->
        In name [js "ciphertext"; js "nonce"; js "salt"] ->
        get v name = Ok None ->
        parse_envelope number_to_string text = Throw InvalidCharacterError)
  /\ (forall v name x err,
        JSON.parse text = Ok v ->
        In name [js "ciphertext"; js "nonce"; js "salt"] ->
        get v name = Ok (Some x) ->
        Base64.atob (ToString number_to_string x) = Throw err ->
        parse_envelope number_to_string text = Throw InvalidCharacterError)
  /\ Base64.atob (ToString number_to_string JSON.JNull) = Ok [158; 233; 101]%N.
Proof.
  split; [|split; [|split; [|split; [|split]]]].
  - intros err Herr. rewrite decryptFromJSON_stages, Herr.
    split; [reflexivity|].
    destruct (parse_envelope_error _ _ _ Herr) as [-> | [-> | ->]];
      split; (reflexivity || discriminate).
  - intros err Herr. unfold parse_envelope. rewrite Herr.
    now rewrite (JSON_parse_error _ _ Herr).
  - intros Hp. unfold parse_envelope. now rewrite Hp.
  - intros v name Hp Hin Hg. unfold parse_envelope. rewrite Hp. cbn [rbind].
    apply (base64ToEncryptedData_thrown _ v name None InvalidCharacterError Hin Hg).
    reflexivity.
  - intros v name x err Hp Hin Hg Ha. unfold parse_envelope. rewrite Hp.
    cbn [rbind].
    exact (base64ToEncryptedData_thrown _ v name (Some x) err Hin Hg Ha).
  - reflexivity.
Qed.

Lemma C3_malformed_rejected_witness :
  JSON.parse text_empty_object = Ok (JSON.JObject [])
  /\ JSON.parse (js "not json at all") = Throw SyntaxError
  /\ decryptFromJSON (Some {| subtle := true |}) (fun l => l)
                     text_empty_object (js "pw") (fun _ => x2a)
     = Throw InvalidCharacterError
  /\ decryptFromJSON (Some {| subtle := true |}) (fun l => l)
                     (js "not json at all") (js "pw") (fun _ => x2a)
     = Throw SyntaxError.
Proof.
  split; [reflexivity|]. split; [reflexivity|]. split.
  - destruct (C3_malformed_rejected (Some {| subtle := true |}) (fun l => l)
                text_empty_object (js "pw") (fun _ => x2a))
      as (Hfail & _ & _ & Hmissing & _).
    apply Hfail.
    apply (Hmissing (JSON.JObject []) (js "nonce")); [reflexivity| |reflexivity].
    right. left. reflexivity.
  - destruct (C3_malformed_rejected (Some {| subtle := true |}) (fun l => l)
                (js "not json at all") (js "pw") (fun _ => x2a))
      as (Hfail & Hsyntax & _).
    apply Hfail. apply (Hsyntax SyntaxError). reflexivity.
Defined.

(** The examples of the specification fail in the parse stage. *)
Lemma parse_envelope_examples (number_to_string : jsstring -> jsstring) :
  parse_envelope number_to_string text_empty_object = Throw InvalidCharacterError
  /\ parse_envelope number_to_string text_only_null_ciphertext
     = Throw InvalidCharacterError
  /\ parse_envelope number_to_string (js "not json at all") = Throw SyntaxError
  /\ parse_envelope number_to_string (js "{invalid json}") = Throw SyntaxError
  /\ parse_envelope number_to_string (js "null") = Throw TypeError.
Proof. repeat split; reflexivity. Qed.

(** C3 as stated fails on an object with a [null] field: with the other two
    fields in place, the text parses to an envelope whose ciphertext is the
    three bytes that "null" stands for in base64, and [decryptFromJSON] fails
    later, in the cipher, with [OperationError] (AuthenticationFailed). *)
Lemma C3_counterexample :
  parse_envelope (fun l => l) text_null_ciphertext
  = Ok {| ciphertext := [x9e; xe9; x65]; nonce := zeros 24; salt := zeros 16 |}
  /\ decryptFromJSON (Some {| subtle := true |}) (fun l => l)
                     text_null_ciphertext (js "pw") (fun _ => x2a)
     = Throw OperationError
  /\ error_kind OperationError = Some AuthenticationFailed.
Proof.
  assert (P : parse_envelope (fun l => l) text_null_ciphertext
              = Ok {| ciphertext := [x9e; xe9; x65]; nonce := zeros 24;
                      salt := zeros 16 |}) by (vm_compute; reflexivity).
  split; [exact P|]. split; [|reflexivity].
  rewrite decryptFromJSON_stages, P.
  destruct (derived_key_schedule (js "pw") (zeros 16)) as [rks Hk].
  rewrite (decrypt_record (Some {| subtle := true |}) [x9e; xe9; x65]
             (zeros 24) (zeros 16) (js "pw") (fun _ => x2a) rks eq_refl Hk eq_refl).
  unfold lift. rewrite decrypt_AES_GCM_short; [reflexivity|].
  cbn [length]. lia.
Qed.

(* ------------------------------------------------------------------ *)
(** * Further properties of [crypto-utils.ts] *)

(** ** A runtime without the Web Crypto API *)

Lemma secretBox_unavailable crypto data k n e :
  has_subtle crypto = false ->
  secretBox crypto data k n e = Throw CryptoUnavailableError.
Proof. intros H. unfold secretBox. now rewrite H. Qed.

(** X1. Without [crypto.subtle] every operation of the module throws the error
    'Web Crypto API not available', whatever its arguments.
    [decryptFromJSON] parses first: on a text that the parse stage rejects
    the error of the parse stage is the one thrown. *)
Theorem unavailable_everywhere crypto nts (pt : Plaintext) (env : EncryptedData)
        (text pw : jsstring) (data k : bytes) (s n : option bytes) (e : Entropy) :
  has_subtle crypto = false ->
  deriveKey crypto pw s e = Throw CryptoUnavailableError
  /\ secretBox crypto data k n e = Throw CryptoUnavailableError
  /\ secretBoxOpen crypto data k = Throw CryptoUnavailableError
  /\ encrypt crypto pt pw e = Throw CryptoUnavailableError
  /\ decrypt crypto env pw e = Throw CryptoUnavailableError
  /\ encryptToJSON crypto pt pw e = Throw CryptoUnavailableError
  /\ decryptFromJSON crypto nts text pw e
     = match parse_envelope nts text with
       | Ok _ => Throw CryptoUnavailableError
       | Throw err => Throw err
       end.
Proof.
  intros H.
  split; [exact (deriveKey_unavailable crypto pw s e H)|].
  split; [exact (secretBox_unavailable crypto data k n e H)|].
  split; [exact (secretBoxOpen_unavailable crypto data k H)|].
  split; [exact (encrypt_unavailable crypto pt pw e H)|].
  split; [exact (decrypt_unavailable crypto env pw e H)|].
  split.
  - rewrite encryptToJSON_stages.
    rewrite (encrypt_unavailable crypto pt pw e H). reflexivity.
  - rewrite decryptFromJSON_stages.
    destruct (parse_envelope nts text) as [env'|err]; [|reflexivity].
    rewrite (decrypt_unavailable crypto env' pw e H). reflexivity.
Qed.

Lemma unavailable_everywhere_witness :
  has_subtle (Some {| subtle := false |}) = false
  /\ encrypt (Some {| subtle := false |}) (Text (js "secret")) (js "pw")
             (fun _ => x2a) = Throw CryptoUnavailableError
  /\ decryptFromJSON (Some {| subtle := false |}) (fun l => l)
                     text_empty_object (js "pw") (fun _ => x2a)
     = Throw InvalidCharacterError.
Proof.
  split; [reflexivity|].
  destruct (unavailable_everywhere (Some {| subtle := false |}) (fun l => l)
              (Text (js "secret"))
              {| ciphertext := []; nonce := []; salt := [] |}
              text_empty_object (js "pw") [] [] None None (fun _ => x2a) eq_refl)
    as (_ & _ & _ & He & _ & _ & Hd).
  split; [exact He|]. exact Hd.
Defined.

(** ** The random bytes *)

Lemma take_ext (n : nat) (e1 e2 : Entropy) :
  (forall i, i < n -> e1 i = e2 i) -> take n e1 = take n e2.
Proof.
  intros H. unfold take. apply map_ext_in. intros i Hi.
  apply in_seq in Hi. apply H. lia.
Qed.

Lemma firstn_seq_le (k n s : nat) :
  k <= n -> firstn k (seq s n) = seq s k.
Proof.
  revert n s. induction k as [|k IH]; intros [|n] s H; try reflexivity; [lia|].
  cbn [seq firstn]. f_equal. apply IH. lia.
Qed.

Lemma firstn_take (k n : nat) (e : Entropy) :
  k <= n -> firstn k (take n e) = take k e.
Proof.
  intros H. unfold take. now rewrite firstn_map, firstn_seq_le.
Qed.

(** The result of [decrypt], which reads no random bytes. *)
Lemma decrypt_lift crypto env pw :
  exists r : result bytes, forall e, decrypt crypto env pw e = lift r e.
Proof.
  destruct (has_subtle crypto) eqn:H.
  - destruct (derived_key_schedule pw (salt env)) as [rks Hk].
    eexists. intros e. exact (decrypt_opened crypto env pw e rks H Hk).
  - exists (Throw CryptoUnavailableError). intros e.
    exact (decrypt_unavailable crypto env pw e H).
Qed.

(** X2. [encrypt] draws 40 random bytes, the 16 of the salt and then the 24 of the
    nonce, whatever the plaintext and the password; [decrypt] and
    [decryptFromJSON] draw none: their result is the same in every state of
    the random source, which they leave as it is. *)
Theorem randomness_accounting crypto nts (pt : Plaintext) (pw : jsstring)
        (e : Entropy) :
  has_subtle crypto = true ->
  (exists env e',
      encrypt crypto pt pw e = Ok (env, e')
      /\ salt env = take 16 e
      /\ nonce env = take 24 (shift 16 e)
      /\ forall i, e' i = e (40 + i))
  /\ (forall env, exists r : result bytes,
         forall e2, decrypt crypto env pw e2 = lift r e2)
  /\ (forall text, exists r : result jsstring,
         forall e2, decryptFromJSON crypto nts text pw e2 = lift r e2).
Proof.
  intros H. split; [|split].
  - destruct (encrypt_returns crypto pt pw e H) as (rks & _ & He).
    eexists _, _. split; [exact He|]. cbn [sealed salt nonce].
    split; [reflexivity|]. split; [reflexivity|].
    intros i. reflexivity.
  - intros env. apply decrypt_lift.
  - intros text.
    destruct (parse_envelope nts text) as [env|err] eqn:P.
    + destruct (decrypt_lift crypto env pw) as [r Hr].
      exists (rbind r (fun p => Ok (map Byte.to_N p))). intros e2.
      rewrite decryptFromJSON_stages, P, Hr. now destruct r.
    + exists (Throw err). intros e2.
      now rewrite decryptFromJSON_stages, P.
Qed.

Lemma randomness_accounting_witness :
  has_subtle (Some {| subtle := true |}) = true
  /\ exists env e',
       encrypt (Some {| subtle := true |}) (Text (js "secret")) (js "pw")
               (fun i => byte_of_N (N.of_nat i)) = Ok (env, e')
       /\ salt env = map (fun i => byte_of_N (N.of_nat i)) (seq 0 16)
       /\ nonce env = map (fun i => byte_of_N (N.of_nat i)) (seq 16 24)
       /\ e' 0 = x28.
Proof.
  split; [reflexivity|].
  destruct (randomness_accounting (Some {| subtle := true |}) (fun l => l)
              (Text (js "secret")) (js "pw")
              (fun i => byte_of_N (N.of_nat i)) eq_refl)
    as ((env & e' & He & Hs & Hn & Ht) & _).
  exists env, e'. split; [exact He|].
  split; [rewrite Hs; reflexivity|].
  split; [rewrite Hn; reflexivity|].
  rewrite Ht. reflexivity.
Defined.

(** X3. The nonce bytes 12 to 23 that [encrypt] draws are stored in the
    envelope but do not reach the cipher: two runs whose random bytes agree
    on the salt and on the first 12 bytes of the nonce produce the same
    ciphertext field. *)
Theorem encrypt_ignores_nonce_tail crypto (pt : Plaintext) (pw : jsstring)
        (e1 e2 : Entropy) :
  has_subtle crypto = true ->
  (forall i, i < 28 -> e1 i = e2 i) ->
  exists env1 r1 env2 r2,
    encrypt crypto pt pw e1 = Ok (env1, r1)
    /\ encrypt crypto pt pw e2 = Ok (env2, r2)
    /\ salt env1 = salt env2
    /\ ciphertext env1 = ciphertext env2.
Proof.
  intros H Hagree.
  assert (Hs : take 16 e1 = take 16 e2).
  { apply take_ext. intros i Hi. apply Hagree. lia. }
  assert (Hn : firstn 12 (take 24 (shift 16 e1))
               = firstn 12 (take 24 (shift 16 e2))).
  { rewrite !firstn_take by lia. apply take_ext. intros i Hi.
    unfold shift. apply Hagree. lia. }
  destruct (encrypt_returns crypto pt pw e1 H) as (rks1 & Hk1 & He1).
  destruct (encrypt_returns crypto pt pw e2 H) as (rks2 & Hk2 & He2).
  rewrite Hs, Hk2 in Hk1. injection Hk1 as <-.
  eexists _, _, _, _. split; [exact He1|]. split; [exact He2|].
  cbn [sealed salt ciphertext]. split; [exact Hs|].
  rewrite Hn. reflexivity.
Qed.

Lemma encrypt_ignores_nonce_tail_witness :
  has_subtle (Some {| subtle := true |}) = true
  /\ (forall i, i < 28 ->
        (fun _ : nat => x2a) i = (fun j => if j <? 28 then x2a else x00) i)
  /\ exists env1 r1 env2 r2,
       encrypt (Some {| subtle := true |}) (Text (js "secret")) (js "pw")
               (fun _ => x2a) = Ok (env1, r1)
       /\ encrypt (Some {| subtle := true |}) (Text (js "secret")) (js "pw")
                  (fun j => if j <? 28 then x2a else x00) = Ok (env2, r2)
       /\ salt env1 = salt env2
       /\ ciphertext env1 = ciphertext env2.
Proof.
  assert (A : forall i, i < 28 ->
                (fun _ : nat => x2a) i = (fun j => if j <? 28 then x2a else x00) i).
  { intros i Hi. apply Nat.ltb_lt in Hi. cbv beta. rewrite Hi. reflexivity. }
  split; [reflexivity|]. split; [exact A|].
  exact (encrypt_ignores_nonce_tail (Some {| subtle := true |})
           (Text (js "secret")) (js "pw") (fun _ => x2a)
           (fun j => if j <? 28 then x2a else x00) eq_refl A).
Defined.

(** ** What [decrypt] reads of an envelope *)

(** X4. [decrypt] joins nonce and ciphertext before it takes them apart again at
    byte 24: where the envelope draws the line between its two fields is not
    checked.  Any other division of the 24 + n + 16 bytes of an envelope made
    by [encrypt] decrypts to the same plaintext. *)
Theorem decrypt_field_boundary crypto (pt : Plaintext) (pw : jsstring)
        (e : Entropy) :
  has_subtle crypto = true ->
  exists env e',
    encrypt crypto pt pw e = Ok (env, e')
    /\ forall (k : nat) (e2 : Entropy),
         decrypt crypto {| ciphertext := skipn k (nonce env) ++ ciphertext env;
                           nonce := firstn k (nonce env);
                           salt := salt env |} pw e2
         = Ok (plaintext_bytes pt, e2).
Proof.
  intros H. destruct (encrypt_returns crypto pt pw e H) as (rks & Hk & He).
  eexists _, _. split; [exact He|]. intros k e2.
  cbn [sealed salt nonce ciphertext].
  pose proof (decrypt_sealed crypto rks (plaintext_bytes pt) (take 16 e)
                (take 24 (shift 16 e)) pw e2 H Hk (length_take _ _)) as Hd.
  rewrite <- Hd. unfold decrypt. cbn [sealed salt nonce ciphertext].
  rewrite app_assoc, firstn_skipn. reflexivity.
Qed.

Lemma decrypt_field_boundary_witness :
  has_subtle (Some {| subtle := true |}) = true
  /\ exists env e',
       encrypt (Some {| subtle := true |}) (Binary [x01; x02]) (js "pw")
               (fun _ => x2a) = Ok (env, e')
       /\ decrypt (Some {| subtle := true |})
                  {| ciphertext := skipn 12 (nonce env) ++ ciphertext env;
                     nonce := firstn 12 (nonce env);
                     salt := salt env |} (js "pw") e'
          = Ok ([x01; x02], e').
Proof.
  split; [reflexivity|].
  destruct (decrypt_field_boundary (Some {| subtle := true |}) (Binary [x01; x02])
              (js "pw") (fun _ => x2a) eq_refl) as (env & e' & He & Hd).
  exists env, e'. split; [exact He|]. exact (Hd 12 e').
Defined.

(** X5. An envelope whose nonce and ciphertext hold fewer than 40 bytes together
    (24 for the nonce, 16 for the tag) is rejected with [OperationError]
    whatever the password, the envelope of three empty fields included; so is
    a stored text that parses to such an envelope. *)
Theorem decrypt_short_envelope crypto nts (env : EncryptedData)
        (text pw : jsstring) (e : Entropy) :
  has_subtle crypto = true ->
  length (nonce env) + length (ciphertext env) < 40 ->
  decrypt crypto env pw e = Throw OperationError
  /\ (parse_envelope nts text = Ok env ->
      decryptFromJSON crypto nts text pw e = Throw OperationError).
Proof.
  intros H Hlen.
  assert (Hd : decrypt crypto env pw e = Throw OperationError).
  { destruct (derived_key_schedule pw (salt env)) as [rks Hk].
    rewrite (decrypt_opened crypto env pw e rks H Hk).
    unfold lift. rewrite decrypt_AES_GCM_short; [reflexivity|].
    rewrite length_skipn, length_app. lia. }
  split; [exact Hd|].
  intros P. rewrite decryptFromJSON_stages, P, Hd. reflexivity.
Qed.

Lemma decrypt_short_envelope_witness :
  has_subtle (Some {| subtle := true |}) = true
  /\ length (nonce {| ciphertext := []; nonce := []; salt := [] |})
     + length (ciphertext {| ciphertext := []; nonce := []; salt := [] |}) < 40
  /\ parse_envelope (fun l => l) text_empty_fields
     = Ok {| ciphertext := []; nonce := []; salt := [] |}
  /\ decryptFromJSON (Some {| subtle := true |}) (fun l => l) text_empty_fields
                     (js "pw") (fun _ => x2a) = Throw OperationError.
Proof.
  assert (L : length (nonce {| ciphertext := []; nonce := []; salt := [] |})
              + length (ciphertext {| ciphertext := []; nonce := []; salt := [] |})
              < 40) by (simpl; lia).
  assert (P : parse_envelope (fun l => l) text_empty_fields
              = Ok {| ciphertext := []; nonce := []; salt := [] |})
    by (vm_compute; reflexivity).
  split; [reflexivity|]. split; [exact L|]. split; [exact P|].
  exact (proj2 (decrypt_short_envelope (Some {| subtle := true |}) (fun l => l)
                  {| ciphertext := []; nonce := []; salt := [] |}
                  text_empty_fields (js "pw") (fun _ => x2a) eq_refl L) P).
Defined.




(** ** [secretBox] and [secretBoxOpen] *)

#[local] Transparent AES.key_schedule.

Lemma key_schedule_length (k : bytes) :
  In (length k) [16; 24; 32] -> exists rks, AES.key_schedule k = Some rks.
Proof.
  intros H. unfold AES.key_schedule.
  destruct H as [<- | [<- | [<- | []]]]; cbn [Nat.eqb orb]; eauto.
Qed.

Lemma key_schedule_other (k : bytes) :
  ~ In (length k) [16; 24; 32] -> AES.key_schedule k = None.
Proof.
  intros H. unfold AES.key_schedule.
  destruct (Nat.eqb_spec (length k) 16) as [E|_]; [exfalso; apply H; left; auto|].
  destruct (Nat.eqb_spec (length k) 24) as [E|_];
    [exfalso; apply H; right; left; auto|].
  destruct (Nat.eqb_spec (length k) 32) as [E|_];
    [exfalso; apply H; right; right; left; auto|].
  reflexivity.
Qed.

#[local] Opaque AES.key_schedule.

Lemma secretBox_sealed crypto (p k : bytes) (n : option bytes) (e : Entropy)
      (rks : list AES.state) :
  has_subtle crypto = true ->
  AES.key_schedule k = Some rks ->
  (forall x, n = Some x -> length x = 24) ->
  secretBox crypto p k n e
  = Ok (match n with Some x => x | None => take 24 e end
        ++ GCM.seal rks (firstn 12 match n with Some x => x | None => take 24 e end)
                    [] p,
        match n with Some _ => e | None => shift 24 e end).
Proof.
  intros H Hk Hn. unfold secretBox. rewrite H. cbn [negb].
  destruct n as [x|]; unfold bind at 1;
    [unfold ret at 1; pose proof (Hn x eq_refl) as L
    |unfold getRandomValues at 1; change NONCE_LENGTH with 24;
     pose proof (length_take 24 e) as L];
    unfold bind at 1; unfold lift at 1; unfold Subtle.importKey_AES; rewrite Hk;
    unfold bind at 1; unfold lift at 1; unfold Subtle.encrypt_AES_GCM;
    rewrite length_firstn, L; reflexivity.
Qed.

(** X7. With a key of 16 or 32 bytes and a nonce of 24 bytes, given or drawn,
    [secretBox] returns the nonce followed by the sealed data, 40 bytes more
    than the plaintext, and [secretBoxOpen] with the same key returns the
    plaintext. *)
Theorem secretBox_round_trip crypto (p k : bytes) (n : option bytes) (e : Entropy) :
  has_subtle crypto = true ->
  length k = 16 \/ length k = 32 ->
  (forall x, n = Some x -> length x = 24) ->
  exists box e',
    secretBox crypto p k n e = Ok (box, e')
    /\ length box = 24 + length p + 16
    /\ firstn 24 box = match n with Some x => x | None => take 24 e end
    /\ secretBoxOpen crypto box k = Ok p.
Proof.
  intros H Hlen Hn.
  destruct (key_schedule_length k) as [rks Hk].
  { destruct Hlen as [-> | ->]; cbn [In]; auto. }
  assert (L : length match n with Some x => x | None => take 24 e end = 24).
  { destruct n as [x|]; [now apply Hn|apply length_take]. }
  eexists _, _. split; [exact (secretBox_sealed crypto p k n e rks H Hk Hn)|].
  set (used := match n with Some x => x | None => take 24 e end) in *.
  split; [rewrite length_app, length_seal; lia|].
  split; [now rewrite firstn_exact|].
  unfold secretBoxOpen. rewrite H. cbn [negb].
  unfold Subtle.importKey_AES. rewrite Hk. cbn [rbind].
  change NONCE_LENGTH with 24. rewrite firstn_exact, skipn_exact by assumption.
  apply decrypt_AES_GCM_seal.
  intros E. apply (f_equal (@length byte)) in E.
  rewrite length_firstn, L in E. discriminate.
Qed.

Lemma secretBox_round_trip_witness :
  has_subtle (Some {| subtle := true |}) = true
  /\ (length (zeros 16) = 16 \/ length (zeros 16) = 32)
  /\ exists box e',
       secretBox (Some {| subtle := true |}) [x68; x69] (zeros 16) None
                 (fun _ => x2a) = Ok (box, e')
       /\ length box = 42
       /\ secretBoxOpen (Some {| subtle := true |}) box (zeros 16) = Ok [x68; x69].
Proof.
  split; [reflexivity|]. split; [left; reflexivity|].
  destruct (secretBox_round_trip (Some {| subtle := true |}) [x68; x69]
              (zeros 16) None (fun _ => x2a) eq_refl (or_introl eq_refl))
    as (box & e' & Hb & Hl & _ & Ho).
  { intros x Hx. discriminate Hx. }
  exists box, e'. split; [exact Hb|]. split; [exact Hl|]. exact Ho.
Defined.

(** X8. A key that has neither 16 nor 24 nor 32 bytes is refused by [importKey]:
    [secretBox] and [secretBoxOpen] throw [DataError], whatever the data. *)
Theorem secretBox_key_length crypto (p box k : bytes) (n : option bytes)
        (e : Entropy) :
  has_subtle crypto = true ->
  ~ In (length k) [16; 24; 32] ->
  secretBox crypto p k n e = Throw DataError
  /\ secretBoxOpen crypto box k = Throw DataError.
Proof.
  intros H Hk. apply key_schedule_other in Hk. split.
  - unfold secretBox. rewrite H. cbn [negb]. unfold bind at 1.
    destruct (match n with Some s => ret s | None => getRandomValues NONCE_LENGTH end e)
      as [[used e']|err] eqn:E.
    + unfold bind at 1. unfold lift at 1. unfold Subtle.importKey_AES.
      rewrite Hk. reflexivity.
    + destruct n; discriminate E.
  - unfold secretBoxOpen. rewrite H. cbn [negb].
    unfold Subtle.importKey_AES. rewrite Hk. reflexivity.
Qed.

Lemma secretBox_key_length_witness :
  has_subtle (Some {| subtle := true |}) = true
  /\ ~ In (length (zeros 31)) [16; 24; 32]
  /\ secretBox (Some {| subtle := true |}) [x68; x69] (zeros 31) None
               (fun _ => x2a) = Throw DataError
  /\ secretBoxOpen (Some {| subtle := true |}) (zeros 64) (zeros 31)
     = Throw DataError.
Proof.
  assert (A : ~ In (length (zeros 31)) [16; 24; 32]).
  { simpl. intros [E|[E|[E|[]]]]; discriminate E. }
  split; [reflexivity|]. split; [exact A|].
  exact (secretBox_key_length (Some {| subtle := true |}) [x68; x69] (zeros 64)
           (zeros 31) None (fun _ => x2a) eq_refl A).
Defined.

(** ** [deriveKey] with a fresh salt *)

(** X9. Without a salt [deriveKey] draws 16 random bytes for it and returns them
    with a key of 32 bytes; called again with the returned salt it returns
    the same key and draws nothing. *)
Theorem deriveKey_fresh_then_given crypto (pw : jsstring) (e : Entropy) :
  has_subtle crypto = true ->
  exists dk e',
    deriveKey crypto pw None e = Ok (dk, e')
    /\ usedSalt dk = take 16 e
    /\ length (key dk) = 32
    /\ (forall i, e' i = e (16 + i))
    /\ forall e2, deriveKey crypto pw (Some (usedSalt dk)) e2 = Ok (dk, e2).
Proof.
  intros H. eexists _, _.
  split; [exact (deriveKey_fresh crypto pw e H)|]. cbn [usedSalt key].
  split; [reflexivity|]. split; [apply length_derived_key|].
  split; [intros i; reflexivity|].
  intros e2. exact (deriveKey_given crypto pw (take 16 e) e2 H).
Qed.

Lemma deriveKey_fresh_then_given_witness :
  has_subtle (Some {| subtle := true |}) = true
  /\ exists dk e',
       deriveKey (Some {| subtle := true |}) (js "pw") None (fun _ => x2a)
       = Ok (dk, e')
       /\ usedSalt dk = take 16 (fun _ => x2a)
       /\ deriveKey (Some {| subtle := true |}) (js "pw") (Some (usedSalt dk))
                    (fun _ => x00) = Ok (dk, fun _ => x00).
Proof.
  split; [reflexivity|].
  destruct (deriveKey_fresh_then_given (Some {| subtle := true |}) (js "pw")
              (fun _ => x2a) eq_refl) as (dk & e' & Hd & Hs & _ & _ & Hg).
  exists dk, e'. split; [exact Hd|]. split; [exact Hs|]. exact (Hg (fun _ => x00)).
Defined.

(** ** The size and the alphabet of the stored text *)

Lemma length_base64_encode (l : list N) :
  length (Base64.encode l) = 4 * ((length l + 2) / 3).
Proof.
  induction l as [|a|a b|a b c rest IH] using list_ind3; try reflexivity.
  cbn [Base64.encode length]. rewrite IH.
  replace (S (S (S (length rest))) + 2) with (length rest + 2 + 1 * 3) by lia.
  rewrite Nat.div_add by discriminate. lia.
Qed.

Lemma base64_encode_range (l : list N) :
  Forall (fun c => (43 <= c <= 122)%N) (Base64.encode l).
Proof.
  rewrite encode_sextets. apply Forall_app. split.
  - apply Forall_map, Forall_forall. intros v _.
    destruct (char_of_cases v) as [[H1 E]|[[H1 E]|[[H1 E]|[[H1 E]|[H1 E]]]]]; lia.
  - destruct (padding_cases l) as [[-> _]|[[-> _]|[-> _]]];
      repeat constructor; unfold Base64.pad_char; lia.
Qed.

Lemma JSON_stringify_base64 (data : EncryptedData) :
  JSON_stringify (base64_of data)
  = [123%N] ++ quoted "ciphertext" ++ [58%N]
    ++ ([34%N] ++ ciphertext64 (base64_of data) ++ [34%N])
    ++ [44%N] ++ quoted "nonce" ++ [58%N]
    ++ ([34%N] ++ nonce64 (base64_of data) ++ [34%N])
    ++ [44%N] ++ quoted "salt" ++ [58%N]
    ++ ([34%N] ++ salt64 (base64_of data) ++ [34%N])
    ++ [125%N].
Proof.
  unfold JSON_stringify, JSON.quote, base64_of.
  cbn [ciphertext64 nonce64 salt64].
  rewrite !(quote_body_plain (Base64.encode _)) by apply encode_plain.
  reflexivity.
Qed.

(** X10. The text that [encryptToJSON] returns has 94 code units around the
    base64 of the ciphertext, 4 for every 3 bytes of plaintext and tag, and
    is made of printable ASCII characters only, none of them white space. *)
Theorem stored_text_size crypto (pt : Plaintext) (pw : jsstring) (e : Entropy) :
  has_subtle crypto = true ->
  exists text e',
    encryptToJSON crypto pt pw e = Ok (text, e')
    /\ length text = 94 + 4 * ((length (plaintext_bytes pt) + 18) / 3)
    /\ Forall (fun c => (34 <= c <= 125)%N) text.
Proof.
  intros H. destruct (encrypt_returns crypto pt pw e H) as (rks & Hk & He).
  eexists _, _. rewrite encryptToJSON_stages, He. split; [reflexivity|].
  rewrite JSON_stringify_base64. unfold base64_of.
  cbn [sealed ciphertext nonce salt ciphertext64 nonce64 salt64]. split.
  - rewrite !length_app, !length_base64_encode, !length_map.
    rewrite length_seal, !length_take.
    change (length (quoted "ciphertext")) with 12.
    change (length (quoted "nonce")) with 7.
    change (length (quoted "salt")) with 6.
    cbn [length].
    change ((24 + 2) / 3) with 8. change ((16 + 2) / 3) with 6.
    replace (length (plaintext_bytes pt) + 16 + 2)
      with (length (plaintext_bytes pt) + 18) by lia.
    lia.
  - assert (R : forall l, Forall (fun c => (34 <= c <= 125)%N) (Base64.encode l)).
    { intros l. eapply Forall_impl; [|apply base64_encode_range].
      cbv beta. intros c Hc. lia. }
    repeat (apply Forall_app; split);
      try apply R; repeat constructor; vm_compute; discriminate.
Qed.

Lemma stored_text_size_witness :
  has_subtle (Some {| subtle := true |}) = true
  /\ exists text e',
       encryptToJSON (Some {| subtle := true |}) (Text (js "secret")) (js "pw")
                     (fun _ => x2a) = Ok (text, e')
       /\ length text = 126.
Proof.
  split; [reflexivity|].
  destruct (stored_text_size (Some {| subtle := true |}) (Text (js "secret"))
              (js "pw") (fun _ => x2a) eq_refl) as (text & e' & He & Hl & _).
  exists text, e'. split; [exact He|]. rewrite Hl. reflexivity.
Defined.

(** X11. [encryptedDataToBase64] never throws: the strings it hands to [btoa] are
    made of bytes.  Every field of its result has four characters for every
    three bytes, the last group padded, all of them letters, digits, plus,
    slash or the equals sign. *)
Theorem encryptedDataToBase64_total (data : EncryptedData) :
  exists b,
    encryptedDataToBase64 data = Ok b
    /\ length (ciphertext64 b) = 4 * ((length (ciphertext data) + 2) / 3)
    /\ length (nonce64 b) = 4 * ((length (nonce data) + 2) / 3)
    /\ length (salt64 b) = 4 * ((length (salt data) + 2) / 3)
    /\ Forall (fun c => Base64.value_of c <> None \/ c = Base64.pad_char)
              (ciphertext64 b ++ nonce64 b ++ salt64 b).
Proof.
  exists (base64_of data). split; [apply encryptedDataToBase64_ok|].
  unfold base64_of. cbn [ciphertext64 nonce64 salt64].
  rewrite !length_base64_encode, !length_map.
  repeat (split; [reflexivity|]).
  assert (R : forall l, Forall (fun a => (a < 256)%N) l ->
                        Forall (fun c => Base64.value_of c <> None
                                         \/ c = Base64.pad_char)
                               (Base64.encode l)).
  { intros l Hl. rewrite encode_sextets. apply Forall_app. split.
    - apply Forall_map. eapply Forall_impl; [|apply sextets_lt, Hl].
      cbv beta. intros v Hv. left. now rewrite value_of_char_of.
    - destruct (padding_cases l) as [[-> _]|[[-> _]|[-> _]]];
        repeat constructor; now right. }
  repeat (apply Forall_app; split); apply R, bytes_are_binary.
Qed.

(** ** What [base64ToEncryptedData] accepts *)

Lemma filter_idem {A} (p : A -> bool) (l : list A) :
  filter p (filter p l) = filter p l.
Proof.
  induction l as [|x l IH]; [reflexivity|].
  cbn [filter]. destruct (p x) eqn:E; [|exact IH].
  cbn [filter]. now rewrite E, IH.
Qed.

Lemma atob_without_whitespace (s : jsstring) :
  Base64.atob s = Base64.atob (without_whitespace s).
Proof. unfold Base64.atob, without_whitespace. now rewrite filter_idem. Qed.

Lemma atob_unpadded (b : bytes) : Base64.atob (unpadded b) = Ok (map Byte.to_N b).
Proof.
  unfold Base64.atob, unpadded.
  rewrite filter_all
    by (apply Forall_map, Forall_forall; intros v _;
        now rewrite (proj1 (char_of_facts v))).
  assert (S : Base64.strip_padding (map Base64.char_of (sextets (map Byte.to_N b)))
              = map Base64.char_of (sextets (map Byte.to_N b))).
  { unfold Base64.strip_padding.
    destruct (_ =? 0); [|reflexivity].
    destruct (rev _) as [|p' [|q r]] eqn:R; try reflexivity.
    now rewrite (rev_chars_head _ _ _ R). }
  rewrite S, sextets_length_mod.
  rewrite values_chars by apply sextets_lt, bytes_are_binary.
  now rewrite decode_sextets by apply bytes_are_binary.
Qed.

Lemma atob_lenient (s : jsstring) (b : bytes) :
  lenient_base64 s b -> Base64.atob s = Ok (map Byte.to_N b).
Proof.
  intros [E|E]; rewrite atob_without_whitespace, E.
  - apply atob_encode, bytes_are_binary.
  - apply atob_unpadded.
Qed.

(** X12. The fields of a stored envelope are read the way [atob] reads: ASCII
    white space inside a field is passed over and the padding may be left
    out; other members of the object are not looked at, and of members with
    the same name the last one counts. *)
Theorem base64ToEncryptedData_lenient nts (ms : list (jsstring * JSON.value))
        (c n s : jsstring) (env : EncryptedData) :
  JSON.lookup (js "ciphertext") ms = Some (JSON.JString c) ->
  JSON.lookup (js "nonce") ms = Some (JSON.JString n) ->
  JSON.lookup (js "salt") ms = Some (JSON.JString s) ->
  lenient_base64 c (ciphertext env) ->
  lenient_base64 n (nonce env) ->
  lenient_base64 s (salt env) ->
  base64ToEncryptedData nts (JSON.JObject ms) = Ok env.
Proof.
  intros Lc Ln Ls Hc Hn Hs.
  unfold base64ToEncryptedData, decode_field, get. cbn [rbind].
  rewrite Lc, Ln, Ls. cbn [ToString_opt ToString].
  rewrite (atob_lenient _ _ Hc), (atob_lenient _ _ Hn), (atob_lenient _ _ Hs).
  cbn [rbind]. rewrite !stringToBytes_chars. now destruct env.
Qed.

Lemma base64ToEncryptedData_lenient_witness :
  base64ToEncryptedData (fun l => l)
    (JSON.JObject [(js "salt", JSON.JString (js "ignored"));
                   (js "comment", JSON.JNull);
                   (js "salt", JSON.JString (js "AA"));
                   (js "nonce", JSON.JString (js " AQ I D "));
                   (js "ciphertext", JSON.JString (js "aGk="))])
  = Ok {| ciphertext := [x68; x69]; nonce := [x01; x02; x03]; salt := [x00] |}.
Proof.
  apply (base64ToEncryptedData_lenient (fun l => l) _
           (js "aGk=") (js " AQ I D ") (js "AA")
           {| ciphertext := [x68; x69]; nonce := [x01; x02; x03]; salt := [x00] |});
    try reflexivity.
  - left. reflexivity.
  - left. reflexivity.
  - right. reflexivity.
Defined.

(** ** The size of an encrypted text *)

Lemma length_utf8 (cp : N) :
  1 <= length (TextEncoder.utf8 cp) <= 4
  /\ ((cp < 65536)%N -> length (TextEncoder.utf8 cp) <= 3)
  /\ ((65536 <= cp)%N -> length (TextEncoder.utf8 cp) = 4).
Proof.
  unfold TextEncoder.utf8.
  destruct (N.ltb_spec cp 0x80); [cbn [length]; lia|].
  destruct (N.ltb_spec cp 0x800); [cbn [length]; lia|].
  destruct (N.ltb_spec cp 0x10000); cbn [length]; lia.
Qed.

Lemma length_text_encode (n : nat) (s : jsstring) :
  length s <= n ->
  Forall (fun c => (c < 65536)%N) s ->
  length s <= length (TextEncoder.encode s) <= 3 * length s.
Proof.
  revert s. induction n as [|n IH]; intros [|c rest] Hn Hs;
    try (cbn [TextEncoder.encode length]; lia); [cbn [length] in Hn; lia|].
  cbn [length] in Hn. inversion_clear Hs as [|? ? Hc Hrest].
  assert (IHrest := IH rest ltac:(lia) Hrest).
  cbn [TextEncoder.encode].
  destruct (TextEncoder.is_high c).
  - destruct rest as [|d rest']; [cbn [length TextEncoder.replacement]; lia|].
    destruct (TextEncoder.is_low d).
    + inversion_clear Hrest as [|? ? Hd Hrest'].
      assert (IH' := IH rest' ltac:(cbn [length] in Hn; lia) Hrest').
      rewrite length_app.
      destruct (N.ltb_spec (0x10000 + (c - 0xD800) * 1024 + (d - 0xDC00)) 65536)
        as [Hlt|Hge]; [lia|].
      rewrite (proj2 (proj2 (length_utf8 _)) Hge). cbn [length]. lia.
    + rewrite length_app. cbn [length TextEncoder.replacement] in *. lia.
  - destruct (TextEncoder.is_low c).
    + rewrite length_app. cbn [length TextEncoder.replacement] in *. lia.
    + rewrite length_app.
      pose proof (length_utf8 c) as (L1 & L2 & _). specialize (L2 Hc).
      cbn [length]. lia.
Qed.

(** X13. A text of n code units is encrypted as its UTF-8 bytes: the ciphertext
    field has between n + 16 and 3n + 16 bytes. *)
Theorem text_ciphertext_bounds crypto (s pw : jsstring) (e : Entropy) :
  has_subtle crypto = true ->
  Forall (fun c => (c < 65536)%N) s ->
  exists env e',
    encrypt crypto (Text s) pw e = Ok (env, e')
    /\ length s + 16 <= length (ciphertext env) <= 3 * length s + 16.
Proof.
  intros H Hs. destruct (encrypt_returns crypto (Text s) pw e H) as (rks & _ & He).
  eexists _, _. split; [exact He|]. cbn [sealed ciphertext plaintext_bytes].
  rewrite length_seal.
  pose proof (length_text_encode (length s) s (le_n _) Hs). lia.
Qed.

Lemma text_ciphertext_bounds_witness :
  has_subtle (Some {| subtle := true |}) = true
  /\ Forall (fun c => (c < 65536)%N) [0xE9; 0x20AC; 0xD83D; 0xDE00]%N
  /\ exists env e',
       encrypt (Some {| subtle := true |}) (Text [0xE9; 0x20AC; 0xD83D; 0xDE00]%N)
               (js "pw") (fun _ => x2a) = Ok (env, e')
       /\ 4 + 16 <= length (ciphertext env) <= 3 * 4 + 16.
Proof.
  assert (A : Forall (fun c => (c < 65536)%N) [0xE9; 0x20AC; 0xD83D; 0xDE00]%N).
  { repeat (constructor; [reflexivity|]). constructor. }
  split; [reflexivity|]. split; [exact A|].
  exact (text_ciphertext_bounds (Some {| subtle := true |})
           [0xE9; 0x20AC; 0xD83D; 0xDE00]%N (js "pw") (fun _ => x2a) eq_refl A).
Defined.

(** ** Stored texts with white space *)

Lemma skip_ws_app (w s : jsstring) :
  Forall (fun c => JSON.is_ws c = true) w -> JSON.skip_ws (w ++ s) = JSON.skip_ws s.
Proof.
  induction 1 as [|c w Hc _ IH]; [reflexivity|].
  cbn [app JSON.skip_ws]. now rewrite Hc.
Qed.

Lemma skip_ws_at (w : jsstring) (c : N) (r : jsstring) :
  Forall (fun c => JSON.is_ws c = true) w -> JSON.is_ws c = false ->
  JSON.skip_ws (w ++ c :: r) = c :: r.
Proof.
  intros Hw Hc. rewrite skip_ws_app by assumption.
  cbn [JSON.skip_ws]. now rewrite Hc.
Qed.

Lemma parse_value_string_spaced (f : nat) (w v rest : jsstring) :
  Forall (fun c => JSON.is_ws c = true) w ->
  Forall (fun c => plain_unit c = true) v ->
  JSON.parse_value (S f) (w ++ 34%N :: v ++ 34%N :: rest)
  = Some (JSON.JString v, rest).
Proof.
  intros Hw Hv. cbn [JSON.parse_value].
  rewrite (skip_ws_at w 34 _ Hw eq_refl). rewrite N.eqb_refl.
  now rewrite parse_string_plain.
Qed.

Lemma parse_members_spaced (f : nat) (wa wb wc wd k v : jsstring) (d : N)
      (rest : jsstring) :
  Forall (fun c => JSON.is_ws c = true) wa ->
  Forall (fun c => JSON.is_ws c = true) wb ->
  Forall (fun c => JSON.is_ws c = true) wc ->
  Forall (fun c => JSON.is_ws c = true) wd ->
  Forall (fun c => plain_unit c = true) k ->
  Forall (fun c => plain_unit c = true) v ->
  JSON.is_ws d = false ->
  JSON.parse_members (S (S f))
    (wa ++ 34%N :: k ++ 34%N :: wb ++ 58%N :: wc ++ 34%N :: v ++ 34%N
        :: wd ++ d :: rest)
  = if (d =? 44)%N then
      match JSON.parse_members (S f) rest with
      | Some (JSON.JObject ms, r5) =>
          Some (JSON.JObject ((k, JSON.JString v) :: ms), r5)
      | _ => None
      end
    else if (d =? 125)%N then Some (JSON.JObject [(k, JSON.JString v)], rest)
    else None.
Proof.
  intros Ha Hb Hc Hd Hk Hv Hws.
  change (JSON.parse_members (S (S f)) ?s)
    with (match JSON.skip_ws s with
          | q :: r0 =>
              if (q =? 34)%N then
                match JSON.parse_string r0 with
                | Some (k, r1) =>
                    match JSON.skip_ws r1 with
                    | col :: r2 =>
                        if (col =? 58)%N then
                          match JSON.parse_value (S f) r2 with
                          | Some (v, r3) =>
                              match JSON.skip_ws r3 with
                              | d :: r4 =>
                                  if (d =? 44)%N then
                                    match JSON.parse_members (S f) r4 with
                                    | Some (JSON.JObject ms, r5) =>
                                        Some (JSON.JObject ((k, v) :: ms), r5)
                                    | _ => None
                                    end
                                  else if (d =? 125)%N
                                       then Some (JSON.JObject [(k, v)], r4)
                                       else None
                              | [] => None
                              end
                          | None => None
                          end
                        else None
                    | [] => None
                    end
                | None => None
                end
              else None
          | [] => None
          end).
  rewrite (skip_ws_at wa 34 _ Ha eq_refl). rewrite N.eqb_refl.
  rewrite (parse_string_plain k _ Hk).
  rewrite (skip_ws_at wb 58 _ Hb eq_refl). rewrite N.eqb_refl.
  rewrite (parse_value_string_spaced f wc v _ Hc Hv).
  rewrite (skip_ws_at wd d _ Hd Hws). reflexivity.
Qed.

Lemma parse_spaced (w : nat -> jsstring) (d : EncryptedDataBase64) :
  (forall i, Forall (fun c => JSON.is_ws c = true) (w i)) ->
  Forall (fun c => plain_unit c = true) (ciphertext64 d) ->
  Forall (fun c => plain_unit c = true) (nonce64 d) ->
  Forall (fun c => plain_unit c = true) (salt64 d) ->
  JSON.parse (JSON_spaced w d) = Ok (object_of d).
Proof.
  intros Hw Hc Hn Hs. unfold JSON.parse.
  assert (E : exists f, 2 * length (JSON_spaced w d) + 2 = S (S (S (S (S f))))).
  { exists (2 * length (JSON_spaced w d) + 2 - 5).
    unfold JSON_spaced. rewrite !length_app. cbn [length]. lia. }
  destruct E as [f ->].
  assert (K1 : Forall (fun c => plain_unit c = true) (js "ciphertext"))
    by (repeat constructor).
  assert (K2 : Forall (fun c => plain_unit c = true) (js "nonce"))
    by (repeat constructor).
  assert (K3 : Forall (fun c => plain_unit c = true) (js "salt"))
    by (repeat constructor).
  unfold JSON_spaced, JSON.quote.
  rewrite !quote_body_plain by assumption.
  rewrite <- !app_assoc. cbn [app].
  change (JSON.parse_value (S ?n) ?s)
    with (match JSON.skip_ws s with
          | [] => None
          | c :: r =>
              if (c =? 34)%N then
                match JSON.parse_string r with
                | Some (str, r') => Some (JSON.JString str, r')
                | None => None
                end
              else if (c =? 91)%N then
                match JSON.skip_ws r with
                | d :: r' =>
                    if (d =? 93)%N then Some (JSON.JArray [], r')
                    else JSON.parse_elements n r
                | [] => None
                end
              else if (c =? 123)%N then
                match JSON.skip_ws r with
                | d :: r' =>
                    if (d =? 125)%N then Some (JSON.JObject [], r')
                    else JSON.parse_members n r
                | [] => None
                end
              else
                match JSON.starts_with (js "true") (c :: r),
                      JSON.starts_with (js "false") (c :: r),
                      JSON.starts_with (js "null") (c :: r) with
                | Some r', _, _ => Some (JSON.JBool true, r')
                | _, Some r', _ => Some (JSON.JBool false, r')
                | _, _, Some r' => Some (JSON.JNull, r')
                | _, _, _ =>
                    match JSON.parse_number (c :: r) with
                    | Some (lit, r') => Some (JSON.JNumber lit, r')
                    | None => None
                    end
                end
          end).
  rewrite (skip_ws_at (w 0) 123 _ (Hw 0) eq_refl).
  change (123 =? 34)%N with false. change (123 =? 91)%N with false.
  change (123 =? 123)%N with true. cbv iota.
  rewrite (skip_ws_at (w 1) 34 _ (Hw 1) eq_refl).
  change (34 =? 125)%N with false. cbv iota.
  rewrite (parse_members_spaced (S (S f)) (w 1) (w 2) (w 3) (w 4)
             (js "ciphertext") (ciphertext64 d) 44 _
             (Hw 1) (Hw 2) (Hw 3) (Hw 4) K1 Hc eq_refl).
  change (44 =? 44)%N with true. cbv iota.
  rewrite (parse_members_spaced (S f) (w 5) (w 6) (w 7) (w 8)
             (js "nonce") (nonce64 d) 44 _
             (Hw 5) (Hw 6) (Hw 7) (Hw 8) K2 Hn eq_refl).
  change (44 =? 44)%N with true. cbv iota.
  rewrite (parse_members_spaced f (w 9) (w 10) (w 11) (w 12)
             (js "salt") (salt64 d) 125 _
             (Hw 9) (Hw 10) (Hw 11) (Hw 12) K3 Hs eq_refl).
  change (125 =? 44)%N with false. change (125 =? 125)%N with true. cbv iota.
  pose proof (skip_ws_app (w 13) [] (Hw 13)) as Z. rewrite app_nil_r in Z.
  rewrite Z. reflexivity.
Qed.

(** X14. White space between the tokens of the stored text, as a pretty-printer
    or an editor puts it, changes nothing: the text parses to the same
    envelope and [decryptFromJSON] gives the same result as for the compact
    text that [encryptToJSON] wrote. *)
Theorem spaced_text_accepted crypto nts (w : nat -> jsstring)
        (data : EncryptedData) (pw : jsstring) (e : Entropy) :
  (forall i, Forall (fun c => JSON.is_ws c = true) (w i)) ->
  parse_envelope nts (JSON_spaced w (base64_of data)) = Ok data
  /\ decryptFromJSON crypto nts (JSON_spaced w (base64_of data)) pw e
     = decryptFromJSON crypto nts (JSON_stringify (base64_of data)) pw e.
Proof.
  intros Hw.
  assert (P : parse_envelope nts (JSON_spaced w (base64_of data)) = Ok data).
  { unfold parse_envelope.
    rewrite (parse_spaced w (base64_of data) Hw)
      by (unfold base64_of; cbn [ciphertext64 nonce64 salt64]; apply encode_plain).
    apply base64ToEncryptedData_object. }
  split; [exact P|].
  now rewrite !decryptFromJSON_stages, P, parse_envelope_serialized.
Qed.

Lemma spaced_text_accepted_witness :
  (forall i, Forall (fun c => JSON.is_ws c = true) (indent2 i))
  /\ parse_envelope (fun l => l)
       (JSON_spaced indent2
          (base64_of {| ciphertext := [x68; x69]; nonce := [x01]; salt := [x02] |}))
     = Ok {| ciphertext := [x68; x69]; nonce := [x01]; salt := [x02] |}.
Proof.
  assert (A : forall i, Forall (fun c => JSON.is_ws c = true) (indent2 i)).
  { intros i. do 13 (destruct i as [|i]; [repeat constructor|]). constructor. }
  split; [exact A|].
  exact (proj1 (spaced_text_accepted None (fun l => l) indent2
                  {| ciphertext := [x68; x69]; nonce := [x01]; salt := [x02] |}
                  [] (fun _ => x00) A)).
Defined.

(** ** Random bytes used twice *)

Lemma bxor_same_key (x y k : byte) : bxor (bxor x k) (bxor y k) = bxor x y.
Proof.
  rewrite (bxor_comm y k), <- bxor_assoc, (bxor_assoc x k k).
  now rewrite bxor_nilpotent, bxor_x00_r.
Qed.

Lemma xor_bytes_same_key (a b k : bytes) :
  length a = length b -> length a <= length k ->
  xor_bytes (xor_bytes a k) (xor_bytes b k) = xor_bytes a b.
Proof.
  revert b k. induction a as [|x a IH]; intros [|y b] [|z k] H1 H2;
    cbn [length] in *; try discriminate; try reflexivity; [lia|].
  cbn [xor_bytes]. rewrite bxor_same_key. f_equal. apply IH; lia.
Qed.

#[local] Transparent GCM.seal GCM.gctr.

Lemma seal_body_xor (rks : list AES.state) (iv p1 p2 : bytes) :
  length p1 = length p2 ->
  xor_bytes (firstn (length p1) (GCM.seal rks iv [] p1))
            (firstn (length p1) (GCM.seal rks iv [] p2))
  = xor_bytes p1 p2.
Proof.
  intros H. unfold GCM.seal.
  rewrite (firstn_exact _ _ (length p1)) by apply length_gctr.
  rewrite (firstn_exact _ _ (length p1)) by (rewrite length_gctr; auto).
  unfold GCM.gctr. rewrite <- H.
  apply xor_bytes_same_key; [exact H|apply keystream_covers].
Qed.

#[local] Opaque GCM.seal GCM.gctr.

(** X15. The secrecy of a ciphertext rests on the random bytes alone: nothing of
    the plaintext enters the salt or the nonce.  Were the same 40 random
    bytes drawn for two plaintexts of one length under one password, the two
    ciphertexts xor-ed would be the two plaintexts xor-ed. *)
Theorem same_random_bytes_leak_xor crypto (p1 p2 : bytes) (pw : jsstring)
        (e : Entropy) :
  has_subtle crypto = true ->
  length p1 = length p2 ->
  exists env1 r1 env2 r2,
    encrypt crypto (Binary p1) pw e = Ok (env1, r1)
    /\ encrypt crypto (Binary p2) pw e = Ok (env2, r2)
    /\ xor_bytes (firstn (length p1) (ciphertext env1))
                 (firstn (length p1) (ciphertext env2))
       = xor_bytes p1 p2.
Proof.
  intros H Hlen.
  destruct (encrypt_returns crypto (Binary p1) pw e H) as (rks1 & Hk1 & He1).
  destruct (encrypt_returns crypto (Binary p2) pw e H) as (rks2 & Hk2 & He2).
  rewrite Hk2 in Hk1. injection Hk1 as <-.
  eexists _, _, _, _. split; [exact He1|]. split; [exact He2|].
  cbn [sealed ciphertext plaintext_bytes]. now apply seal_body_xor.
Qed.

Lemma same_random_bytes_leak_xor_witness :
  has_subtle (Some {| subtle := true |}) = true
  /\ length [x41; x42] = length [x61; x62]
  /\ exists env1 r1 env2 r2,
       encrypt (Some {| subtle := true |}) (Binary [x41; x42]) (js "pw")
               (fun _ => x2a) = Ok (env1, r1)
       /\ encrypt (Some {| subtle := true |}) (Binary [x61; x62]) (js "pw")
                  (fun _ => x2a) = Ok (env2, r2)
       /\ xor_bytes (firstn 2 (ciphertext env1)) (firstn 2 (ciphertext env2))
          = [x20; x20].
Proof.
  split; [reflexivity|]. split; [reflexivity|].
  exact (same_random_bytes_leak_xor (Some {| subtle := true |}) [x41; x42]
           [x61; x62] (js "pw") (fun _ => x2a) eq_refl eq_refl).
Defined.

(* ------------------------------------------------------------------ *)
(** * The callers of the module *)

(** ** Pieces of a path *)

Lemma JsString_eqb_eq (a b : jsstring) : JsString.eqb a b = true <-> a = b.
Proof.
  unfold JsString.eqb. destruct (list_eq_dec N.eq_dec a b); split; congruence.
Qed.

Lemma JsString_eqb_refl (a : jsstring) : JsString.eqb a a = true.
Proof. now apply JsString_eqb_eq. Qed.

Lemma JsString_eqb_neq (a b : jsstring) : a <> b -> JsString.eqb a b = false.
Proof.
  intros H. destruct (JsString.eqb a b) eqn:E; [|reflexivity].
  apply JsString_eqb_eq in E. contradiction.
Qed.

Lemma split_nonempty (sep : N) (s : jsstring) : JsString.split sep s <> [].
Proof.
  destruct s as [|c r]; cbn [JsString.split]; [discriminate|].
  destruct (c =? sep)%N; [discriminate|].
  destruct (JsString.split sep r); discriminate.
Qed.

Lemma split_app (sep : N) (a b : jsstring) :
  JsString.split sep (a ++ sep :: b) = JsString.split sep a ++ JsString.split sep b.
Proof.
  induction a as [|c a IH]; cbn [app JsString.split].
  - now rewrite N.eqb_refl.
  - destruct (c =? sep)%N; [now rewrite IH|].
    rewrite IH. destruct (JsString.split sep a) as [|p ps] eqn:E; [|reflexivity].
    now apply split_nonempty in E.
Qed.

Lemma split_whole (sep : N) (s : jsstring) :
  ~ In sep s -> JsString.split sep s = [s].
Proof.
  induction s as [|c s IH]; intros H; [reflexivity|].
  cbn [JsString.split].
  destruct (N.eqb_spec c sep) as [->|_]; [exfalso; apply H; now left|].
  rewrite IH; [reflexivity|]. intros H'. apply H. now right.
Qed.

Lemma pop_app {A} (l1 l2 : list A) :
  l2 <> [] -> JsString.pop (l1 ++ l2) = JsString.pop l2.
Proof.
  intros H. induction l1 as [|x l1 IH]; [reflexivity|].
  cbn [app JsString.pop]. rewrite IH.
  destruct (l1 ++ l2) eqn:E; [|reflexivity].
  apply app_eq_nil in E as [_ ->]. contradiction.
Qed.

(** The last piece is what follows the last separator, the whole string
    when there is none. *)
Lemma pop_split_last (sep : N) (a b : jsstring) :
  ~ In sep b -> JsString.pop (JsString.split sep (a ++ sep :: b)) = Some b.
Proof.
  intros H. rewrite split_app, pop_app by apply split_nonempty.
  now rewrite split_whole.
Qed.

Lemma pop_split_whole (sep : N) (s : jsstring) :
  ~ In sep s -> JsString.pop (JsString.split sep s) = Some s.
Proof. intros H. now rewrite split_whole. Qed.


(** ** [getMimeType] *)



(** ** The name of a decrypted file *)

Lemma starts_with_app (p s t : jsstring) :
  length p <= length s ->
  JsString.starts_with p (s ++ t) = JsString.starts_with p s.
Proof.
  revert s. induction p as [|a p IH]; intros [|b s] H; cbn [length] in H;
    try reflexivity; [lia|].
  cbn [app JsString.starts_with]. rewrite IH by lia. reflexivity.
Qed.

Lemma starts_with_self (p t : jsstring) : JsString.starts_with p (p ++ t) = true.
Proof.
  induction p as [|a p IH]; [reflexivity|].
  cbn [app JsString.starts_with]. now rewrite N.eqb_refl, IH.
Qed.

(** No occurrence of '.enc' begins inside [s] and ends beyond it when
    '.enc' follows: its dot is its first character only. *)
Lemma enc_not_astride (s t : jsstring) :
  s <> [] ->
  JsString.starts_with (js ".enc") s = false ->
  JsString.starts_with (js ".enc") (s ++ js ".enc" ++ t) = false.
Proof.
  intros Hs H.
  destruct s as [|c1 [|c2 [|c3 [|c4 s']]]]; [contradiction| | | |].
  - cbn. now rewrite ?andb_false_r.
  - cbn. now rewrite ?andb_false_r.
  - cbn. now rewrite ?andb_false_r.
  - rewrite starts_with_app by (simpl; lia). exact H.
Qed.

Lemma replace_first_enc (a b : jsstring) :
  JsString.includes (js ".enc") a = false ->
  JsString.replace (js ".enc") [] (a ++ js ".enc" ++ b) = a ++ b.
Proof.
  induction a as [|c a IH]; intros H.
  - reflexivity.
  - cbn [JsString.includes] in H. apply orb_false_iff in H as [H1 H2].
    pose proof (enc_not_astride (c :: a) b ltac:(discriminate) H1) as E.
    cbn [app] in E |- *. cbn [JsString.replace]. rewrite E.
    now rewrite IH.
Qed.

Lemma enc_segment (a b : jsstring) :
  ~ In 47%N a -> ~ In 47%N b -> ~ In 47%N (a ++ js ".enc" ++ b).
Proof.
  intros Ha Hb. rewrite !in_app_iff. intros [H|[H|H]]; [auto| |auto].
  simpl in H. destruct H as [E|[E|[E|[E|[]]]]]; discriminate E.
Qed.

Lemma fileName_of_last (dir a b : jsstring) :
  ~ In 47%N a -> ~ In 47%N b ->
  JsString.includes (js ".enc") a = false ->
  UseDecryption.fileName_of (dir ++ 47%N :: a ++ js ".enc" ++ b)
  = JsString.or_else (Some (a ++ b)) (js "file").
Proof.
  intros Ha Hb Hinc. unfold UseDecryption.fileName_of.
  rewrite (pop_split_last 47 dir _ (enc_segment a b Ha Hb)). cbn [option_map].
  now rewrite replace_first_enc.
Qed.

(** X17. [decryptFile] names a file after the last piece of its path, with the
    first '.enc' in it taken out, wherever that stands, and no other; when
    nothing is left the name is 'file'. *)
Theorem fileName_of_path (dir a b : jsstring) :
  ~ In 47%N a -> ~ In 47%N b ->
  JsString.includes (js ".enc") a = false ->
  UseDecryption.fileName_of (dir ++ 47%N :: a ++ js ".enc" ++ b)
  = JsString.or_else (Some (a ++ b)) (js "file")
  /\ UseDecryption.fileName_of (a ++ js ".enc" ++ b)
     = JsString.or_else (Some (a ++ b)) (js "file")
  /\ UseDecryption.fileName_of (dir ++ [47%N]) = js "file".
Proof.
  intros Ha Hb Hinc. split; [|split].
  - now apply fileName_of_last.
  - unfold UseDecryption.fileName_of.
    rewrite (pop_split_whole 47 _ (enc_segment a b Ha Hb)). cbn [option_map].
    now rewrite replace_first_enc.
  - unfold UseDecryption.fileName_of.
    rewrite (pop_split_last 47 dir [] (fun H => H)). reflexivity.
Qed.

Lemma fileName_of_path_witness :
  UseDecryption.fileName_of (js "/poems/ode.txt.enc") = js "ode.txt"
  /\ UseDecryption.fileName_of (js "/poems/notes.encrypted.txt.enc")
     = js "notesrypted.txt.enc"
  /\ UseDecryption.fileName_of (js "/poems/.enc") = js "file".
Proof.
  assert (N1 : ~ In 47%N (js "ode.txt")).
  { simpl. intros H. repeat (destruct H as [E|H]; [discriminate E|]). exact H. }
  assert (N2 : ~ In 47%N (js "notes")).
  { simpl. intros H. repeat (destruct H as [E|H]; [discriminate E|]). exact H. }
  assert (N3 : ~ In 47%N (js "rypted.txt.enc")).
  { simpl. intros H. repeat (destruct H as [E|H]; [discriminate E|]). exact H. }
  assert (N4 : ~ In 47%N (@nil N)) by (intros []).
  split; [|split].
  - exact (proj1 (fileName_of_path (js "/poems") (js "ode.txt") [] N1 N4 eq_refl)).
  - exact (proj1 (fileName_of_path (js "/poems") (js "notes") (js "rypted.txt.enc")
                    N2 N3 eq_refl)).
  - exact (proj1 (fileName_of_path (js "/poems") [] [] N4 N4 eq_refl)).
Defined.

(** ** The hook's state *)

Lemma Map_get_set_same {V} (k : jsstring) (v : V) (m : list (jsstring * V)) :
  UseDecryption.Map_get k (UseDecryption.Map_set k v m) = Some v.
Proof.
  induction m as [|[k' v'] m IH]; cbn [UseDecryption.Map_set UseDecryption.Map_get].
  - now rewrite JsString_eqb_refl.
  - destruct (JsString.eqb k' k) eqn:E; cbn [UseDecryption.Map_get]; rewrite E;
      [reflexivity|exact IH].
Qed.

Lemma Map_get_set_other {V} (k k2 : jsstring) (v : V) (m : list (jsstring * V)) :
  k2 <> k ->
  UseDecryption.Map_get k2 (UseDecryption.Map_set k v m) = UseDecryption.Map_get k2 m.
Proof.
  intros H.
  induction m as [|[k' v'] m IH]; cbn [UseDecryption.Map_set UseDecryption.Map_get].
  - rewrite JsString_eqb_neq by congruence. reflexivity.
  - destruct (JsString.eqb k' k) eqn:E; cbn [UseDecryption.Map_get].
    + apply JsString_eqb_eq in E. subst k'.
      rewrite JsString_eqb_neq by congruence. reflexivity.
    + destruct (JsString.eqb k' k2); [reflexivity|exact IH].
Qed.

(** [decryptFromJSON] of a text that [encryptToJSON] made, with the same
    password: the plaintext bytes as a binary string. *)
Lemma decryptFromJSON_stored crypto nts (pt : Plaintext) (pw text : jsstring)
      (e e' e2 : Entropy) :
  encryptToJSON crypto pt pw e = Ok (text, e') ->
  decryptFromJSON crypto nts text pw e2 = Ok (map Byte.to_N (plaintext_bytes pt), e2).
Proof.
  intros He. destruct (has_subtle crypto) eqn:H.
  - destruct (encrypt_returns crypto pt pw e H) as (rks & Hk & Hr).
    rewrite encryptToJSON_stages, Hr in He. injection He as <- _.
    rewrite decryptFromJSON_stages, parse_envelope_serialized.
    now rewrite (decrypt_sealed crypto rks _ _ _ pw e2 H Hk (length_take _ _)).
  - rewrite encryptToJSON_stages, (encrypt_unavailable crypto pt pw e H) in He.
    discriminate He.
Qed.

(** X18. When the path serves a text that [encryptToJSON] made and the password is
    the one it was made with, [decryptFile] resolves with a file whose
    content is the plaintext, one code unit per byte, named and typed after
    the path, and files it under the path: [isLoading] is false again, no
    error is set, the files under other paths stay, and neither the stored
    password nor [isAuthenticated] is read or changed. *)
Theorem decryptFile_stores_file crypto nts toLowerCase message_of fetch
        (pt : Plaintext) (pw text path statusText : jsstring)
        (e0 e1 e : Entropy) (prev : UseDecryption.UseDecryptionState) :
  encryptToJSON crypto pt pw e0 = Ok (text, e1) ->
  fetch path = UseDecryption.Response true statusText (UseDecryption.BodyText text) ->
  exists st file,
    UseDecryption.decryptFile crypto nts toLowerCase message_of fetch path pw e prev
    = (st, inr file)
    /\ UseDecryption.content file = map Byte.to_N (plaintext_bytes pt)
    /\ UseDecryption.path file = path
    /\ UseDecryption.name file = UseDecryption.fileName_of path
    /\ UseDecryption.mimeType file
       = UseDecryption.getMimeType toLowerCase (UseDecryption.fileName_of path)
    /\ UseDecryption.isLoading st = false
    /\ UseDecryption.error st = None
    /\ UseDecryption.password st = UseDecryption.password prev
    /\ UseDecryption.isAuthenticated st = UseDecryption.isAuthenticated prev
    /\ UseDecryption.Map_get path (UseDecryption.decryptedFiles st) = Some file
    /\ forall other, other <> path ->
         UseDecryption.Map_get other (UseDecryption.decryptedFiles st)
         = UseDecryption.Map_get other (UseDecryption.decryptedFiles prev).
Proof.
  intros He Hf.
  unfold UseDecryption.decryptFile, UseDecryption.load. rewrite Hf. cbn [negb].
  rewrite (decryptFromJSON_stored crypto nts pt pw text e0 e1 e He).
  cbn [outcome]. eexists _, _. split; [reflexivity|].
  cbn [UseDecryption.content UseDecryption.path UseDecryption.name
       UseDecryption.mimeType UseDecryption.isLoading UseDecryption.error
       UseDecryption.password UseDecryption.isAuthenticated
       UseDecryption.decryptedFiles UseDecryption.loading].
  repeat (split; [reflexivity|]). split.
  - apply Map_get_set_same.
  - intros other Ho. now apply Map_get_set_other.
Qed.

Lemma decryptFile_stores_file_witness :
  exists text e1 st file,
    encryptToJSON (Some {| subtle := true |}) (Text (js "An ode")) (js "pw")
                  (fun _ => x2a) = Ok (text, e1)
    /\ UseDecryption.decryptFile (Some {| subtle := true |}) (fun l => l)
         ascii_lower (fun _ => [])
         (fun _ => UseDecryption.Response true (js "OK") (UseDecryption.BodyText text))
         (js "/poems/ode.TXT.enc") (js "pw") (fun _ => x00)
         UseDecryption.initialState
       = (st, inr file)
    /\ UseDecryption.content file = js "An ode"
    /\ UseDecryption.name file = js "ode.TXT"
    /\ UseDecryption.mimeType file = UseDecryption.OwnString (js "text/plain")
    /\ UseDecryption.error st = None.
Proof.
  destruct (encrypt_returns (Some {| subtle := true |}) (Text (js "An ode"))
              (js "pw") (fun _ => x2a) eq_refl) as (rks & Hk & He).
  assert (Ht : encryptToJSON (Some {| subtle := true |}) (Text (js "An ode"))
                 (js "pw") (fun _ => x2a)
               = Ok (JSON_stringify
                       (base64_of (sealed rks (plaintext_bytes (Text (js "An ode")))
                                     (take 16 (fun _ => x2a))
                                     (take 24 (shift 16 (fun _ => x2a))))),
                     shift 24 (shift 16 (fun _ => x2a)))).
  { rewrite encryptToJSON_stages, He. reflexivity. }
  destruct (decryptFile_stores_file (Some {| subtle := true |}) (fun l => l)
              ascii_lower (fun _ => [])
              (fun _ => UseDecryption.Response true (js "OK")
                          (UseDecryption.BodyText
                             (JSON_stringify
                                (base64_of
                                   (sealed rks (plaintext_bytes (Text (js "An ode")))
                                      (take 16 (fun _ => x2a))
                                      (take 24 (shift 16 (fun _ => x2a))))))))
              (Text (js "An ode")) (js "pw") _ (js "/poems/ode.TXT.enc") (js "OK")
              (fun _ => x2a) _ (fun _ => x00) UseDecryption.initialState
              Ht eq_refl)
    as (st & file & Hd & Hc & _ & Hn & Hm & _ & Herr & _).
  eexists _, _, st, file. split; [exact Ht|]. split; [exact Hd|].
  split; [rewrite Hc; reflexivity|].
  split; [rewrite Hn; reflexivity|].
  split; [rewrite Hm; reflexivity|]. exact Herr.
Defined.



(** X20. [setPassword] stores the password, clears the error and leaves the rest
    alone; it sets [isAuthenticated] by comparison with the password the hook
    was given, and to true for every password when the hook was given none or
    the empty one. *)
Theorem setPassword_authenticated (correctPassword : option jsstring)
        (pw : jsstring) (prev : UseDecryption.UseDecryptionState) :
  let st := UseDecryption.setPassword correctPassword pw prev in
  UseDecryption.password st = pw
  /\ UseDecryption.error st = None
  /\ UseDecryption.isLoading st = UseDecryption.isLoading prev
  /\ UseDecryption.decryptedFiles st = UseDecryption.decryptedFiles prev
  /\ (UseDecryption.isAuthenticated st = true
      <-> correctPassword = None \/ correctPassword = Some []
          \/ correctPassword = Some pw).
Proof.
  cbv zeta. unfold UseDecryption.setPassword.
  cbn [UseDecryption.password UseDecryption.error UseDecryption.isLoading
       UseDecryption.decryptedFiles UseDecryption.isAuthenticated].
  repeat (split; [reflexivity|]).
  unfold UseDecryption.verifyPassword.
  destruct correctPassword as [[|c r]|].
  - split; auto.
  - rewrite JsString_eqb_eq. split.
    + intros ->. auto.
    + intros [H|[H|H]]; congruence.
  - split; auto.
Qed.

(** ** What holds of the hook's state at all times *)

Lemma decryptFromJSON_binary crypto nts (text pw : jsstring) (e : Entropy)
      (s : jsstring) :
  outcome (decryptFromJSON crypto nts text pw e) = Ok s ->
  Forall (fun c => (c < 256)%N) s.
Proof.
  rewrite decryptFromJSON_stages.
  destruct (parse_envelope nts text) as [env|]; [|discriminate].
  destruct (decrypt crypto env pw e) as [[p e']|]; [|discriminate].
  cbn [outcome]. intros [= <-]. apply bytes_are_binary.
Qed.

Lemma load_filed crypto nts toLowerCase fetch (k pw : jsstring) (e : Entropy)
      (f : UseDecryption.DecryptedFile) :
  UseDecryption.load crypto nts toLowerCase fetch k pw e = inr f ->
  UseDecryption.filed_as toLowerCase k f.
Proof.
  unfold UseDecryption.load.
  destruct (fetch k) as [m|[|] statusText [text|m]]; cbn [negb]; try discriminate.
  destruct (outcome _) as [decrypted|derr] eqn:O; [|discriminate].
  intros [= <-]. unfold UseDecryption.filed_as.
  cbn [UseDecryption.path UseDecryption.name UseDecryption.mimeType
       UseDecryption.content].
  repeat (split; [reflexivity|]).
  exact (decryptFromJSON_binary crypto nts text pw e decrypted O).
Qed.

Lemma step_keeps crypto nts toLowerCase message_of correctPassword
      (a : UseDecryption.Action) (st : UseDecryption.UseDecryptionState) :
  (UseDecryption.isLoading st = false
   /\ (UseDecryption.isAuthenticated st = true ->
       UseDecryption.verifyPassword correctPassword (UseDecryption.password st)
       = true)
   /\ forall k f, UseDecryption.Map_get k (UseDecryption.decryptedFiles st) = Some f ->
                  UseDecryption.filed_as toLowerCase k f) ->
  let st' := UseDecryption.step crypto nts toLowerCase message_of correctPassword
                                a st in
  UseDecryption.isLoading st' = false
  /\ (UseDecryption.isAuthenticated st' = true ->
      UseDecryption.verifyPassword correctPassword (UseDecryption.password st')
      = true)
  /\ forall k f, UseDecryption.Map_get k (UseDecryption.decryptedFiles st') = Some f ->
                 UseDecryption.filed_as toLowerCase k f.
Proof.
  intros (Hl & Ha & Hf). cbv zeta.
  destruct a as [pw|fetch k0 pw e| |]; cbn [UseDecryption.step].
  - unfold UseDecryption.setPassword.
    cbn [UseDecryption.isLoading UseDecryption.isAuthenticated
         UseDecryption.password UseDecryption.decryptedFiles].
    split; [exact Hl|]. split; [auto|exact Hf].
  - unfold UseDecryption.decryptFile.
    destruct (UseDecryption.load crypto nts toLowerCase fetch k0 pw e)
      as [err|file] eqn:L;
      cbn [fst UseDecryption.isLoading UseDecryption.isAuthenticated
           UseDecryption.password UseDecryption.decryptedFiles
           UseDecryption.loading].
    + split; [reflexivity|]. split; [exact Ha|exact Hf].
    + split; [reflexivity|]. split; [exact Ha|].
      intros k f. destruct (list_eq_dec N.eq_dec k k0) as [->|Hk].
      * rewrite Map_get_set_same. intros [= <-].
        exact (load_filed crypto nts toLowerCase fetch k0 pw e file L).
      * rewrite Map_get_set_other by exact Hk. apply Hf.
  - unfold UseDecryption.clearError.
    cbn [UseDecryption.isLoading UseDecryption.isAuthenticated
         UseDecryption.password UseDecryption.decryptedFiles].
    split; [exact Hl|]. split; [exact Ha|exact Hf].
  - unfold UseDecryption.reset, UseDecryption.initialState.
    cbn [UseDecryption.isLoading UseDecryption.isAuthenticated
         UseDecryption.password UseDecryption.decryptedFiles].
    split; [reflexivity|]. split; [discriminate|]. intros k f. discriminate.
Qed.

(** X21. After any sequence of calls of the hook ([setPassword], [decryptFile],
    [clearError], [reset], in any order and with whatever the network
    serves), once its calls have returned: [isLoading] is false;
    [isAuthenticated] is true only if the stored password is one that
    [verifyPassword] accepts; and every decrypted file is filed under its
    own path, named and typed after that path, with a binary string for its
    content. *)
Theorem hook_state_invariant crypto nts toLowerCase message_of correctPassword
        (actions : list UseDecryption.Action) :
  let st := UseDecryption.run crypto nts toLowerCase message_of correctPassword
                              actions in
  UseDecryption.isLoading st = false
  /\ (UseDecryption.isAuthenticated st = true ->
      UseDecryption.verifyPassword correctPassword (UseDecryption.password st)
      = true)
  /\ forall k f, UseDecryption.Map_get k (UseDecryption.decryptedFiles st) = Some f ->
                 UseDecryption.filed_as toLowerCase k f.
Proof.
  cbv zeta. unfold UseDecryption.run.
  assert (G : forall st,
             (UseDecryption.isLoading st = false
              /\ (UseDecryption.isAuthenticated st = true ->
                  UseDecryption.verifyPassword correctPassword
                    (UseDecryption.password st) = true)
              /\ forall k f,
                   UseDecryption.Map_get k (UseDecryption.decryptedFiles st) = Some f ->
                   UseDecryption.filed_as toLowerCase k f) ->
             let st' := fold_left
                          (fun s a => UseDecryption.step crypto nts toLowerCase
                                        message_of correctPassword a s)
                          actions st in
             UseDecryption.isLoading st' = false
             /\ (UseDecryption.isAuthenticated st' = true ->
                 UseDecryption.verifyPassword correctPassword
                   (UseDecryption.password st') = true)
             /\ forall k f,
                  UseDecryption.Map_get k (UseDecryption.decryptedFiles st') = Some f ->
                  UseDecryption.filed_as toLowerCase k f).
  { induction actions as [|a actions IH]; intros st Hst; [exact Hst|].
    cbn [fold_left]. apply IH.
    exact (step_keeps crypto nts toLowerCase message_of correctPassword a st Hst). }
  apply G. split; [reflexivity|]. split; [discriminate|].
  intros k f. discriminate.
Qed.

(** ** [handleFileSelect] of the file browser *)

(** X22. Selecting a file never lets an exception through.  A file is handed to
    [onFileDecrypted] exactly when the hook ends without an error; it is then
    the one filed under the path, and its content is what [decryptFromJSON]
    returned for the text that the path served.  In either case [isLoading]
    is false at the end. *)
Theorem handleFileSelect_outcome crypto nts toLowerCase message_of fetch
        (pw path : jsstring) (e : Entropy)
        (prev st : UseDecryption.UseDecryptionState)
        (handed : option UseDecryption.DecryptedFile) :
  FileBrowser.handleFileSelect crypto nts toLowerCase message_of fetch pw path e prev
  = (st, handed) ->
  UseDecryption.isLoading st = false
  /\ (handed = None <-> UseDecryption.error st <> None)
  /\ forall file, handed = Some file ->
       UseDecryption.Map_get path (UseDecryption.decryptedFiles st) = Some file
       /\ exists statusText text,
            fetch path
            = UseDecryption.Response true statusText (UseDecryption.BodyText text)
            /\ outcome (decryptFromJSON crypto nts text pw e)
               = Ok (UseDecryption.content file).
Proof.
  unfold FileBrowser.handleFileSelect, UseDecryption.decryptFile.
  destruct (UseDecryption.load crypto nts toLowerCase fetch path pw e)
    as [err|file] eqn:L; intros [= <- <-];
    cbn [UseDecryption.isLoading UseDecryption.error UseDecryption.loading
         UseDecryption.decryptedFiles].
  - split; [reflexivity|]. split; [split; [discriminate|reflexivity]|].
    discriminate.
  - split; [reflexivity|]. split; [split; [discriminate|congruence]|].
    intros file' [= <-]. split; [apply Map_get_set_same|].
    revert L. unfold UseDecryption.load.
    destruct (fetch path) as [m|[|] statusText [text|m]]; cbn [negb];
      try discriminate.
    destruct (outcome _) as [decrypted|derr] eqn:O; [|discriminate].
    intros [= <-]. cbn [UseDecryption.content].
    exists statusText, text. split; [reflexivity|exact O].
Qed.

Lemma handleFileSelect_outcome_witness :
  FileBrowser.handleFileSelect (Some {| subtle := true |}) (fun l => l) ascii_lower
    (fun _ => js "The operation failed")
    (fun _ => UseDecryption.Response true (js "OK")
                (UseDecryption.BodyText text_empty_object))
    (js "pw") (js "/poems/ode.txt.enc") (fun _ => x00) UseDecryption.initialState
  = ({| UseDecryption.isLoading := false;
        UseDecryption.error := Some (js "The operation failed");
        UseDecryption.password := [];
        UseDecryption.isAuthenticated := false;
        UseDecryption.decryptedFiles := [] |}, None)
  /\ (@None UseDecryption.DecryptedFile = None
      <-> Some (js "The operation failed") <> None).
Proof.
  assert (R : FileBrowser.handleFileSelect (Some {| subtle := true |}) (fun l => l)
                ascii_lower (fun _ => js "The operation failed")
                (fun _ => UseDecryption.Response true (js "OK")
                            (UseDecryption.BodyText text_empty_object))
                (js "pw") (js "/poems/ode.txt.enc") (fun _ => x00)
                UseDecryption.initialState
              = ({| UseDecryption.isLoading := false;
                    UseDecryption.error := Some (js "The operation failed");
                    UseDecryption.password := [];
                    UseDecryption.isAuthenticated := false;
                    UseDecryption.decryptedFiles := [] |}, None))
    by reflexivity.
  split; [exact R|].
  exact (proj1 (proj2 (handleFileSelect_outcome _ _ _ _ _ _ _ _ _ _ _ R))).
Defined.



(** ** [handleSubmit] of the password gate *)

Lemma trimStart_nil (s : jsstring) :
  JsString.trimStart s = [] <-> forallb JsString.is_white_space s = true.
Proof.
  induction s as [|c s IH]; cbn [JsString.trimStart forallb]; [tauto|].
  destruct (JsString.is_white_space c); cbn [andb]; [exact IH|].
  split; discriminate.
Qed.

Lemma trimStart_head (s : jsstring) (c : N) (r : jsstring) :
  JsString.trimStart s = c :: r -> JsString.is_white_space c = false.
Proof.
  induction s as [|d s IH]; cbn [JsString.trimStart]; [discriminate|].
  destruct (JsString.is_white_space d) eqn:E; [exact IH|].
  now intros [= <- _].
Qed.

Lemma trim_nil (s : jsstring) :
  JsString.trim s = [] <-> forallb JsString.is_white_space s = true.
Proof.
  unfold JsString.trim. rewrite <- trimStart_nil.
  destruct (JsString.trimStart s) as [|c r] eqn:E; [tauto|].
  split; [|discriminate]. intros H. exfalso.
  apply (f_equal (@rev N)) in H. rewrite rev_involutive in H. cbn [rev] in H.
  apply trimStart_nil in H. rewrite forallb_app in H.
  cbn [forallb] in H. rewrite (trimStart_head s c r E) in H.
  cbn [andb] in H. rewrite andb_false_r in H. discriminate.
Qed.

(** X24. The gate submits nothing when the password is empty or made of white
    space only; any other password goes to [onUnlock] exactly as typed, the
    white space around it included. *)
Theorem handleSubmit_submits (pw : jsstring) :
  PasswordGate.handleSubmit pw
  = if forallb JsString.is_white_space pw then None else Some pw.
Proof.
  unfold PasswordGate.handleSubmit.
  destruct (forallb JsString.is_white_space pw) eqn:E.
  - apply trim_nil in E. now rewrite E.
  - destruct (JsString.trim pw) eqn:T; [|reflexivity].
    apply trim_nil in T. congruence.
Qed.

(** ** The texts of [encrypt-files.js], read by [decryptFromJSON] *)

Lemma parse_script_text (d : EncryptFiles.Encrypted) :
  JSON.parse (EncryptFiles.encryptedToJSON d)
  = Ok (JSON.JObject
          [(js "ciphertext",
            JSON.JString (EncryptFiles.toString_base64 (EncryptFiles.ciphertext d)));
           (js "nonce",
            JSON.JString (EncryptFiles.toString_base64 (EncryptFiles.nonce d)));
           (js "salt",
            JSON.JString (EncryptFiles.toString_base64 (EncryptFiles.salt d)));
           (js "authTag",
            JSON.JString (EncryptFiles.toString_base64 (EncryptFiles.authTag d)))]).
Proof.
  unfold JSON.parse.
  assert (E : exists f, 2 * length (EncryptFiles.encryptedToJSON d) + 2 = 6 + f).
  { exists (2 * length (EncryptFiles.encryptedToJSON d) + 2 - 6).
    unfold EncryptFiles.encryptedToJSON. rewrite !length_app. cbn [length]. lia. }
  destruct E as [f ->].
  unfold EncryptFiles.encryptedToJSON, JSON.quote, EncryptFiles.toString_base64.
  rewrite !quote_body_plain by (apply encode_plain || (repeat constructor)).
  simpl.
  rewrite <- app_assoc. cbn [app]. rewrite parse_string_plain by apply encode_plain.
  simpl.
  rewrite <- app_assoc. cbn [app]. rewrite parse_string_plain by apply encode_plain.
  simpl.
  rewrite <- app_assoc. cbn [app]. rewrite parse_string_plain by apply encode_plain.
  simpl.
  rewrite <- app_assoc. cbn [app]. rewrite parse_string_plain by apply encode_plain.
  reflexivity.
Qed.

(** X25. The script stores the tag in a member of its own, [authTag], and a nonce
    of 12 bytes.  [decryptFromJSON] does not read [authTag]: it parses the
    text to an envelope of the three other fields, takes the first 12 bytes
    of the ciphertext for the second half of the nonce and hands the cipher
    what follows them, whose last 16 bytes it checks as the tag.  A file of
    fewer than 28 bytes encrypted by the script is therefore rejected with
    [OperationError] under every password, the right one included. *)
Theorem script_text_misread crypto nts (d : EncryptFiles.Encrypted)
        (pw : jsstring) (e : Entropy) :
  has_subtle crypto = true ->
  length (EncryptFiles.nonce d) = 12 ->
  parse_envelope nts (EncryptFiles.encryptedToJSON d)
  = Ok {| ciphertext := EncryptFiles.ciphertext d;
          nonce := EncryptFiles.nonce d;
          salt := EncryptFiles.salt d |}
  /\ (exists rks,
        AES.key_schedule (derived_key pw (EncryptFiles.salt d)) = Some rks
        /\ decryptFromJSON crypto nts (EncryptFiles.encryptedToJSON d) pw e
           = match Subtle.decrypt_AES_GCM rks (EncryptFiles.nonce d)
                     (skipn 12 (EncryptFiles.ciphertext d)) with
             | Ok p => Ok (map Byte.to_N p, e)
             | Throw err => Throw err
             end)
  /\ (length (EncryptFiles.ciphertext d) < 28 ->
      decryptFromJSON crypto nts (EncryptFiles.encryptedToJSON d) pw e
      = Throw OperationError).
Proof.
  intros H Hn.
  assert (P : parse_envelope nts (EncryptFiles.encryptedToJSON d)
              = Ok {| ciphertext := EncryptFiles.ciphertext d;
                      nonce := EncryptFiles.nonce d;
                      salt := EncryptFiles.salt d |}).
  { unfold parse_envelope. rewrite parse_script_text. cbn [rbind].
    unfold base64ToEncryptedData.
    rewrite (decode_field_encoded nts _ (js "ciphertext") (EncryptFiles.ciphertext d))
      by reflexivity.
    rewrite (decode_field_encoded nts _ (js "nonce") (EncryptFiles.nonce d))
      by reflexivity.
    rewrite (decode_field_encoded nts _ (js "salt") (EncryptFiles.salt d))
      by reflexivity.
    reflexivity. }
  destruct (derived_key_schedule pw (EncryptFiles.salt d)) as [rks Hk].
  assert (D : decryptFromJSON crypto nts (EncryptFiles.encryptedToJSON d) pw e
              = match Subtle.decrypt_AES_GCM rks (EncryptFiles.nonce d)
                        (skipn 12 (EncryptFiles.ciphertext d)) with
                | Ok p => Ok (map Byte.to_N p, e)
                | Throw err => Throw err
                end).
  { rewrite decryptFromJSON_stages, P.
    rewrite (decrypt_opened crypto
               {| ciphertext := EncryptFiles.ciphertext d;
                  nonce := EncryptFiles.nonce d;
                  salt := EncryptFiles.salt d |} pw e rks H Hk).
    cbn [nonce ciphertext].
    rewrite firstn_app, Hn.
    rewrite (firstn_all2 (n := 24) (EncryptFiles.nonce d)) by lia.
    rewrite firstn_exact by assumption.
    rewrite skipn_app, Hn.
    rewrite (skipn_all2 (n := 24) (EncryptFiles.nonce d)) by lia.
    cbn [app Nat.sub]. unfold lift.
    destruct (Subtle.decrypt_AES_GCM _ _ _); reflexivity. }
  split; [exact P|]. split; [exists rks; split; [exact Hk|exact D]|].
  intros Hc. rewrite D. rewrite decrypt_AES_GCM_short; [reflexivity|].
  rewrite length_skipn. lia.
Qed.

Lemma script_text_misread_witness :
  has_subtle (Some {| subtle := true |}) = true
  /\ length (EncryptFiles.nonce
               {| EncryptFiles.ciphertext := zeros 27;
                  EncryptFiles.nonce := zeros 12;
                  EncryptFiles.salt := zeros 16;
                  EncryptFiles.authTag := zeros 16 |}) = 12
  /\ decryptFromJSON (Some {| subtle := true |}) (fun l => l)
       (EncryptFiles.encryptedToJSON
          {| EncryptFiles.ciphertext := zeros 27;
             EncryptFiles.nonce := zeros 12;
             EncryptFiles.salt := zeros 16;
             EncryptFiles.authTag := zeros 16 |})
       (js "pw") (fun _ => x00)
     = Throw OperationError.
Proof.
  split; [reflexivity|]. split; [reflexivity|].
  apply (script_text_misread (Some {| subtle := true |}) (fun l => l)
           {| EncryptFiles.ciphertext := zeros 27;
              EncryptFiles.nonce := zeros 12;
              EncryptFiles.salt := zeros 16;
              EncryptFiles.authTag := zeros 16 |}
           (js "pw") (fun _ => x00) eq_refl eq_refl).
  simpl. lia.
Defined.

(** ** The password of [encrypt-files.js] *)

Lemma starts_with_key_astride (s t : jsstring) :
  s <> [] ->
  JsString.starts_with (js "VITE_SITE_PASSWORD=") s = false ->
  JsString.starts_with (js "VITE_SITE_PASSWORD=")
                       (s ++ js "VITE_SITE_PASSWORD=" ++ t) = false.
Proof.
  intros Hs H.
  do 19 (destruct s as [|? s];
         [first [contradiction | cbn; now rewrite ?andb_false_r]|]).
  rewrite starts_with_app by (simpl; lia). exact H.
Qed.

Lemma dots_line (line t : jsstring) :
  Forall (fun c => EncryptFiles.is_line_terminator c = false) line ->
  (t = [] \/ exists c r, t = c :: r /\ EncryptFiles.is_line_terminator c = true) ->
  EncryptFiles.dots (line ++ t) = line.
Proof.
  intros Hl Ht. induction Hl as [|c line Hc _ IH].
  - destruct Ht as [->|(c & r & -> & Hc)]; [reflexivity|].
    cbn [app EncryptFiles.dots]. now rewrite Hc.
  - cbn [app EncryptFiles.dots]. now rewrite Hc, IH.
Qed.

Lemma match_password_first (a line t : jsstring) :
  JsString.includes (js "VITE_SITE_PASSWORD=") a = false ->
  line <> [] ->
  Forall (fun c => EncryptFiles.is_line_terminator c = false) line ->
  (t = [] \/ exists c r, t = c :: r /\ EncryptFiles.is_line_terminator c = true) ->
  EncryptFiles.match_password (a ++ js "VITE_SITE_PASSWORD=" ++ line ++ t)
  = Some line.
Proof.
  intros Ha Hne Hl Ht. induction a as [|c a IH].
  - simpl. rewrite (dots_line line t Hl Ht). now destruct line.
  - cbn [JsString.includes] in Ha. apply orb_false_iff in Ha as [H1 H2].
    pose proof (starts_with_key_astride (c :: a) (line ++ t)
                  ltac:(discriminate) H1) as E.
    cbn [app] in E |- *. cbn [EncryptFiles.match_password]. rewrite E.
    now apply IH.
Qed.

Lemma trimStart_at (w : jsstring) (c : N) (r : jsstring) :
  Forall (fun x => JsString.is_white_space x = true) w ->
  JsString.is_white_space c = false ->
  JsString.trimStart (w ++ c :: r) = c :: r.
Proof.
  intros Hw Hc. induction Hw as [|x w Hx _ IH]; cbn [app JsString.trimStart].
  - now rewrite Hc.
  - now rewrite Hx.
Qed.

Lemma trim_core (w1 w2 body : jsstring) (c1 c2 : N) :
  Forall (fun x => JsString.is_white_space x = true) w1 ->
  Forall (fun x => JsString.is_white_space x = true) w2 ->
  JsString.is_white_space c1 = false ->
  JsString.is_white_space c2 = false ->
  JsString.trim (w1 ++ c1 :: body ++ c2 :: w2) = c1 :: body ++ [c2].
Proof.
  intros H1 H2 Hc1 Hc2. unfold JsString.trim.
  rewrite (trimStart_at w1 c1 _ H1 Hc1).
  replace (rev (c1 :: body ++ c2 :: w2)) with (rev w2 ++ c2 :: rev body ++ [c1]).
  - rewrite trimStart_at; [|now apply Forall_rev|assumption].
    cbn [rev]. rewrite rev_app_distr, rev_involutive. reflexivity.
  - cbn [rev]. rewrite rev_app_distr. cbn [rev]. now rewrite <- !app_assoc.
Qed.

Lemma is_quote_not_space (q : N) :
  EncryptFiles.is_quote q = true ->
  JsString.is_white_space q = false /\ EncryptFiles.is_line_terminator q = false.
Proof.
  unfold EncryptFiles.is_quote. intros H. apply orb_true_iff in H.
  destruct H as [H|H]; apply N.eqb_eq in H; subst q; split; reflexivity.
Qed.

Lemma strip_quotes_quoted (q1 q2 : N) (body : jsstring) :
  EncryptFiles.is_quote q1 = true -> EncryptFiles.is_quote q2 = true ->
  EncryptFiles.strip_quotes (q1 :: body ++ [q2]) = body.
Proof.
  intros H1 H2. unfold EncryptFiles.strip_quotes, EncryptFiles.drop_last_quote.
  rewrite H1, rev_app_distr. cbn [rev app]. now rewrite H2, rev_involutive.
Qed.

(** X26. The script takes its password from the environment variable as it
    stands when that is set and not empty.  Otherwise it reads the file
    [.env]: the first 'VITE_SITE_PASSWORD=' anywhere in it counts, whatever
    precedes it on the line, and of the rest of that line the white space
    around is dropped and then one quotation mark at each end, so that a
    quoted value is taken exactly as it stands between its quotation marks.
    With neither the variable nor the file there is no password. *)
Theorem password_of_env (variable : option jsstring) (a w1 w2 pw t : jsstring)
        (q1 q2 : N) :
  variable = None \/ variable = Some [] ->
  JsString.includes (js "VITE_SITE_PASSWORD=") a = false ->
  Forall (fun c => JsString.is_white_space c = true
                   /\ EncryptFiles.is_line_terminator c = false) w1 ->
  Forall (fun c => JsString.is_white_space c = true
                   /\ EncryptFiles.is_line_terminator c = false) w2 ->
  EncryptFiles.is_quote q1 = true -> EncryptFiles.is_quote q2 = true ->
  pw <> [] ->
  Forall (fun c => EncryptFiles.is_line_terminator c = false) pw ->
  (t = [] \/ exists c r, t = c :: r /\ EncryptFiles.is_line_terminator c = true) ->
  EncryptFiles.password_of variable
    (Some (a ++ js "VITE_SITE_PASSWORD=" ++ (w1 ++ q1 :: pw ++ q2 :: w2) ++ t))
  = Some pw
  /\ EncryptFiles.password_of variable None = None
  /\ forall c r content,
       EncryptFiles.password_of (Some (c :: r)) content = Some (c :: r).
Proof.
  intros Hv Ha H1 H2 Hq1 Hq2 Hpw Hl Ht.
  destruct (is_quote_not_space q1 Hq1) as [S1 T1].
  destruct (is_quote_not_space q2 Hq2) as [S2 T2].
  assert (Hline : Forall (fun c => EncryptFiles.is_line_terminator c = false)
                    (w1 ++ q1 :: pw ++ q2 :: w2)).
  { apply Forall_app. split; [eapply Forall_impl; [|exact H1]; cbv beta; tauto|].
    constructor; [exact T1|]. apply Forall_app. split; [exact Hl|].
    constructor; [exact T2|]. eapply Forall_impl; [|exact H2]. cbv beta. tauto. }
  assert (Hne : w1 ++ q1 :: pw ++ q2 :: w2 <> []).
  { destruct w1; discriminate. }
  split; [|split].
  - unfold EncryptFiles.password_of.
    rewrite (match_password_first a _ t Ha Hne Hline Ht).
    rewrite trim_core;
      [|eapply Forall_impl; [|exact H1]; cbv beta; tauto
       |eapply Forall_impl; [|exact H2]; cbv beta; tauto
       |exact S1|exact S2].
    rewrite (strip_quotes_quoted q1 q2 pw Hq1 Hq2).
    destruct Hv as [-> | ->]; now destruct pw.
  - destruct Hv as [-> | ->]; reflexivity.
  - intros c r content. reflexivity.
Qed.

Lemma password_of_env_witness :
  EncryptFiles.password_of None
    (Some (js "# OLD_VITE_SITE_PASSWORD= ' pass word ' " ++ [10%N] ++ js "MORE=1"))
  = Some (js " pass word ").
Proof.
  assert (W : Forall (fun c => JsString.is_white_space c = true
                               /\ EncryptFiles.is_line_terminator c = false)
                (js " ")).
  { repeat constructor. }
  assert (L : Forall (fun c => EncryptFiles.is_line_terminator c = false)
                (js " pass word ")).
  { repeat (constructor; [reflexivity|]). constructor. }
  exact (proj1 (password_of_env None (js "# OLD_") (js " ") (js " ")
                  (js " pass word ") (10%N :: js "MORE=1") 39 39
                  (or_introl eq_refl) eq_refl W W eq_refl eq_refl
                  ltac:(discriminate) L
                  (or_intror (ex_intro _ 10%N
                     (ex_intro _ (js "MORE=1") (conj eq_refl eq_refl)))))).
Defined.
